(** * NanoDet post-processing: a shallow embedding of [nanodet/detect.py]

    The detector decodes the flat per-anchor output of the network into
    boxes, prunes each feature level, runs non-maximum suppression and maps
    the surviving boxes back to the source image.

    Conventions of the embedding.
    - Python [int] values are [Z]; array lengths and indices are [nat].
    - numpy floating-point values are idealised as real numbers [R]: the
      arithmetic is exact, there is no overflow, no NaN and no rounding
      error.  The decoder of the distance distributions is where a float32
      overflow changes what the code returns, so it is also modelled on
      float32 values with their infinities and NaN, in module [F32]; the
      two models agree on the logits float32 can exponentiate.
    - A one-dimensional array is a [list]; a two-dimensional array is the
      list of its rows.
    - A numpy or Python exception is a [Raise] in the [result] monad. *)

From Stdlib Require Import String.
From Stdlib Require Import List ZArith Reals Lra Lia Bool.
From Stdlib Require Import Sorting.Permutation.
From Equations Require Import Equations.
Import ListNotations.

(** ** Exceptions *)

Inductive exn : Type :=
| ValueError
| IndexError
| ZeroDivisionError
| AttributeError
| CvError.

Inductive result (A : Type) : Type :=
| Ok (a : A)
| Raise (e : exn).

Arguments Ok {A} a.
Arguments Raise {A} e.

Definition bind {A B : Type} (m : result A) (k : A -> result B) : result B :=
  match m with
  | Ok a => k a
  | Raise e => Raise e
  end.

Notation "x <- m ;; k" := (bind m (fun x => k))
  (at level 61, m at next level, right associativity).
Notation "' p <- m ;; k" := (bind m (fun p => k))
  (at level 61, p pattern, m at next level, right associativity).

(** ** The numpy operations the detector uses *)

Module np.

(** [np.arange(lo, hi)] on integers; empty when [hi <= lo]. *)
Definition arange (lo hi : Z) : list Z :=
  map (fun k => (lo + Z.of_nat k)%Z) (seq 0 (Z.to_nat (hi - lo))).

(** [np.meshgrid(x, y)] with the default [indexing='xy']: both results
    have [len(y)] rows and [len(x)] columns, [xv[r][c] = x[c]] and
    [yv[r][c] = y[r]]. *)
Definition meshgrid {A : Type} (x y : list A) : list (list A) * list (list A) :=
  (map (fun _ => x) y, map (fun b => map (fun _ => b) x) y).

(** [a.flatten()] of a two-dimensional array, row-major. *)
Definition flatten {A : Type} (a : list (list A)) : list A := concat a.

(** [np.stack((u, v), axis=-1)] of two one-dimensional arrays of the same
    length: row [i] is [(u[i], v[i])]. *)
Definition stack2 {A : Type} (u v : list A) : list (A * A) := combine u v.

End np.

(** ** Anchor grid *)

(** [math.ceil(a / b)] for integers [a] and a positive [b]. *)
Definition ceil_div (a b : Z) : Z := (- ((- a) / b))%Z.

Definition _make_grid (featmap_size : Z * Z) (stride : Z) : list (Z * Z) :=
  let '(feat_h, feat_w) := featmap_size in
  let shift_x := map (fun v => (v * stride)%Z) (np.arange 0 feat_w) in
  let shift_y := map (fun v => (v * stride)%Z) (np.arange 0 feat_h) in
  let '(xv, yv) := np.meshgrid shift_x shift_y in
  let xv := np.flatten xv in
  let yv := np.flatten yv in
  np.stack2 xv yv.

(** ** Python helpers *)

(** [l[i]] for a non-negative index; [IndexError] out of range. *)
Definition py_index {A : Type} (l : list A) (i : nat) : result A :=
  match nth_error l i with
  | Some a => Ok a
  | None => Raise IndexError
  end.

(** [l[-1]]. *)
Definition py_last {A : Type} (l : list A) : result A :=
  match rev l with
  | a :: _ => Ok a
  | [] => Raise IndexError
  end.

Fixpoint mapM {A B : Type} (f : A -> result B) (l : list A) : result (list B) :=
  match l with
  | [] => Ok []
  | a :: l' => b <- f a ;; bs <- mapM f l' ;; Ok (b :: bs)
  end.

(** Comparisons of floats as booleans. *)
Definition Rleb (x y : R) : bool := if Rle_dec x y then true else false.
Definition Rltb (x y : R) : bool := if Rlt_dec x y then true else false.

(** [int(x)] of a float: truncation toward zero. *)
Definition py_int (x : R) : Z :=
  if Rle_dec 0 x then Int_part x else (- Int_part (- x))%Z.

(** ** The detector object *)

(** The fields of [NanoDet] that post-processing reads.  The normalisation
    constants and the inference session are left out: the session is
    represented by the shapes it reports and by the tensor it returns. *)
Record NanoDet : Type := {
  classes : list string;
  num_classes : nat;
  prob_threshold : R;
  iou_threshold : R;
  input_shape : Z * Z;
  reg_max : Z;
  project : list Z;
  strides : list Z;
  mlvl_anchors : list (list (Z * Z));
  keep_ratio : bool
}.

(** [NanoDet.__init__].  [labels] are the stripped lines of the label file,
    [net_input_shape] is [net.get_inputs()[0].shape] and [net_output_shape]
    is [net.get_outputs()[0].shape]. *)
Definition __init__ (labels : list string)
    (net_input_shape net_output_shape : list Z)
    (prob_threshold iou_threshold : R) : result NanoDet :=
  let num_classes := length labels in
  in_h <- py_index net_input_shape 2 ;;
  in_w <- py_index net_input_shape 3 ;;
  out_last <- py_last net_output_shape ;;
  let reg_max := (Z.quot (out_last - Z.of_nat num_classes) 4 - 1)%Z in
  let strides := [8; 16; 32; 64]%Z in
  let mlvl_anchors :=
    map (fun s => _make_grid (ceil_div in_h s, ceil_div in_w s) s) strides in
  Ok {| classes := labels;
        num_classes := num_classes;
        prob_threshold := prob_threshold;
        iou_threshold := iou_threshold;
        input_shape := (in_h, in_w);
        reg_max := reg_max;
        project := np.arange 0 (reg_max + 1);
        strides := strides;
        mlvl_anchors := mlvl_anchors;
        keep_ratio := false |}.

(** ** Distribution decoding *)

Definition sum (l : list R) : R := fold_right Rplus 0%R l.

(** [NanoDet.softmax] with [axis=1]: each row is exponentiated and divided
    by the sum of its exponentials. *)
Definition softmax_row (x : list R) : list R :=
  let x_exp := map exp x in
  let x_sum := sum x_exp in
  map (fun e => (e / x_sum)%R) x_exp.

Definition softmax (x : list (list R)) : list (list R) := map softmax_row x.

(** Rows of [cols] consecutive entries of a flat buffer. *)
Fixpoint chunk_aux {A : Type} (fuel cols : nat) (flat : list A) : list (list A) :=
  match fuel with
  | O => []
  | S fuel' =>
      match flat with
      | [] => []
      | _ :: _ => firstn cols flat :: chunk_aux fuel' cols (skipn cols flat)
      end
  end.

Definition chunk {A : Type} (cols : nat) (flat : list A) : list (list A) :=
  chunk_aux (length flat) cols flat.

(** [a.reshape(-1, cols)], given the flat buffer of [a]: [ValueError] unless
    the size is a multiple of a positive [cols]. *)
Definition reshape {A : Type} (cols : Z) (flat : list A) : result (list (list A)) :=
  let k := Z.to_nat cols in
  if (cols <=? 0)%Z || negb (Nat.eqb (length flat mod k) 0)
  then Raise ValueError
  else Ok (chunk k flat).

(** The inner product of two vectors of the same length. *)
Definition inner (u v : list R) : R :=
  sum (map (fun p => (fst p * snd p)%R) (combine u v)).

(** [np.dot(a, v)] of a matrix and a vector: [ValueError] when a row and
    the vector differ in length. *)
Definition dot (a : list (list R)) (v : list R) : result (list R) :=
  mapM (fun row =>
          if Nat.eqb (length row) (length v) then Ok (inner row v)
          else Raise ValueError) a.

(** Lines 212 to 216 of [post_process]: the distances of one level, in
    tensor pixels, one row of four per anchor. *)
Definition decode_distances (self : NanoDet) (stride : Z)
    (bbox_pred : list (list R)) : result (list (list R)) :=
  bbox_pred <- reshape (reg_max self + 1) (np.flatten bbox_pred) ;;
  let bbox_pred := softmax bbox_pred in
  flat <- dot bbox_pred (map IZR (project self)) ;;
  bbox_pred <- reshape 4 flat ;;
  Ok (map (map (fun v => (v * IZR stride)%R)) bbox_pred).

(** ** Per-level pruning *)

(** [row.max()]: [ValueError] on an empty row. *)
Definition amax (row : list R) : result R :=
  match row with
  | [] => Raise ValueError
  | x :: r => Ok (fold_left Rmax r x)
  end.

(** [row.argmax()]: the first index of the maximum. *)
Fixpoint argmax_from (best : nat) (vbest : R) (i : nat) (r : list R) : nat :=
  match r with
  | [] => best
  | v :: r' =>
      if Rltb vbest v then argmax_from i v (S i) r'
      else argmax_from best vbest (S i) r'
  end.

Definition argmax (row : list R) : result nat :=
  match row with
  | [] => Raise ValueError
  | x :: r => Ok (argmax_from 0 x 1 r)
  end.

(** Stable insertion sort: [x] is placed in front of the first element it
    may precede. *)
Section InsertionSort.
Variable A : Type.
Variable before : A -> A -> bool.

Fixpoint insert (x : A) (l : list A) : list A :=
  match l with
  | [] => [x]
  | y :: l' => if before x y then x :: y :: l' else y :: insert x l'
  end.

Definition isort (l : list A) : list A := fold_right insert [] l.
End InsertionSort.

Arguments insert {A} before x l.
Arguments isort {A} before l.

(** [a.argsort()]: the indices of [a] in ascending order of value.  numpy
    leaves the order of equal values to the sorting algorithm; the model
    takes the stable order, equal values by ascending index. *)
Definition argsort (a : list R) : list nat :=
  map fst (isort (fun x y => Rleb (snd x) (snd y))
                 (combine (seq 0 (length a)) a)).

(** [a[inds]]: fancy indexing of the rows of [a]. *)
Definition take {A : Type} (a : list A) (inds : list nat) : result (list A) :=
  mapM (py_index a) inds.

Definition nms_pre : nat := 1000.

(** Line 221: [max_scores.argsort()[::-1][0:nms_pre]]. *)
Definition topk_inds (max_scores : list R) : list nat :=
  firstn nms_pre (rev (argsort max_scores)).

(** Lines 218 to 224 of [post_process]. *)
Definition prune_level (anchors : list (Z * Z)) (bbox_pred cls_score : list (list R))
  : result (list (Z * Z) * list (list R) * list (list R)) :=
  if Nat.ltb 0 nms_pre && Nat.ltb nms_pre (length cls_score) then
    max_scores <- mapM amax cls_score ;;
    let topk_inds := topk_inds max_scores in
    anchors <- take anchors topk_inds ;;
    bbox_pred <- take bbox_pred topk_inds ;;
    cls_score <- take cls_score topk_inds ;;
    Ok (anchors, bbox_pred, cls_score)
  else Ok (anchors, bbox_pred, cls_score).

(** ** Box reconstruction *)

(** A box [(x1, y1, x2, y2)], and after line 238 [(x, y, width, height)]. *)
Definition Box : Type := (R * R * R * R)%type.

(** [a[:, j]]. *)
Definition column {A : Type} (j : nat) (a : list (list A)) : result (list A) :=
  mapM (fun row => py_index row j) a.

(** An elementwise operation on two one-dimensional arrays under numpy's
    broadcasting: equal lengths, or one of the two of length one. *)
Definition broadcast2 {A : Type} (f : A -> A -> A) (a b : list A) : result (list A) :=
  if Nat.eqb (length a) (length b) then
    Ok (map (fun p => f (fst p) (snd p)) (combine a b))
  else
    match a, b with
    | [x], _ => Ok (map (fun y => f x y) b)
    | _, [y] => Ok (map (fun x => f x y) a)
    | _, _ => Raise ValueError
    end.

(** [np.clip(x, lo, hi)]. *)
Definition clip (lo hi x : R) : R := Rmin (Rmax x lo) hi.

(** [np.stack([x1, y1, x2, y2], axis=-1)] of four arrays of the same length. *)
Fixpoint stack4 {A : Type} (x1 y1 x2 y2 : list A) : list (A * A * A * A) :=
  match x1, y1, x2, y2 with
  | a :: x1', b :: y1', c :: x2', d :: y2' => (a, b, c, d) :: stack4 x1' y1' x2' y2'
  | _, _, _, _ => []
  end.

Definition distance2bbox (points : list (Z * Z)) (distance : list (list R))
    (max_shape : option (Z * Z)) : result (list Box) :=
  if Nat.eqb (length points) 0 || Nat.eqb (length (np.flatten distance)) 0
  then Ok []
  else
    let px := map (fun p => IZR (fst p)) points in
    let py := map (fun p => IZR (snd p)) points in
    d0 <- column 0 distance ;;
    d1 <- column 1 distance ;;
    d2 <- column 2 distance ;;
    d3 <- column 3 distance ;;
    x1 <- broadcast2 Rminus px d0 ;;
    y1 <- broadcast2 Rminus py d1 ;;
    x2 <- broadcast2 Rplus px d2 ;;
    y2 <- broadcast2 Rplus py d3 ;;
    match max_shape with
    | Some (mh, mw) =>
        Ok (stack4 (map (clip 0 (IZR mw)) x1) (map (clip 0 (IZR mh)) y1)
                   (map (clip 0 (IZR mw)) x2) (map (clip 0 (IZR mh)) y2))
    | None => Ok (stack4 x1 y1 x2 y2)
    end.

(** ** The decoder on float32 values

    The tensor of an ONNX NanoDet is float32.  [np.exp] of a float32
    overflows to infinity above the largest float32 and underflows to zero,
    an infinity divided by an infinity is NaN, and NaN propagates through
    every later operation.  Module [F32] follows lines 110 to 123, 212 to 216
    and 257 to 280 on such values.  The rounding of a finite result and the
    sign of zero are left out: a finite result is the exact real. *)
Inductive float : Type :=
| Num (x : R)
| PInf
| NInf
| NaN.

Module F32.
Local Open Scope R_scope.

(** The largest float32, and the bound below which a positive result is
    rounded to zero, half the smallest subnormal float32. *)
Definition FLT_MAX : R := (2 - / 2 ^ 23) * 2 ^ 127.
Definition FLT_TINY : R := / 2 ^ 150.

(** A float32 result of exact value [x]: an infinity out of range. *)
Definition overflow (x : R) : float :=
  if Rltb FLT_MAX x then PInf else if Rltb x (- FLT_MAX) then NInf else Num x.

(** The exponential of a float32 number, when it is stored: zero on
    underflow. *)
Definition exp_value (x : R) : R :=
  if Rltb (exp x) FLT_TINY then 0 else exp x.

(** The logit vectors float32 can exponentiate and normalise: the sum of
    the stored exponentials does not overflow, and not every exponential
    underflows. *)
Definition in_range (v : list R) : Prop :=
  sum (map exp_value v) <= FLT_MAX /\
  Exists (fun x => FLT_TINY <= exp x) v.

(** The numbers float32 softmax returns on a logit vector in range: the
    stored exponentials over their sum. *)
Definition softmax_numbers (v : list R) : list R :=
  let w := map exp_value v in
  map (fun e => e / sum w) w.

(** [np.exp] on float32. *)
Definition exp (x : float) : float :=
  match x with
  | Num v => overflow (exp_value v)
  | PInf => PInf
  | NInf => Num 0
  | NaN => NaN
  end.

(** Addition and division on float32. *)
Definition add (a b : float) : float :=
  match a, b with
  | NaN, _ | _, NaN => NaN
  | PInf, NInf | NInf, PInf => NaN
  | PInf, _ | _, PInf => PInf
  | NInf, _ | _, NInf => NInf
  | Num x, Num y => overflow (x + y)
  end.

Definition div (a b : float) : float :=
  match a, b with
  | NaN, _ | _, NaN => NaN
  | Num x, Num y =>
      if Req_dec_T y 0 then
        if Req_dec_T x 0 then NaN else if Rltb 0 x then PInf else NInf
      else overflow (x / y)
  | Num _, _ => Num 0
  | PInf, Num y => if Rltb y 0 then NInf else PInf
  | NInf, Num y => if Rltb y 0 then PInf else NInf
  | _, _ => NaN
  end.

(** [np.sum] of a float32 row. *)
Definition sum (l : list float) : float := fold_right add (Num 0) l.

(** [NanoDet.softmax] with [axis=1] on float32. *)
Definition softmax_row (x : list float) : list float :=
  let x_exp := map exp x in
  let x_sum := sum x_exp in
  map (fun e => div e x_sum) x_exp.

Definition softmax (x : list (list float)) : list (list float) :=
  map softmax_row x.

(** [np.dot] of the float32 softmax with the int64 [project] is float64, and
    so is everything after it.  The float64 operations are taken exact on
    numbers: their operands here are bounded by [reg_max] times the stride
    plus the input size, far inside the float64 range. *)
Definition fadd (a b : float) : float :=
  match a, b with
  | NaN, _ | _, NaN => NaN
  | PInf, NInf | NInf, PInf => NaN
  | PInf, _ | _, PInf => PInf
  | NInf, _ | _, NInf => NInf
  | Num x, Num y => Num (x + y)
  end.

Definition fopp (a : float) : float :=
  match a with
  | Num x => Num (- x)
  | PInf => NInf
  | NInf => PInf
  | NaN => NaN
  end.

Definition fsub (a b : float) : float := fadd a (fopp b).

Definition signed_inf (positive : bool) : float :=
  if positive then PInf else NInf.

Definition fmul (a b : float) : float :=
  match a, b with
  | NaN, _ | _, NaN => NaN
  | Num x, Num y => Num (x * y)
  | Num x, PInf | PInf, Num x =>
      if Req_dec_T x 0 then NaN else signed_inf (Rltb 0 x)
  | Num x, NInf | NInf, Num x =>
      if Req_dec_T x 0 then NaN else signed_inf (Rltb x 0)
  | PInf, PInf | NInf, NInf => PInf
  | PInf, NInf | NInf, PInf => NInf
  end.

(** [np.maximum] and [np.minimum] propagate NaN; [np.clip(x, lo, hi)] is
    [np.minimum(np.maximum(x, lo), hi)]. *)
Definition maximum (a b : float) : float :=
  match a, b with
  | NaN, _ | _, NaN => NaN
  | PInf, _ | _, PInf => PInf
  | NInf, c | c, NInf => c
  | Num x, Num y => Num (Rmax x y)
  end.

Definition minimum (a b : float) : float :=
  match a, b with
  | NaN, _ | _, NaN => NaN
  | NInf, _ | _, NInf => NInf
  | PInf, c | c, PInf => c
  | Num x, Num y => Num (Rmin x y)
  end.

Definition clip (lo hi x : float) : float := minimum (maximum x lo) hi.

(** [a <= b] on floats: false as soon as one side is NaN. *)
Definition le (a b : float) : bool :=
  match a, b with
  | NaN, _ | _, NaN => false
  | NInf, _ | _, PInf => true
  | Num x, Num y => Rleb x y
  | _, _ => false
  end.

Definition inner (u v : list float) : float :=
  fold_right fadd (Num 0) (map (fun p => fmul (fst p) (snd p)) (combine u v)).

Definition dot (a : list (list float)) (v : list float) : result (list float) :=
  mapM (fun row =>
          if Nat.eqb (length row) (length v) then Ok (inner row v)
          else Raise ValueError) a.

(** Lines 212 to 216 of [post_process]. *)
Definition decode_distances (self : NanoDet) (stride : Z)
    (bbox_pred : list (list float)) : result (list (list float)) :=
  bbox_pred <- reshape (reg_max self + 1) (np.flatten bbox_pred) ;;
  let bbox_pred := softmax bbox_pred in
  flat <- dot bbox_pred (map (fun k => Num (IZR k)) (project self)) ;;
  bbox_pred <- reshape 4 flat ;;
  Ok (map (map (fun v => fmul v (Num (IZR stride)))) bbox_pred).

Definition FBox : Type := (float * float * float * float)%type.

(** [NanoDet.distance2bbox]. *)
Definition distance2bbox (points : list (Z * Z)) (distance : list (list float))
    (max_shape : option (Z * Z)) : result (list FBox) :=
  if Nat.eqb (length points) 0 || Nat.eqb (length (np.flatten distance)) 0
  then Ok []
  else
    let px := map (fun p => Num (IZR (fst p))) points in
    let py := map (fun p => Num (IZR (snd p))) points in
    d0 <- column 0 distance ;;
    d1 <- column 1 distance ;;
    d2 <- column 2 distance ;;
    d3 <- column 3 distance ;;
    x1 <- broadcast2 fsub px d0 ;;
    y1 <- broadcast2 fsub py d1 ;;
    x2 <- broadcast2 fadd px d2 ;;
    y2 <- broadcast2 fadd py d3 ;;
    match max_shape with
    | Some (mh, mw) =>
        let lo := Num 0 in
        Ok (stack4 (map (clip lo (Num (IZR mw))) x1) (map (clip lo (Num (IZR mh))) y1)
                   (map (clip lo (Num (IZR mw))) x2) (map (clip lo (Num (IZR mh))) y2))
    | None => Ok (stack4 x1 y1 x2 y2)
    end.

(** A box whose corners are in order, as [x1 <= x2] and [y1 <= y2] evaluate
    on floats. *)
Definition box_ordered (b : FBox) : Prop :=
  let '(x1, y1, x2, y2) := b in le x1 x2 = true /\ le y1 y2 = true.

(** A box with a coordinate that is NaN. *)
Definition has_nan (b : FBox) : Prop :=
  let '(x1, y1, x2, y2) := b in
  x1 = NaN \/ y1 = NaN \/ x2 = NaN \/ y2 = NaN.

(** A box of numbers as a box of floats. *)
Definition of_box (b : Box) : FBox :=
  let '(x1, y1, x2, y2) := b in (Num x1, Num y1, Num x2, Num y2).

(** A float that is NaN or a number that is not negative. *)
Definition nan_or_nonneg (a : float) : Prop :=
  a = NaN \/ exists x, a = Num x /\ 0 <= x.

(** What lines 271 to 279 compute for one anchor and its row of four
    distances. *)
Definition anchor_box (mh mw : Z) (pd : (Z * Z) * list float) : FBox :=
  let '(p, d) := pd in
  (clip (Num 0) (Num (IZR mw)) (fsub (Num (IZR (fst p))) (nth 0 d NaN)),
   clip (Num 0) (Num (IZR mh)) (fsub (Num (IZR (snd p))) (nth 1 d NaN)),
   clip (Num 0) (Num (IZR mw)) (fadd (Num (IZR (fst p))) (nth 2 d NaN)),
   clip (Num 0) (Num (IZR mh)) (fadd (Num (IZR (snd p))) (nth 3 d NaN))).

End F32.

(** ** The distribution as the specification words it

    [distribution_of v p]: [p] is a probability vector over the support of
    the logit vector [v]; its entries are in the proportions of the
    exponentials of the logits, and zero where the exponential is below what
    float32 stores.  [mean_index p] is the expected value of the support
    [0, 1, ..., reg_max] under [p]. *)
Definition distribution_of (v p : list R) : Prop :=
  length p = length v /\
  sum p = 1%R /\
  Forall (fun q => (0 <= q)%R) p /\
  (forall i, (i < length v)%nat ->
     (exp (nth i v 0) < F32.FLT_TINY)%R -> nth i p 0%R = 0%R) /\
  (forall i j, (i < length v)%nat -> (j < length v)%nat ->
     (F32.FLT_TINY <= exp (nth i v 0))%R -> (F32.FLT_TINY <= exp (nth j v 0))%R ->
     (nth i p 0 * exp (nth j v 0) = nth j p 0 * exp (nth i v 0))%R).

Definition mean_index (p : list R) : R :=
  sum (map (fun i => (INR i * nth i p 0)%R) (seq 0 (length p))).

(** ** Suppression

    [cv2.dnn.NMSBoxes] is OpenCV's and not part of the repository; this
    section models it from section 4.5 of the specification. *)

(** Modelled from the spec: the Intersection-over-Union of two boxes given
    as [(x, y, width, height)], which [cv2.dnn.NMSBoxes] computes: the area
    the boxes share over the area they cover together. *)
Definition inter_area (a b : Box) : R :=
  let '(ax, ay, aw, ah) := a in
  let '(bx, by_, bw, bh) := b in
  let iw := Rmax 0 (Rmin (ax + aw) (bx + bw) - Rmax ax bx) in
  let ih := Rmax 0 (Rmin (ay + ah) (by_ + bh) - Rmax ay by_) in
  (iw * ih)%R.

Definition area (a : Box) : R :=
  let '(_, _, aw, ah) := a in (aw * ah)%R.

Definition iou (a b : Box) : R :=
  (inter_area a b / (area a + area b - inter_area a b))%R.

(** Modelled from the spec: steps 3 and 4 of the suppression inside
    [cv2.dnn.NMSBoxes]: emit the first remaining candidate, remove every
    other remaining candidate that overlaps it, repeat until none remains. *)
Equations? greedy {A : Type} (overlaps : A -> A -> bool) (l : list A) : list A
  by wf (length l) lt :=
  greedy overlaps [] := [];
  greedy overlaps (x :: rest) :=
    x :: greedy overlaps (filter (fun y => negb (overlaps x y)) rest).
Proof.
  simpl. apply Nat.lt_succ_r, filter_length_le.
Qed.

(** A candidate of the suppression: its index, its box and its confidence. *)
Definition Cand : Type := (nat * (Box * R))%type.
Definition cand_box (c : Cand) : Box := fst (snd c).
Definition cand_score (c : Cand) : R := snd (snd c).

(** Step 1: a candidate is discarded when its confidence is below the
    threshold. *)
Definition passes (score_threshold : R) (c : Cand) : bool :=
  negb (Rltb (cand_score c) score_threshold).

(** Step 2: [x] may stand before [y] when its confidence is at least that
    of [y]. *)
Definition by_score (x y : Cand) : bool := Rleb (cand_score y) (cand_score x).

(** Step 3: the IoU of the two boxes exceeds the threshold. *)
Definition overlaps (nms_threshold : R) (a b : Cand) : bool :=
  Rltb nms_threshold (iou (cand_box a) (cand_box b)).

(** Modelled from the spec: the candidates [cv2.dnn.NMSBoxes] selects.
    Following section 4.5: discard the candidates with confidence below
    [score_threshold], sort the rest by confidence descending (a stable
    sort), then select greedily, removing the candidates whose IoU with the
    selected box exceeds [nms_threshold]. *)
Definition NMS_select (bboxes : list Box) (scores : list R)
    (score_threshold nms_threshold : R) : list Cand :=
  let cands := combine (seq 0 (length scores)) (combine bboxes scores) in
  let cands := filter (passes score_threshold) cands in
  let cands := isort by_score cands in
  greedy (overlaps nms_threshold) cands.

(** What [cv2.dnn.NMSBoxes] hands back to Python: an array of indices, or
    the empty tuple [()] when it selects nothing. *)
Inductive cv_indices : Type :=
| EmptyTuple
| IndexArray (inds : list nat).

(** Modelled from the spec: [cv2.dnn.NMSBoxes(bboxes, scores,
    score_threshold, nms_threshold)], the indices of the selected candidates
    in the order of selection.  Which candidates are selected follows
    section 4.5; that an empty selection comes back as the empty tuple and
    not as an empty array is how OpenCV's Python binding returns it. *)
Definition NMSBoxes (bboxes : list Box) (scores : list R)
    (score_threshold nms_threshold : R) : cv_indices :=
  match map fst (NMS_select bboxes scores score_threshold nms_threshold) with
  | [] => EmptyTuple
  | i :: inds => IndexArray (i :: inds)
  end.

(** [indices.flatten()] of line 247: an array has the method, a tuple has
    not, and the attribute lookup raises [AttributeError]. *)
Definition flatten_indices (v : cv_indices) : result (list nat) :=
  match v with
  | EmptyTuple => Raise AttributeError
  | IndexArray inds => Ok inds
  end.

(** ** Post-processing *)

(** The loop of [post_process] over the feature levels, lines 206 to 230:
    [ind] is the running row offset into [preds]. *)
Fixpoint decode_levels (self : NanoDet) (levels : list (Z * list (Z * Z)))
    (ind : nat) (preds : list (list R))
  : result (list (list Box) * list (list (list R))) :=
  match levels with
  | [] => Ok ([], [])
  | (stride, anchors) :: levels' =>
      let rows := firstn (length anchors) (skipn ind preds) in
      let cls_score := map (firstn (num_classes self)) rows in
      let bbox_pred := map (skipn (num_classes self)) rows in
      let ind := ind + length anchors in
      bbox_pred <- decode_distances self stride bbox_pred ;;
      '(anchors, bbox_pred, cls_score) <- prune_level anchors bbox_pred cls_score ;;
      bboxes <- distance2bbox anchors bbox_pred (Some (input_shape self)) ;;
      '(mlvl_bboxes, mlvl_scores) <- decode_levels self levels' ind preds ;;
      Ok (bboxes :: mlvl_bboxes, cls_score :: mlvl_scores)
  end.

Definition xywh (b : Box) : Box :=
  let '(x1, y1, x2, y2) := b in (x1, y1, (x2 - x1)%R, (y2 - y1)%R).

Definition box_div (scale_factor : R) (b : Box) : Box :=
  let '(x1, y1, x2, y2) := b in
  ((x1 / scale_factor)%R, (y1 / scale_factor)%R,
   (x2 / scale_factor)%R, (y2 / scale_factor)%R).

(** Lines 237 to 255 of [post_process], the suppression step: the boxes in
    [(x, y, width, height)] form go through [cv2.dnn.NMSBoxes], its result
    is flattened, and the boxes, confidences and class ids at the indices it
    returns are kept. *)
Definition suppress (self : NanoDet) (mlvl_bboxes : list Box)
    (confidences : list R) (classIds : list nat)
  : result (list Box * list R * list nat) :=
  let bboxes_wh := map xywh mlvl_bboxes in
  indices <- flatten_indices
    (NMSBoxes bboxes_wh confidences (prob_threshold self) (iou_threshold self)) ;;
  if Nat.ltb 0 (length indices) then
    mlvl_bboxes <- take mlvl_bboxes indices ;;
    confidences <- take confidences indices ;;
    classIds <- take classIds indices ;;
    Ok (mlvl_bboxes, confidences, classIds)
  else Ok ([], [], []).

(** [NanoDet.post_process]: the boxes, confidences and class ids of the
    detections that survive suppression. *)
Definition post_process (self : NanoDet) (preds : list (list R))
    (scale_factor : R) (rescale : bool)
  : result (list Box * list R * list nat) :=
  '(mlvl_bboxes, mlvl_scores) <-
    decode_levels self (combine (strides self) (mlvl_anchors self)) 0 preds ;;
  let mlvl_bboxes := concat mlvl_bboxes in
  let mlvl_bboxes :=
    if rescale then map (box_div scale_factor) mlvl_bboxes else mlvl_bboxes in
  let mlvl_scores := concat mlvl_scores in
  classIds <- mapM argmax mlvl_scores ;;
  confidences <- mapM amax mlvl_scores ;;
  suppress self mlvl_bboxes confidences classIds.

(** ** Preprocessing geometry and coordinate remapping *)

(** [NanoDet.resize_image], for a source image of shape [(height, width)]:
    the resized height and width and the paddings [top] and [left] (written
    [left_] here, [left] being a constructor), as they are computed when
    no cv2 call raises.  The quotient and the product are the exact ones;
    the double ones of the code can differ from them in the last place,
    which [int] turns into one pixel at an integer value.  The image itself,
    and the errors of the cv2 calls that build it, are in [resized_shape]
    below. *)
Definition resize_image (self : NanoDet) (srcimg_shape : Z * Z) (keep_ratio : bool)
  : result (Z * Z * Z * Z) :=
  let '(src_h, src_w) := srcimg_shape in
  let '(in_h, in_w) := input_shape self in
  if keep_ratio && negb (src_h =? src_w)%Z then
    if (src_w =? 0)%Z then Raise ZeroDivisionError else
    let hw_scale := (IZR src_h / IZR src_w)%R in
    if Rltb 1 hw_scale then
      let neww := py_int (IZR in_w / hw_scale) in
      let left_ := py_int (IZR (in_w - neww) * 0.5) in
      Ok (in_h, neww, 0%Z, left_)
    else
      let newh := py_int (IZR in_h * hw_scale) in
      let top := py_int (IZR (in_h - newh) * 0.5) in
      Ok (newh, in_w, top, 0%Z)
  else Ok (in_h, in_w, 0%Z, 0%Z).

(** Lines 304 to 309 of [detect]: a box of the tensor mapped to the pixels of
    the source image, of shape [(src_h, src_w)].  The product is the exact
    one; the double product of the code can fall just below an integer
    product, where [int] gives one pixel less, so the properties below bound
    a pixel by the product and by the product minus one. *)
Definition remap (src_h src_w top left_ : Z) (ratioh ratiow : R) (b : Box)
  : Z * Z * Z * Z :=
  let '(b0, b1, b2, b3) := b in
  (Z.max (py_int ((b0 - IZR left_) * ratiow)) 0,
   Z.max (py_int ((b1 - IZR top) * ratioh)) 0,
   Z.min (py_int ((b2 - IZR left_) * ratiow)) src_w,
   Z.min (py_int ((b3 - IZR top) * ratioh)) src_h).

(** A rectangle drawn on the source image with its label and confidence. *)
Definition Detection : Type := (Z * Z * Z * Z * string * R)%type.

(** [NanoDet.detect], for a source image of shape [srcimg_shape]; [outs] is
    the tensor the inference session returns for the preprocessed image.
    The result lists the rectangles drawn, in order. *)
Definition detect (self : NanoDet) (srcimg_shape : Z * Z) (outs : list (list R))
  : result (list Detection) :=
  let '(src_h, src_w) := srcimg_shape in
  '(newh, neww, top, left_) <- resize_image self srcimg_shape (keep_ratio self) ;;
  '(det_bboxes, det_conf, det_classid) <- post_process self outs 1 false ;;
  if (newh =? 0)%Z || (neww =? 0)%Z then Raise ZeroDivisionError else
  let ratioh := (IZR src_h / IZR newh)%R in
  let ratiow := (IZR src_w / IZR neww)%R in
  mapM (fun i =>
          b <- py_index det_bboxes i ;;
          cid <- py_index det_classid i ;;
          conf <- py_index det_conf i ;;
          label <- py_index (classes self) cid ;;
          Ok (remap src_h src_w top left_ ratioh ratiow b, label, conf))
       (seq 0 (length det_bboxes)).

(** The expected value line 215 computes for one logit vector: the inner
    product of its softmax with the support [project]. *)
Definition expected_value (self : NanoDet) (logits : list R) : R :=
  inner (softmax_row logits) (map IZR (project self)).

(** ** A small detector for examples

    One class, an 8 by 8 input and an output row of 9 values: [reg_max] is 1
    and every level has the single anchor [(0, 0)]. *)
Definition tiny_with (pt it : R) : NanoDet :=
  {| classes := ["person"%string];
     num_classes := 1;
     prob_threshold := pt;
     iou_threshold := it;
     input_shape := (8, 8)%Z;
     reg_max := 1%Z;
     project := [0; 1]%Z;
     strides := [8; 16; 32; 64]%Z;
     mlvl_anchors := [[(0, 0)]; [(0, 0)]; [(0, 0)]; [(0, 0)]]%Z;
     keep_ratio := false |}.

Definition tiny : NanoDet := tiny_with 0.4%R 0.3%R.

(** An output tensor for [tiny]: one row per level, the class score followed
    by four pairs of logits. *)
Definition tiny_preds : list (list R) :=
  [[0.9; 0; 0; 0; 0; 0; 0; 0; 0];
   [0.1; 0; 0; 0; 0; 0; 0; 0; 0];
   [0.2; 0; 0; 0; 0; 0; 0; 0; 0];
   [0.3; 0; 0; 0; 0; 0; 0; 0; 0]]%R.

(** ** A detector with four anchors on its finest level

    One class and [reg_max] 1 as [tiny], on a 16 by 16 input: the level of
    stride 8 has a grid of 2 by 2 anchors, the other levels have one. *)
Definition small : NanoDet :=
  {| classes := ["person"%string];
     num_classes := 1;
     prob_threshold := 0.4%R;
     iou_threshold := 0.3%R;
     input_shape := (16, 16)%Z;
     reg_max := 1%Z;
     project := [0; 1]%Z;
     strides := [8; 16; 32; 64]%Z;
     mlvl_anchors :=
       [[(0, 0); (8, 0); (0, 8); (8, 8)]; [(0, 0)]; [(0, 0)]; [(0, 0)]]%Z;
     keep_ratio := false |}.

(** An output tensor for [small]: seven rows, all logits zero, and only the
    row of the anchor [(8, 8)] with a score above the threshold. *)
Definition small_preds : list (list R) :=
  [[0.1; 0; 0; 0; 0; 0; 0; 0; 0];
   [0.1; 0; 0; 0; 0; 0; 0; 0; 0];
   [0.1; 0; 0; 0; 0; 0; 0; 0; 0];
   [0.9; 0; 0; 0; 0; 0; 0; 0; 0];
   [0.1; 0; 0; 0; 0; 0; 0; 0; 0];
   [0.1; 0; 0; 0; 0; 0; 0; 0; 0];
   [0.1; 0; 0; 0; 0; 0; 0; 0; 0]]%R.

(** ** The remapping as the specification words it

    Subtract the padding, multiply by the ratio of the axis, clip to the
    image and round to the nearest integer pixel ([nearest x] is the floor of
    [x + 1/2]). *)
Definition nearest (x : R) : Z := Int_part (x + 1 / 2).

Definition remap_spec (src_h src_w top left_ : Z) (ratioh ratiow : R) (b : Box)
  : Z * Z * Z * Z :=
  let '(b0, b1, b2, b3) := b in
  (nearest (clip 0 (IZR src_w) ((b0 - IZR left_) * ratiow)),
   nearest (clip 0 (IZR src_h) ((b1 - IZR top) * ratioh)),
   nearest (clip 0 (IZR src_w) ((b2 - IZR left_) * ratiow)),
   nearest (clip 0 (IZR src_h) ((b3 - IZR top) * ratioh))).

(** [floor_of v z]: the integer [z] is the floor of [v]. *)
Definition floor_of (v : R) (z : Z) : Prop := (IZR z <= v < IZR z + 1)%R.

(** [truncation_of v z]: the integer [z] is at most [v] and at most one
    below it, as [int(v)] is for a non-negative [v]. *)
Definition truncation_of (v : R) (z : Z) : Prop := (IZR z <= v <= IZR z + 1)%R.

(** A rectangle of [detect] against the box it comes from, for an image of
    shape [(src_h, src_w)]: each corner is the box corner scaled by the ratio
    of its axis, with nothing subtracted, and truncated to an integer pixel
    inside the image. *)
Definition remapped (self : NanoDet) (src_h src_w : Z) (b : Box) (det : Detection)
  : Prop :=
  let '(b0, b1, b2, b3) := b in
  let '(xmin, ymin, xmax, ymax, _, _) := det in
  let ratioh := (IZR src_h / IZR (fst (input_shape self)))%R in
  let ratiow := (IZR src_w / IZR (snd (input_shape self)))%R in
  ((0 <= xmin <= src_w)%Z /\ truncation_of (b0 * ratiow) xmin) /\
  ((0 <= ymin <= src_h)%Z /\ truncation_of (b1 * ratioh) ymin) /\
  ((0 <= xmax <= src_w)%Z /\ truncation_of (b2 * ratiow) xmax) /\
  ((0 <= ymax <= src_h)%Z /\ truncation_of (b3 * ratioh) ymax).

(** The shape of an output tensor the detector can decode: a row for every
    anchor of every level, each with the class scores followed by the four
    distributions. *)
Definition preds_shape_ok (self : NanoDet) (preds : list (list R)) : Prop :=
  (length (concat (mlvl_anchors self)) <= length preds)%nat /\
  Forall (fun row =>
            length row = (num_classes self + 4 * Z.to_nat (reg_max self + 1))%nat)
         preds.

(** A box whose corners are in order. *)
Definition box_ordered (b : Box) : Prop :=
  let '(x1, y1, x2, y2) := b in (x1 <= x2)%R /\ (y1 <= y2)%R.

(** A box inside a tensor or an image of shape [(h, w)]. *)
Definition box_within (h w : Z) (b : Box) : Prop :=
  let '(x1, y1, x2, y2) := b in
  (0 <= x1 <= IZR w)%R /\ (0 <= y1 <= IZR h)%R /\
  (0 <= x2 <= IZR w)%R /\ (0 <= y2 <= IZR h)%R.

(** ** Ranking of candidates

    [ranks_before s i j]: candidate [i] has a higher score than [j], or the
    same score and a higher index. *)
Definition ranks_before (max_scores : list R) (i j : nat) : Prop :=
  (nth j max_scores 0 < nth i max_scores 0)%R \/
  (nth i max_scores 0%R = nth j max_scores 0%R /\ (j < i)%nat).

(** A tie resolved for the lower index: of two candidates with the same
    score, the one with the higher index is retained only if the other is. *)
Definition lower_index_wins (max_scores : list R) (inds : list nat) : Prop :=
  forall i j, (i < j < length max_scores)%nat ->
    nth i max_scores 0%R = nth j max_scores 0%R ->
    In j inds -> In i inds.

(** ** A level of 1001 tied candidates

    One class, every candidate with the score 1/2; candidate [k] sits at the
    anchor [(k, 0)]. *)
Definition tie_anchors : list (Z * Z) :=
  map (fun k => (Z.of_nat k, 0%Z)) (seq 0 1001).
Definition tie_cls_score : list (list R) := repeat [(1 / 2)%R] 1001.
Definition tie_bbox_pred : list (list R) := repeat [0%R; 0%R; 0%R; 0%R] 1001.
Definition tie_max_scores : list R := repeat (1 / 2)%R 1001.

(** ** Preprocessing

    An image is an array of shape [(height, width, channels)] of integer
    pixel values: the list of its rows, each the list of its pixels, each
    the list of its channel values. *)

(** [self.mean] and [self.std], as [__init__] sets them, one entry per
    channel. *)
Definition mean : list R := [103.53; 116.28; 123.675]%R.
Definition std : list R := [57.375; 57.12; 58.395]%R.

(** [(px - self.mean) / self.std] for one pixel, the channel axis under
    numpy's broadcasting. *)
Definition normalize_pixel (px : list Z) : result (list R) :=
  d <- broadcast2 Rminus (map IZR px) mean ;;
  broadcast2 Rdiv d std.

(** [NanoDet._normalize]. *)
Definition _normalize (img : list (list (list Z)))
  : result (list (list (list R))) :=
  mapM (mapM normalize_pixel) img.

(** [np.transpose(img, (2, 0, 1))] of an array with [channels] channels:
    plane [c] holds channel [c] of every pixel. *)
Definition transpose_2_0_1 (channels : nat) (img : list (list (list R)))
  : list (list (list R)) :=
  map (fun c => map (map (fun px => nth c px 0%R)) img) (seq 0 channels).

(** Lines 294 to 295 of [detect]: the tensor handed to the inference
    session for the resized image [img], of shape [(1, 3, height, width)]. *)
Definition blob_of (img : list (list (list Z)))
  : result (list (list (list (list R)))) :=
  img <- _normalize img ;;
  Ok [transpose_2_0_1 3 img].

(** The borders [resize_image] passes to [cv2.copyMakeBorder], as
    [(top, bottom, left, right)]; [None] when the image is only resized. *)
Definition resize_borders (self : NanoDet) (srcimg_shape : Z * Z) (keep_ratio : bool)
  : result (option (Z * Z * Z * Z)) :=
  let '(src_h, src_w) := srcimg_shape in
  let '(in_h, in_w) := input_shape self in
  if keep_ratio && negb (src_h =? src_w)%Z then
    if (src_w =? 0)%Z then Raise ZeroDivisionError else
    let hw_scale := (IZR src_h / IZR src_w)%R in
    if Rltb 1 hw_scale then
      let neww := py_int (IZR in_w / hw_scale) in
      let left_ := py_int (IZR (in_w - neww) * 0.5) in
      Ok (Some (0, 0, left_, in_w - neww - left_)%Z)
    else
      let newh := py_int (IZR in_h * hw_scale) in
      let top := py_int (IZR (in_h - newh) * 0.5) in
      Ok (Some (top, in_h - newh - top, 0, 0)%Z)
  else Ok None.

(** [cv2.resize(src, dsize)] on shapes: [dsize] is [(width, height)], and
    the result has [height] rows and [width] columns; [cv2.error] for an
    empty source or a [dsize] with a side that is not positive. *)
Definition cv2_resize (src_shape dsize : Z * Z) : result (Z * Z) :=
  let '(src_h, src_w) := src_shape in
  let '(width, height) := dsize in
  if (src_h <=? 0)%Z || (src_w <=? 0)%Z || (width <=? 0)%Z || (height <=? 0)%Z
  then Raise CvError
  else Ok (height, width).

(** [cv2.copyMakeBorder(img, top, bottom, left, right, ...)] on shapes:
    [cv2.error] for a negative border. *)
Definition cv2_copyMakeBorder (shape : Z * Z) (top bottom left_ right_ : Z)
  : result (Z * Z) :=
  let '(h, w) := shape in
  if (top <? 0)%Z || (bottom <? 0)%Z || (left_ <? 0)%Z || (right_ <? 0)%Z
  then Raise CvError
  else Ok ((h + top + bottom)%Z, (w + left_ + right_)%Z).

(** The shape [(rows, columns)] of the image [resize_image] returns, with
    the errors of the cv2 calls that build it.  Lines 155 and 173 pass
    [(neww, newh)] to [cv2.resize]; line 188 passes [self.input_shape], which
    is [(height, width)]. *)
Definition resized_shape (self : NanoDet) (srcimg_shape : Z * Z) (keep_ratio : bool)
  : result (Z * Z) :=
  let '(src_h, src_w) := srcimg_shape in
  let '(in_h, in_w) := input_shape self in
  if keep_ratio && negb (src_h =? src_w)%Z then
    if (src_w =? 0)%Z then Raise ZeroDivisionError else
    let hw_scale := (IZR src_h / IZR src_w)%R in
    if Rltb 1 hw_scale then
      let neww := py_int (IZR in_w / hw_scale) in
      img <- cv2_resize srcimg_shape (neww, in_h) ;;
      let left_ := py_int (IZR (in_w - neww) * 0.5) in
      cv2_copyMakeBorder img 0 0 left_ (in_w - neww - left_)
    else
      let newh := py_int (IZR in_h * hw_scale) in
      img <- cv2_resize srcimg_shape (in_w, newh) ;;
      let top := py_int (IZR (in_h - newh) * 0.5) in
      cv2_copyMakeBorder img top (in_h - newh - top) 0 0
  else cv2_resize srcimg_shape (input_shape self).

(** The number of candidates a level with [n] anchors hands to the
    suppression. *)
Definition level_candidates (n : nat) : nat := Nat.min n nms_pre.

(** ** Overlap of two boxes given by their corners

    The Intersection-over-Union of two boxes [(x1, y1, x2, y2)]: the area of
    their intersection over the area of their union. *)
Definition iou_corners (a b : Box) : R :=
  let '(ax1, ay1, ax2, ay2) := a in
  let '(bx1, by1, bx2, by2) := b in
  let iw := Rmax 0 (Rmin ax2 bx2 - Rmax ax1 bx1) in
  let ih := Rmax 0 (Rmin ay2 by2 - Rmax ay1 by1) in
  let inter := (iw * ih)%R in
  (inter / ((ax2 - ax1) * (ay2 - ay1) + (bx2 - bx1) * (by2 - by1) - inter))%R.

(** ** What a detection is

    [cid] is the position and [conf] the value of the first maximum of
    [row]. *)
Definition first_maximum (row : list R) (cid : nat) (conf : R) : Prop :=
  nth_error row cid = Some conf /\
  Forall (fun s => (s <= conf)%R) row /\
  forall j s, (j < cid)%nat -> nth_error row j = Some s -> (s < conf)%R.

(** A rectangle inside an image of shape [(h, w)], its corners in order. *)
Definition rect_ok (h w : Z) (det : Detection) : Prop :=
  let '(xmin, ymin, xmax, ymax, _, _) := det in
  (0 <= xmin <= xmax /\ xmax <= w /\ 0 <= ymin <= ymax /\ ymax <= h)%Z.

(** ** One row of the tensor at one anchor

    What lines 207 to 216 and 271 to 280 compute from one row of the tensor
    at its anchor: the class scores of the row, and the box reconstructed
    from the four groups of distance logits that follow them. *)
Definition row_scores (self : NanoDet) (row : list R) : list R :=
  firstn (num_classes self) row.

Definition row_distances (self : NanoDet) (stride : Z) (row : list R) : list R :=
  map (fun v => (expected_value self v * IZR stride)%R)
      (chunk (Z.to_nat (reg_max self + 1)) row).

Definition anchor_box (mh mw : Z) (pd : (Z * Z) * list R) : Box :=
  let '(p, d) := pd in
  (clip 0 (IZR mw) (IZR (fst p) - nth 0 d 0), clip 0 (IZR mh) (IZR (snd p) - nth 1 d 0),
   clip 0 (IZR mw) (IZR (fst p) + nth 2 d 0), clip 0 (IZR mh) (IZR (snd p) + nth 3 d 0))%R.

Definition row_box (self : NanoDet) (stride : Z) (anchor : Z * Z) (row : list R)
  : Box :=
  anchor_box (fst (input_shape self)) (snd (input_shape self))
             (anchor, row_distances self stride (skipn (num_classes self) row)).

(** The index of the first row of the tensor that level [l] reads. *)
Definition level_offset (self : NanoDet) (l : nat) : nat :=
  length (concat (firstn l (mlvl_anchors self))).

(** * Properties *)

Open Scope R_scope.

(** The constructor succeeds only when the three shape entries it reads
    exist; the record it returns is then known field by field. *)
Ltac init_fields :=
  unfold __init__, bind;
  match goal with
  | |- context [py_index ?ishape 2] =>
      destruct (py_index ishape 2); [|discriminate];
      destruct (py_index ishape 3); [|discriminate]
  end;
  match goal with
  | |- context [py_last ?oshape] => destruct (py_last oshape); [|discriminate]
  end;
  let H := fresh "H" in intros H; injection H as <-.

(** ** Lists of rows *)

Lemma concat_uniform_length {A : Type} (w : nat) (rows : list (list A)) :
  Forall (fun row => length row = w) rows ->
  length (concat rows) = (length rows * w)%nat.
Proof.
  induction 1 as [|row rows Hrow _ IH]; simpl; [reflexivity|].
  rewrite length_app, IH, Hrow. reflexivity.
Qed.

Lemma nth_error_concat_uniform {A : Type} (w : nat) (rows : list (list A)) :
  Forall (fun row => length row = w) rows ->
  forall r c, (c < w)%nat ->
    nth_error (concat rows) (r * w + c) =
    match nth_error rows r with
    | Some row => nth_error row c
    | None => None
    end.
Proof.
  induction 1 as [|row rows Hrow Hrows IH]; intros r c Hc.
  - simpl. destruct (r * w + c)%nat, r; reflexivity.
  - destruct r as [|r]; simpl.
    + apply nth_error_app1. lia.
    + rewrite nth_error_app2 by lia.
      replace (w + r * w + c - length row)%nat with (r * w + c)%nat by lia.
      apply IH, Hc.
Qed.

Lemma concat_map_concat {A : Type} (l : list (list (list A))) :
  concat (map (@concat A) l) = concat (concat l).
Proof.
  induction l as [|q l IH]; simpl; [reflexivity|].
  rewrite concat_app, IH. reflexivity.
Qed.

Lemma firstn_In {A : Type} (n : nat) (l : list A) (x : A) :
  In x (firstn n l) -> In x l.
Proof.
  intros H. rewrite <- (firstn_skipn n l). apply in_or_app. left. exact H.
Qed.

Lemma nth_error_combine {A B : Type} (u : list A) (v : list B) (n : nat) :
  nth_error (combine u v) n =
  match nth_error u n, nth_error v n with
  | Some a, Some b => Some (a, b)
  | _, _ => None
  end.
Proof.
  revert v n; induction u as [|a u IH]; intros [|b v] [|n]; simpl; try reflexivity.
  - destruct (nth_error u n); reflexivity.
  - apply IH.
Qed.

(** ** Anchor grid *)

Lemma arange_length (lo hi : Z) : length (np.arange lo hi) = Z.to_nat (hi - lo).
Proof. unfold np.arange. rewrite length_map, length_seq. reflexivity. Qed.

Lemma arange_nth_error (lo hi : Z) (k : nat) :
  (k < Z.to_nat (hi - lo))%nat ->
  nth_error (np.arange lo hi) k = Some (lo + Z.of_nat k)%Z.
Proof.
  intros Hk. unfold np.arange.
  rewrite nth_error_map, nth_error_seq.
  destruct (Nat.ltb_spec k (Z.to_nat (hi - lo))); [reflexivity | lia].
Qed.

Lemma ceil_div_nonneg (a b : Z) : (0 <= a)%Z -> (0 < b)%Z -> (0 <= ceil_div a b)%Z.
Proof.
  intros Ha Hb. unfold ceil_div.
  assert ((- a) / b <= 0)%Z; [|lia].
  apply Z.div_le_upper_bound; lia.
Qed.

Lemma make_grid_length (feat_h feat_w stride : Z) :
  length (_make_grid (feat_h, feat_w) stride) =
  (Z.to_nat feat_h * Z.to_nat feat_w)%nat.
Proof.
  unfold _make_grid, np.meshgrid, np.flatten, np.stack2.
  rewrite length_combine.
  rewrite (concat_uniform_length (Z.to_nat feat_w)).
  - rewrite (concat_uniform_length (Z.to_nat feat_w)).
    + rewrite !length_map, !arange_length, Z.sub_0_r. lia.
    + apply Forall_forall. intros row Hin. apply in_map_iff in Hin.
      destruct Hin as [b [<- _]].
      rewrite !length_map, arange_length, Z.sub_0_r. reflexivity.
  - apply Forall_forall. intros row Hin. apply in_map_iff in Hin.
    destruct Hin as [b [<- _]].
    rewrite length_map, arange_length, Z.sub_0_r. reflexivity.
Qed.

Lemma make_grid_nth (feat_h feat_w stride : Z) (r c : nat) :
  (r < Z.to_nat feat_h)%nat -> (c < Z.to_nat feat_w)%nat ->
  nth_error (_make_grid (feat_h, feat_w) stride) (r * Z.to_nat feat_w + c) =
  Some ((Z.of_nat c * stride)%Z, (Z.of_nat r * stride)%Z).
Proof.
  intros Hr Hc.
  unfold _make_grid, np.meshgrid, np.flatten, np.stack2.
  rewrite nth_error_combine.
  rewrite (nth_error_concat_uniform (Z.to_nat feat_w)); [| |exact Hc].
  2:{ apply Forall_forall. intros row Hin. apply in_map_iff in Hin.
      destruct Hin as [b [<- _]].
      rewrite length_map, arange_length, Z.sub_0_r. reflexivity. }
  rewrite (nth_error_concat_uniform (Z.to_nat feat_w)); [| |exact Hc].
  2:{ apply Forall_forall. intros row Hin. apply in_map_iff in Hin.
      destruct Hin as [b [<- _]].
      rewrite !length_map, arange_length, Z.sub_0_r. reflexivity. }
  rewrite !nth_error_map.
  rewrite (arange_nth_error 0 feat_h) by (rewrite Z.sub_0_r; exact Hr).
  simpl.
  rewrite !nth_error_map.
  rewrite (arange_nth_error 0 feat_w) by (rewrite Z.sub_0_r; exact Hc).
  reflexivity.
Qed.

Lemma init_anchors (labels : list string) (ishape oshape : list Z) (pt it : R)
    (det : NanoDet) :
  __init__ labels ishape oshape pt it = Ok det ->
  strides det = [8; 16; 32; 64]%Z /\
  mlvl_anchors det =
  map (fun s => _make_grid (ceil_div (fst (input_shape det)) s,
                            ceil_div (snd (input_shape det)) s) s)
      (strides det).
Proof.
  init_fields. simpl. split; reflexivity.
Qed.

Lemma ceil_div_spec (a b : Z) :
  (0 < b)%Z -> ((ceil_div a b - 1) * b < a <= ceil_div a b * b)%Z.
Proof.
  intros Hb. unfold ceil_div.
  pose proof (Z.div_mod (- a) b ltac:(lia)) as Hdm.
  pose proof (Z.mod_pos_bound (- a) b Hb) as Hm.
  nia.
Qed.

(** C1. For a stride [s], the feature-map size [(h, w)] the constructor
    passes to [_make_grid] is the pair of ceilings of [input_h / s] and
    [input_w / s]: [h] is the integer with [(h - 1) * s < input_h <= h * s],
    and [w] likewise.  The grid has exactly [h * w] points, and the point at
    the flattened index [r * w + c] is [(c * s, r * s)] for every row [r] in
    [0, h) and column [c] in [0, w).  These are the grids the constructor
    stores, one per stride. *)
Theorem anchor_grid_layout (input_h input_w s : Z) :
  (0 <= input_h)%Z -> (0 <= input_w)%Z -> (0 < s)%Z ->
  let h := ceil_div input_h s in
  let w := ceil_div input_w s in
  let grid := _make_grid (h, w) s in
  (((h - 1) * s < input_h <= h * s)%Z /\
   ((w - 1) * s < input_w <= w * s)%Z) /\
  (Z.of_nat (length grid) = (h * w)%Z /\
   forall r c, (0 <= r < h)%Z -> (0 <= c < w)%Z ->
     nth_error grid (Z.to_nat (r * w + c)) = Some ((c * s)%Z, (r * s)%Z)) /\
  forall labels ishape oshape pt it det,
    __init__ labels ishape oshape pt it = Ok det ->
    input_shape det = (input_h, input_w) ->
    forall i, nth_error (strides det) i = Some s ->
      nth_error (mlvl_anchors det) i = Some grid.
Proof.
  intros Hh Hw Hs h w grid.
  pose proof (ceil_div_nonneg _ _ Hh Hs) as Hh0.
  pose proof (ceil_div_nonneg _ _ Hw Hs) as Hw0.
  fold h in Hh0. fold w in Hw0.
  split; [split; apply ceil_div_spec, Hs|].
  split; [split|].
  - unfold grid. rewrite make_grid_length. lia.
  - intros r c Hr Hc. unfold grid.
    replace (Z.to_nat (r * w + c))
      with (Z.to_nat r * Z.to_nat w + Z.to_nat c)%nat by nia.
    rewrite make_grid_nth by lia.
    rewrite !Z2Nat.id by lia. reflexivity.
  - intros labels ishape oshape pt it det Hinit Hshape i Hi.
    destruct (init_anchors _ _ _ _ _ _ Hinit) as [_ Hanch].
    rewrite Hanch, nth_error_map, Hi, Hshape. reflexivity.
Qed.

(** A 320 by 320 input at stride 8: 40 rows of 40 anchors, 1600 in all, the
    last one at [(312, 312)]; they are the first grid the constructor
    stores. *)
Lemma anchor_grid_layout_witness :
  ((0 <= 320)%Z /\ (0 <= 320)%Z /\ (0 < 8)%Z) /\
  (((40 - 1) * 8 < 320 <= 40 * 8)%Z /\ ((40 - 1) * 8 < 320 <= 40 * 8)%Z) /\
  (Z.of_nat (length (_make_grid (40, 40)%Z 8%Z)) = 1600%Z /\
   forall r c, (0 <= r < 40)%Z -> (0 <= c < 40)%Z ->
     nth_error (_make_grid (40, 40)%Z 8%Z) (Z.to_nat (r * 40 + c)) =
     Some ((c * 8)%Z, (r * 8)%Z)) /\
  forall labels ishape oshape pt it det,
    __init__ labels ishape oshape pt it = Ok det ->
    input_shape det = (320, 320)%Z ->
    forall i, nth_error (strides det) i = Some 8%Z ->
      nth_error (mlvl_anchors det) i = Some (_make_grid (40, 40)%Z 8%Z).
Proof.
  split; [lia|].
  apply (anchor_grid_layout 320 320 8); lia.
Defined.

(** ** The error monad *)

Lemma mapM_ok {A B : Type} (f : A -> result B) (g : A -> B) (l : list A) :
  Forall (fun a => f a = Ok (g a)) l -> mapM f l = Ok (map g l).
Proof.
  induction 1 as [|a l Ha _ IH]; simpl; [reflexivity|].
  rewrite Ha, IH. reflexivity.
Qed.

Lemma mapM_length {A B : Type} (f : A -> result B) (l : list A) (bs : list B) :
  mapM f l = Ok bs -> length bs = length l.
Proof.
  revert bs; induction l as [|a l IH]; simpl; intros bs H.
  - injection H as <-. reflexivity.
  - destruct (f a) as [b|]; [|discriminate]. simpl in H.
    destruct (mapM f l) as [bs'|]; [|discriminate]. simpl in H.
    injection H as <-. simpl. rewrite (IH bs' eq_refl). reflexivity.
Qed.

Lemma mapM_Forall2 {A B : Type} (f : A -> result B) (l : list A) (bs : list B) :
  mapM f l = Ok bs -> Forall2 (fun a b => f a = Ok b) l bs.
Proof.
  revert bs; induction l as [|a l IH]; simpl; intros bs H.
  - injection H as <-. constructor.
  - destruct (f a) as [b|] eqn:Hb; [|discriminate]. simpl in H.
    destruct (mapM f l) as [bs'|]; [|discriminate]. simpl in H.
    injection H as <-. constructor; [exact Hb | apply IH; reflexivity].
Qed.

(** ** Reshaping *)

Lemma firstn_app_exact {A : Type} (u v : list A) : firstn (length u) (u ++ v) = u.
Proof.
  rewrite firstn_app, Nat.sub_diag, firstn_O, app_nil_r. apply firstn_all.
Qed.

Lemma skipn_app_exact {A : Type} (u v : list A) : skipn (length u) (u ++ v) = v.
Proof.
  rewrite skipn_app, Nat.sub_diag, skipn_O, skipn_all. reflexivity.
Qed.

Lemma chunk_aux_concat {A : Type} (k : nat) (vs : list (list A)) :
  (0 < k)%nat -> Forall (fun v => length v = k) vs ->
  forall fuel, (length vs <= fuel)%nat -> chunk_aux fuel k (concat vs) = vs.
Proof.
  intros Hk. induction 1 as [|v vs Hv _ IH]; intros fuel Hfuel.
  - destruct fuel; reflexivity.
  - destruct fuel as [|fuel]; [simpl in Hfuel; lia|].
    simpl. destruct (v ++ concat vs) as [|x rest] eqn:E.
    + apply (f_equal (@length A)) in E. rewrite length_app in E. simpl in E. lia.
    + rewrite <- E. subst k.
      rewrite firstn_app_exact, skipn_app_exact, IH; [reflexivity|].
      simpl in Hfuel. lia.
Qed.

Lemma reshape_concat {A : Type} (k : nat) (vs : list (list A)) :
  (0 < k)%nat -> Forall (fun v => length v = k) vs ->
  reshape (Z.of_nat k) (concat vs) = Ok vs.
Proof.
  intros Hk Hvs. unfold reshape.
  rewrite Nat2Z.id, (concat_uniform_length k) by exact Hvs.
  rewrite Nat.Div0.mod_mul.
  destruct (Z.leb_spec (Z.of_nat k) 0); [lia|]. simpl.
  unfold chunk. rewrite chunk_aux_concat; auto.
  rewrite (concat_uniform_length k) by exact Hvs. nia.
Qed.

(** ** Distribution decoding *)

Lemma sum_map_div (l : list R) (s : R) : sum (map (fun e => e / s) l) = sum l / s.
Proof.
  unfold sum. induction l as [|x l IH]; simpl; [lra | rewrite IH; lra].
Qed.

Lemma sum_exp_pos (x : list R) : x <> [] -> 0 < sum (map exp x).
Proof.
  intros Hx. destruct x as [|a x]; [congruence|]. clear Hx. simpl.
  assert (0 <= sum (map exp x)).
  { induction x as [|b x IH]; simpl; [lra|]. pose proof (exp_pos b). lra. }
  pose proof (exp_pos a). lra.
Qed.

Lemma softmax_row_sum (x : list R) : x <> [] -> sum (softmax_row x) = 1.
Proof.
  intros Hx. unfold softmax_row. rewrite sum_map_div.
  pose proof (sum_exp_pos x Hx). field. lra.
Qed.

Lemma softmax_row_length (x : list R) : length (softmax_row x) = length x.
Proof. unfold softmax_row. rewrite !length_map. reflexivity. Qed.

Lemma softmax_row_nonneg (x : list R) : Forall (fun p => 0 <= p) (softmax_row x).
Proof.
  destruct x as [|a x]; [constructor|].
  pose proof (sum_exp_pos (a :: x)) as Hpos.
  assert (0 < sum (map exp (a :: x))) as Hs by (apply Hpos; discriminate).
  unfold softmax_row. apply Forall_forall. intros p Hin.
  apply in_map_iff in Hin. destruct Hin as [e [<- Hin]].
  apply in_map_iff in Hin. destruct Hin as [v [<- _]].
  pose proof (exp_pos v). apply Rlt_le, Rdiv_lt_0_compat; assumption.
Qed.


Lemma sum_nonneg (p : list R) : Forall (fun w => 0 <= w) p -> 0 <= sum p.
Proof. induction 1 as [|w p Hw _ IH]; simpl; lra. Qed.

(** A weighted sum with non-negative weights lies between the bounds of the
    support, scaled by the total weight. *)
Lemma inner_bounds (m : R) (p v : list R) :
  0 <= m ->
  Forall (fun w => 0 <= w) p -> Forall (fun a => 0 <= a <= m) v ->
  0 <= inner p v <= m * sum p.
Proof.
  intros Hm Hp. revert v. induction Hp as [|w p Hw Hp IH]; intros v Hv.
  - unfold inner. simpl. lra.
  - pose proof (sum_nonneg p Hp) as Hsum.
    destruct Hv as [|a v Ha Hv].
    + unfold inner. simpl. nra.
    + specialize (IH v Hv). unfold inner in *. simpl. nra.
Qed.

Lemma init_project (labels : list string) (ishape oshape : list Z) (pt it : R)
    (det : NanoDet) :
  __init__ labels ishape oshape pt it = Ok det ->
  project det = np.arange 0 (reg_max det + 1).
Proof.
  init_fields. reflexivity.
Qed.

Lemma arange_support (n : Z) :
  Forall (fun a => 0 <= a <= IZR (n - 1)) (map IZR (np.arange 0 n)).
Proof.
  apply Forall_forall. intros a Hin.
  apply in_map_iff in Hin. destruct Hin as [z [<- Hin]].
  unfold np.arange in Hin. apply in_map_iff in Hin.
  destruct Hin as [k [<- Hk]]. apply in_seq in Hk.
  split; apply IZR_le; lia.
Qed.

Lemma expected_value_bounds (self : NanoDet) (v : list R) :
  project self = np.arange 0 (reg_max self + 1) ->
  (0 <= reg_max self)%Z -> v <> [] ->
  0 <= expected_value self v <= IZR (reg_max self).
Proof.
  intros Hproj Hreg Hv. unfold expected_value.
  pose proof (inner_bounds (IZR (reg_max self)) (softmax_row v)
                (map IZR (project self))) as H.
  rewrite softmax_row_sum in H by exact Hv.
  rewrite Rmult_1_r in H. apply H.
  - apply IZR_le. exact Hreg.
  - apply softmax_row_nonneg.
  - rewrite Hproj.
    pose proof (arange_support (reg_max self + 1)) as Hsup.
    replace (reg_max self + 1 - 1)%Z with (reg_max self) in Hsup by lia.
    exact Hsup.
Qed.

Lemma decode_distances_quads (self : NanoDet) (stride : Z)
    (quads : list (list (list R))) :
  project self = np.arange 0 (reg_max self + 1) ->
  (0 <= reg_max self)%Z ->
  Forall (fun q => length q = 4%nat /\
                   Forall (fun v => length v = Z.to_nat (reg_max self + 1)) q)
         quads ->
  decode_distances self stride (map (@concat R) quads) =
  Ok (map (map (fun v => expected_value self v * IZR stride)) quads).
Proof.
  intros Hproj Hreg Hq. unfold decode_distances, np.flatten.
  set (k := Z.to_nat (reg_max self + 1)) in *.
  assert (Hk : (0 < k)%nat) by (unfold k; lia).
  assert (Hvs : Forall (fun v => length v = k) (concat quads)).
  { apply Forall_concat. eapply Forall_impl; [|exact Hq]. intros q [_ H]; exact H. }
  rewrite concat_map_concat.
  replace (reg_max self + 1)%Z with (Z.of_nat k) by (unfold k; lia).
  rewrite reshape_concat by assumption. simpl. unfold dot.
  rewrite (mapM_ok _ (fun row => inner row (map IZR (project self)))).
  2:{ unfold softmax. apply Forall_forall. intros row Hin.
      apply in_map_iff in Hin. destruct Hin as [v [<- Hin]].
      rewrite Forall_forall in Hvs. rewrite softmax_row_length, (Hvs v Hin).
      rewrite length_map, Hproj, arange_length, Z.sub_0_r. fold k.
      rewrite Nat.eqb_refl. reflexivity. }
  simpl. unfold softmax. rewrite map_map.
  change (map (fun x => inner (softmax_row x) (map IZR (project self))))
    with (map (expected_value self)).
  rewrite concat_map.
  change 4%Z with (Z.of_nat 4).
  rewrite reshape_concat.
  - simpl. rewrite map_map. f_equal. apply map_ext. intros q.
    rewrite map_map. reflexivity.
  - lia.
  - apply Forall_forall. intros row Hin. apply in_map_iff in Hin.
    destruct Hin as [q [<- Hin]]. rewrite length_map.
    rewrite Forall_forall in Hq. apply (Hq q Hin).
Qed.

Lemma init_tiny_with (pt it : R) :
  __init__ ["person"%string] [1; 3; 8; 8]%Z [1; 4; 9]%Z pt it = Ok (tiny_with pt it).
Proof. reflexivity. Qed.

Lemma init_tiny :
  __init__ ["person"%string] [1; 3; 8; 8]%Z [1; 4; 9]%Z 0.4 0.3 = Ok tiny.
Proof. reflexivity. Qed.

(** ** Ordered pairs of a list *)

Section OrdPairs.
Context {A : Type}.
Variable Rel : A -> A -> Prop.

Lemma FOP_app (l1 l2 : list A) :
  ForallOrdPairs Rel l1 -> ForallOrdPairs Rel l2 ->
  (forall x y, In x l1 -> In y l2 -> Rel x y) ->
  ForallOrdPairs Rel (l1 ++ l2).
Proof.
  induction 1 as [|a l1 Ha _ IH]; intros H2 Hx; simpl; [exact H2|].
  constructor.
  - apply Forall_app. split; [exact Ha|].
    apply Forall_forall. intros y Hy. apply Hx; [left; reflexivity | exact Hy].
  - apply IH; [exact H2|]. intros x y Hin Hy. apply Hx; [right; exact Hin | exact Hy].
Qed.

Lemma FOP_app_inv (l1 l2 : list A) :
  ForallOrdPairs Rel (l1 ++ l2) ->
  ForallOrdPairs Rel l1 /\ ForallOrdPairs Rel l2 /\
  (forall x y, In x l1 -> In y l2 -> Rel x y).
Proof.
  induction l1 as [|a l1 IH]; simpl; intros H.
  - repeat split; [constructor | exact H | intros x y []].
  - inversion H as [|a' l' Ha Hl]; subst.
    destruct (IH Hl) as (H1 & H2 & H12).
    apply Forall_app in Ha. destruct Ha as [Ha1 Ha2].
    repeat split.
    + constructor; assumption.
    + exact H2.
    + intros x y [<-|Hin] Hy.
      * rewrite Forall_forall in Ha2. apply Ha2, Hy.
      * apply H12; assumption.
Qed.

Lemma FOP_firstn (n : nat) (l : list A) :
  ForallOrdPairs Rel l -> ForallOrdPairs Rel (firstn n l).
Proof.
  intros H. rewrite <- (firstn_skipn n l) in H.
  apply FOP_app_inv in H. apply H.
Qed.
End OrdPairs.

Lemma FOP_rev {A : Type} (Rel : A -> A -> Prop) (l : list A) :
  ForallOrdPairs Rel l -> ForallOrdPairs (fun x y => Rel y x) (rev l).
Proof.
  induction 1 as [|a l Ha _ IH]; simpl; [constructor|].
  apply FOP_app; [exact IH | repeat constructor |].
  intros x y Hx [<-|[]]. apply in_rev in Hx.
  rewrite Forall_forall in Ha. apply Ha, Hx.
Qed.

Lemma FOP_map {A B : Type} (f : A -> B) (Rel : B -> B -> Prop) (l : list A) :
  ForallOrdPairs (fun x y => Rel (f x) (f y)) l -> ForallOrdPairs Rel (map f l).
Proof.
  induction 1 as [|a l Ha _ IH]; simpl; constructor; [|exact IH].
  apply Forall_map. exact Ha.
Qed.

Lemma FOP_impl {A : Type} (P Q : A -> A -> Prop) (l : list A) :
  (forall x y, In x l -> In y l -> P x y -> Q x y) ->
  ForallOrdPairs P l -> ForallOrdPairs Q l.
Proof.
  intros HPQ H. induction H as [|a l Ha Hl IH]; constructor.
  - apply Forall_forall. intros y Hy. rewrite Forall_forall in Ha.
    apply HPQ; [left; reflexivity | right; exact Hy | apply Ha, Hy].
  - apply IH. intros x y Hx Hy. apply HPQ; right; assumption.
Qed.

(** ** The stable insertion sort *)

Section InsertionSortFacts.
Context {A : Type}.
Variable before : A -> A -> bool.

Lemma insert_In (x y : A) (l : list A) :
  In y (insert before x l) <-> y = x \/ In y l.
Proof.
  induction l as [|z l IH]; simpl.
  - intuition congruence.
  - destruct (before x z); simpl; [intuition congruence|].
    rewrite IH. intuition congruence.
Qed.

Lemma insert_perm (x : A) (l : list A) : Permutation (x :: l) (insert before x l).
Proof.
  induction l as [|z l IH]; simpl; [reflexivity|].
  destruct (before x z); [reflexivity|].
  rewrite perm_swap. constructor. exact IH.
Qed.

Lemma isort_perm (l : list A) : Permutation l (isort before l).
Proof.
  induction l as [|x l IH]; simpl; [constructor|].
  rewrite <- insert_perm. constructor. exact IH.
Qed.

Lemma isort_In (y : A) (l : list A) : In y (isort before l) <-> In y l.
Proof.
  split; apply Permutation_in; [symmetry|]; apply isort_perm.
Qed.

(** A list already in order is left as it is. *)
Lemma isort_sorted_id (l : list A) :
  ForallOrdPairs (fun x y => before x y = true) l -> isort before l = l.
Proof.
  induction 1 as [|x l Hx _ IH]; simpl; [reflexivity|].
  rewrite IH. destruct Hx as [|y l Hy _]; simpl; [reflexivity|].
  rewrite Hy. reflexivity.
Qed.

(** Stability.  [earlier] relates an element to those behind it in the
    input; [ord] is the order the sort establishes. *)
Variable earlier ord : A -> A -> Prop.
Hypothesis ord_trans : forall x y z, ord x y -> ord y z -> ord x z.
Hypothesis before_true : forall x y, before x y = true -> earlier x y -> ord x y.
Hypothesis before_false : forall x y, before x y = false -> ord y x.

Lemma insert_ordered (x : A) (l : list A) :
  ForallOrdPairs ord l -> Forall (earlier x) l ->
  ForallOrdPairs ord (insert before x l).
Proof.
  induction 1 as [|y l Hy Hl IH]; intros Hx; simpl.
  - repeat constructor.
  - inversion Hx as [|y' l' Hxy Hxl]; subst.
    destruct (before x y) eqn:E.
    + constructor; [|constructor; assumption].
      assert (ord x y) as Hord by (apply before_true; assumption).
      constructor; [exact Hord|].
      eapply Forall_impl; [|exact Hy]. intros z Hz. eapply ord_trans; eassumption.
    + constructor; [|apply IH; exact Hxl].
      apply Forall_forall. intros z Hz. apply insert_In in Hz.
      destruct Hz as [->|Hz]; [apply before_false; exact E|].
      rewrite Forall_forall in Hy. apply Hy, Hz.
Qed.

Lemma isort_ordered (l : list A) :
  ForallOrdPairs earlier l -> ForallOrdPairs ord (isort before l).
Proof.
  induction 1 as [|x l Hx _ IH]; simpl; [constructor|].
  apply insert_ordered; [exact IH|].
  apply Forall_forall. intros y Hy. apply (proj1 (isort_In y l)) in Hy.
  rewrite Forall_forall in Hx. apply Hx, Hy.
Qed.
End InsertionSortFacts.

(** ** Comparisons *)

Lemma Rleb_true (x y : R) : Rleb x y = true <-> x <= y.
Proof. unfold Rleb. destruct (Rle_dec x y); intuition congruence. Qed.

Lemma Rleb_false (x y : R) : Rleb x y = false <-> y < x.
Proof. unfold Rleb. destruct (Rle_dec x y); split; intros; try congruence; lra. Qed.

Lemma Rltb_true (x y : R) : Rltb x y = true <-> x < y.
Proof. unfold Rltb. destruct (Rlt_dec x y); intuition congruence. Qed.

Lemma Rltb_false (x y : R) : Rltb x y = false <-> y <= x.
Proof. unfold Rltb. destruct (Rlt_dec x y); split; intros; try congruence; lra. Qed.

(** ** argsort *)

Lemma keyed_In (a : list R) (start i : nat) (s : R) :
  In (i, s) (combine (seq start (length a)) a) ->
  (start <= i < start + length a)%nat /\ nth (i - start) a 0 = s.
Proof.
  revert start. induction a as [|x a IH]; simpl; intros start H; [contradiction|].
  destruct H as [H|H].
  - injection H as <- <-. rewrite Nat.sub_diag. split; [lia | reflexivity].
  - destruct (IH _ H) as [Hi Hs]. split; [lia|].
    replace (i - start)%nat with (S (i - S start)) by lia. exact Hs.
Qed.

Lemma keyed_earlier (a : list R) (start : nat) :
  ForallOrdPairs (fun x y : nat * R => (fst x < fst y)%nat)
                 (combine (seq start (length a)) a).
Proof.
  revert start. induction a as [|x a IH]; simpl; intros start; constructor.
  - apply Forall_forall. intros [i s] Hin. apply keyed_In in Hin. simpl. lia.
  - apply IH.
Qed.

Lemma keyed_fst (a : list R) (start : nat) :
  map fst (combine (seq start (length a)) a) = seq start (length a).
Proof.
  revert start. induction a as [|x a IH]; simpl; intros start; [reflexivity|].
  rewrite IH. reflexivity.
Qed.

Lemma argsort_perm (a : list R) : Permutation (seq 0 (length a)) (argsort a).
Proof.
  unfold argsort. rewrite <- (keyed_fst a 0) at 1.
  apply Permutation_map, isort_perm.
Qed.

Lemma argsort_In (a : list R) (i : nat) : In i (argsort a) <-> (i < length a)%nat.
Proof.
  split; intros H.
  - apply (Permutation_in _ (Permutation_sym (argsort_perm a))), in_seq in H. lia.
  - apply (Permutation_in _ (argsort_perm a)), in_seq. lia.
Qed.

(** Ascending by value, and by ascending index among equal values. *)
Lemma argsort_ordered (a : list R) :
  ForallOrdPairs (fun i j => ranks_before a j i) (argsort a).
Proof.
  unfold argsort. apply FOP_map.
  set (before := fun x y : nat * R => Rleb (snd x) (snd y)).
  set (ord := fun x y : nat * R =>
                snd x < snd y \/ (snd y = snd x /\ (fst x < fst y)%nat)).
  assert (Hord : ForallOrdPairs ord (isort before (combine (seq 0 (length a)) a))).
  { apply (isort_ordered before (fun x y => (fst x < fst y)%nat) ord).
    - unfold ord. intros x y z. lra || (intros [H1|[H1 H1']] [H2|[H2 H2']];
        [left; lra | left; lra | left; lra | right; split; [congruence | lia]]).
    - unfold ord, before. intros x y Hb He. apply Rleb_true in Hb.
      destruct (Rle_lt_or_eq_dec _ _ Hb) as [Hlt|Heq]; [left; exact Hlt|].
      right. split; [symmetry; exact Heq | exact He].
    - unfold ord, before. intros x y Hb. apply Rleb_false in Hb. left. exact Hb.
    - apply keyed_earlier. }
  eapply FOP_impl; [|exact Hord].
  intros [i s] [j t] Hi Hj.
  apply isort_In, keyed_In in Hi. apply isort_In, keyed_In in Hj.
  rewrite Nat.sub_0_r in Hi, Hj. destruct Hi as [_ <-], Hj as [_ <-].
  unfold ord, ranks_before. simpl. tauto.
Qed.

Lemma argsort_length (a : list R) : length (argsort a) = length a.
Proof.
  rewrite <- (Permutation_length (argsort_perm a)). apply length_seq.
Qed.

Lemma argsort_constant (c : R) (n : nat) : argsort (repeat c n) = seq 0 n.
Proof.
  unfold argsort. rewrite isort_sorted_id.
  - rewrite keyed_fst, repeat_length. reflexivity.
  - eapply FOP_impl; [|apply keyed_earlier].
    intros [i s] [j t] Hi Hj _.
    apply in_combine_r, repeat_spec in Hi. apply in_combine_r, repeat_spec in Hj.
    subst s t. simpl. apply Rleb_true. lra.
Qed.

(** ** Fancy indexing *)

Lemma take_ok {A : Type} (d : A) (a : list A) (inds : list nat) :
  Forall (fun i => (i < length a)%nat) inds ->
  take a inds = Ok (map (fun i => nth i a d) inds).
Proof.
  intros H. unfold take. apply mapM_ok.
  eapply Forall_impl; [|exact H]. intros i Hi. unfold py_index.
  rewrite (nth_error_nth' a d Hi). reflexivity.
Qed.

(** ** The retained candidates *)

Lemma topk_inds_In (max_scores : list R) (i : nat) :
  In i (topk_inds max_scores) -> (i < length max_scores)%nat.
Proof.
  unfold topk_inds. intros H. apply firstn_In, in_rev in H.
  apply argsort_In, H.
Qed.

Lemma topk_inds_length (max_scores : list R) :
  (nms_pre <= length max_scores)%nat -> length (topk_inds max_scores) = nms_pre.
Proof.
  intros H. unfold topk_inds.
  rewrite length_firstn, length_rev, argsort_length. lia.
Qed.

Lemma topk_inds_ranked (max_scores : list R) :
  ForallOrdPairs (ranks_before max_scores) (topk_inds max_scores).
Proof.
  unfold topk_inds. apply FOP_firstn.
  apply (FOP_rev (fun i j => ranks_before max_scores j i)), argsort_ordered.
Qed.

Lemma topk_inds_dropped (max_scores : list R) (i j : nat) :
  In i (topk_inds max_scores) -> (j < length max_scores)%nat ->
  ~ In j (topk_inds max_scores) -> ranks_before max_scores i j.
Proof.
  unfold topk_inds. intros Hi Hj Hnj.
  pose proof (FOP_rev _ _ (argsort_ordered max_scores)) as H. simpl in H.
  rewrite <- (firstn_skipn nms_pre (rev (argsort max_scores))) in H.
  apply FOP_app_inv in H. destruct H as (_ & _ & H). apply H; [exact Hi|].
  assert (In j (rev (argsort max_scores))) as Hin.
  { rewrite <- in_rev. apply argsort_In, Hj. }
  rewrite <- (firstn_skipn nms_pre (rev (argsort max_scores))) in Hin.
  apply in_app_or in Hin. tauto.
Qed.

Lemma map_Some_nth {A : Type} (d : A) (a : list A) (inds : list nat) :
  Forall (fun i => (i < length a)%nat) inds ->
  map Some (map (fun i => nth i a d) inds) = map (nth_error a) inds.
Proof.
  intros H. rewrite map_map. apply map_ext_in. intros i Hi.
  rewrite Forall_forall in H. symmetry. apply nth_error_nth', H, Hi.
Qed.

Lemma prune_level_over (anchors : list (Z * Z)) (bbox_pred cls_score : list (list R))
    (max_scores : list R) :
  (nms_pre < length cls_score)%nat ->
  (length cls_score <= length anchors)%nat ->
  (length cls_score <= length bbox_pred)%nat ->
  mapM amax cls_score = Ok max_scores ->
  let inds := topk_inds max_scores in
  prune_level anchors bbox_pred cls_score =
  Ok (map (fun i => nth i anchors (0, 0)%Z) inds,
      map (fun i => nth i bbox_pred []) inds,
      map (fun i => nth i cls_score []) inds).
Proof.
  intros Hn Ha Hb Hmax inds. unfold prune_level.
  destruct (Nat.ltb_spec nms_pre (length cls_score)) as [_|]; [|lia].
  change (Nat.ltb 0 nms_pre) with true. simpl. rewrite Hmax. simpl.
  pose proof (mapM_length _ _ _ Hmax) as Hlen.
  assert (Hinds : Forall (fun i => (i < length cls_score)%nat) inds).
  { apply Forall_forall. intros i Hi. apply topk_inds_In in Hi. lia. }
  fold inds.
  rewrite (take_ok (0, 0)%Z), (take_ok []), (take_ok []); [reflexivity| | |].
  - exact Hinds.
  - eapply Forall_impl; [|exact Hinds]. simpl. intros; lia.
  - eapply Forall_impl; [|exact Hinds]. simpl. intros; lia.
Qed.


Lemma tie_amax : mapM amax tie_cls_score = Ok tie_max_scores.
Proof.
  unfold tie_cls_score, tie_max_scores.
  rewrite (mapM_ok amax (fun _ => 1 / 2)).
  - rewrite map_repeat. reflexivity.
  - apply Forall_forall. intros row Hrow. apply repeat_spec in Hrow.
    subst row. reflexivity.
Qed.

Lemma tie_topk_inds : topk_inds tie_max_scores = rev (seq 1 1000).
Proof.
  unfold topk_inds, tie_max_scores. rewrite argsort_constant.
  vm_compute. reflexivity.
Qed.



(** ** Greedy selection *)

Section Greedy.
Context {A : Type}.
Variable overlaps : A -> A -> bool.

Lemma greedy_cons (x : A) (rest : list A) :
  greedy overlaps (x :: rest) =
  x :: greedy overlaps (filter (fun z => negb (overlaps x z)) rest).
Proof. simp greedy. reflexivity. Qed.

Lemma greedy_In (l : list A) (x : A) : In x (greedy overlaps l) -> In x l.
Proof.
  remember (length l) as n eqn:Hn. revert l Hn x.
  induction n as [n IH] using lt_wf_ind. intros [|y rest] Hn x.
  - simp greedy.
  - rewrite greedy_cons. intros [<-|Hin]; [left; reflexivity|].
    right. apply (IH (length (filter (fun z => negb (overlaps y z)) rest))) in Hin.
    + apply filter_In in Hin. apply Hin.
    + subst n. simpl. apply Nat.lt_succ_r, filter_length_le.
    + reflexivity.
Qed.

(** The selection from a prefix is a prefix of the selection. *)
Lemma greedy_app (l t : list A) :
  exists t', greedy overlaps (l ++ t) = greedy overlaps l ++ t'.
Proof.
  remember (length l) as n eqn:Hn. revert l Hn t.
  induction n as [n IH] using lt_wf_ind. intros [|y rest] Hn t.
  - exists (greedy overlaps t). simp greedy. reflexivity.
  - simpl. rewrite !greedy_cons, filter_app.
    destruct (IH (length (filter (fun z => negb (overlaps y z)) rest))) with
      (l := filter (fun z => negb (overlaps y z)) rest)
      (t := filter (fun z => negb (overlaps y z)) t) as [t' Ht'].
    + subst n. simpl. apply Nat.lt_succ_r, filter_length_le.
    + reflexivity.
    + exists t'. rewrite Ht'. reflexivity.
Qed.

(** No selected element overlaps one selected after it. *)
Lemma greedy_separated (l : list A) :
  ForallOrdPairs (fun x y => overlaps x y = false) (greedy overlaps l).
Proof.
  remember (length l) as n eqn:Hn. revert l Hn.
  induction n as [n IH] using lt_wf_ind. intros [|y rest] Hn.
  - simp greedy. constructor.
  - rewrite greedy_cons. constructor.
    + apply Forall_forall. intros x Hx. apply greedy_In, filter_In in Hx.
      destruct Hx as [_ Hx]. cbv beta in Hx.
      destruct (overlaps y x); [discriminate | reflexivity].
    + apply (IH (length (filter (fun z => negb (overlaps y z)) rest))); [|reflexivity].
      subst n. simpl. apply Nat.lt_succ_r, filter_length_le.
Qed.

(** A list without overlapping pairs is selected whole. *)
Lemma greedy_fixed (l : list A) :
  ForallOrdPairs (fun x y => overlaps x y = false) l -> greedy overlaps l = l.
Proof.
  induction 1 as [|x l Hx Hl IH]; [simp greedy; reflexivity|].
  rewrite greedy_cons.
  assert (filter (fun z => negb (overlaps x z)) l = l) as ->; [|rewrite IH; reflexivity].
  apply forallb_filter_id, forallb_forall. intros y Hy.
  rewrite Forall_forall in Hx. cbv beta. rewrite (Hx y Hy). reflexivity.
Qed.
End Greedy.

(** ** Sorting and filtering *)

Section SortFilter.
Context {A : Type}.
Variable before : A -> A -> bool.
Hypothesis before_trans :
  forall x y z, before x y = true -> before y z = true -> before x z = true.
Hypothesis before_total : forall x y, before x y = false -> before y x = true.

Lemma isort_sorted (l : list A) :
  ForallOrdPairs (fun x y => before x y = true) (isort before l).
Proof.
  apply (isort_ordered before (fun _ _ => True)).
  - exact before_trans.
  - intros x y H _. exact H.
  - exact before_total.
  - induction l as [|x l IH]; constructor; [|exact IH].
    apply Forall_forall. intros; exact I.
Qed.

Variable p : A -> bool.

Lemma insert_filter (x : A) (l : list A) :
  ForallOrdPairs (fun x y => before x y = true) l ->
  filter p (insert before x l) =
  if p x then insert before x (filter p l) else filter p l.
Proof.
  induction 1 as [|y l Hy Hl IH]; simpl.
  - destruct (p x); reflexivity.
  - destruct (before x y) eqn:E; simpl.
    + destruct (p x); [|reflexivity].
      destruct (p y); simpl; [rewrite E; reflexivity|].
      destruct (filter p l) as [|z fl] eqn:Hf; simpl; [reflexivity|].
      assert (In z (filter p l)) as Hz by (rewrite Hf; left; reflexivity).
      apply filter_In in Hz. destruct Hz as [Hz _].
      rewrite Forall_forall in Hy.
      rewrite (before_trans _ _ _ E (Hy z Hz)). reflexivity.
    + rewrite IH. destruct (p y), (p x); simpl; try rewrite E; reflexivity.
Qed.

(** The stable sort of a sublist is the sublist of the stable sort. *)
Lemma isort_filter (l : list A) :
  isort before (filter p l) = filter p (isort before l).
Proof.
  induction l as [|x l IH]; simpl; [reflexivity|].
  rewrite insert_filter by apply isort_sorted.
  destruct (p x); simpl; rewrite IH; reflexivity.
Qed.

(** The elements of an ordered list that pass an upward-closed test are a
    prefix of it. *)
Hypothesis p_up : forall x y, before x y = true -> p y = true -> p x = true.

Lemma filter_sorted_prefix (l : list A) :
  ForallOrdPairs (fun x y => before x y = true) l ->
  exists t, l = filter p l ++ t.
Proof.
  induction 1 as [|x l Hx Hl [t IH]]; simpl.
  - exists []. reflexivity.
  - destruct (p x) eqn:Hpx.
    + exists t. simpl. rewrite <- IH. reflexivity.
    + exists (x :: l).
      assert (filter p l = []) as ->; [|reflexivity].
      destruct (filter p l) as [|z fl] eqn:Hf; [reflexivity|].
      assert (In z (filter p l)) as Hz by (rewrite Hf; left; reflexivity).
      apply filter_In in Hz. destruct Hz as [Hz Hpz].
      rewrite Forall_forall in Hx.
      rewrite (p_up _ _ (Hx z Hz) Hpz) in Hpx. discriminate.
Qed.
End SortFilter.

(** ** Suppression *)

Lemma by_score_trans (x y z : Cand) :
  by_score x y = true -> by_score y z = true -> by_score x z = true.
Proof. unfold by_score. rewrite !Rleb_true. lra. Qed.

Lemma by_score_total (x y : Cand) : by_score x y = false -> by_score y x = true.
Proof. unfold by_score. rewrite Rleb_true, Rleb_false. lra. Qed.

Lemma passes_up (t : R) (x y : Cand) :
  by_score x y = true -> passes t y = true -> passes t x = true.
Proof.
  unfold by_score, passes. rewrite Rleb_true, !negb_true_iff, !Rltb_false. lra.
Qed.

Lemma passes_mono (t1 t2 : R) (c : Cand) :
  t1 <= t2 -> passes t2 c = true -> passes t1 c = true.
Proof.
  unfold passes. rewrite !negb_true_iff, !Rltb_false. lra.
Qed.

Lemma filter_filter_impl {A : Type} (p q : A -> bool) (l : list A) :
  (forall x, q x = true -> p x = true) ->
  filter q (filter p l) = filter q l.
Proof.
  intros Hqp. induction l as [|x l IH]; simpl; [reflexivity|].
  destruct (p x) eqn:Hp; simpl; rewrite IH; [reflexivity|].
  destruct (q x) eqn:Hq; [|reflexivity].
  rewrite (Hqp x Hq) in Hp. discriminate.
Qed.

(** Raising the score threshold keeps a prefix of the selection. *)
Lemma NMS_select_threshold (bboxes : list Box) (scores : list R) (t1 t2 it : R) :
  t1 <= t2 ->
  exists rest,
    NMS_select bboxes scores t1 it = NMS_select bboxes scores t2 it ++ rest.
Proof.
  intros Ht. unfold NMS_select.
  set (cands := combine (seq 0 (length scores)) (combine bboxes scores)).
  rewrite !(isort_filter by_score by_score_trans by_score_total).
  rewrite <- (filter_filter_impl (passes t1) (passes t2))
    by (intros x; apply passes_mono, Ht).
  set (sorted1 := filter (passes t1) (isort by_score cands)).
  destruct (filter_sorted_prefix by_score (passes t2) (passes_up t2) sorted1)
    as [t Hpre].
  - unfold sorted1.
    rewrite <- (isort_filter by_score by_score_trans by_score_total).
    apply isort_sorted; [exact by_score_trans | exact by_score_total].
  - destruct (greedy_app (overlaps it) (filter (passes t2) sorted1) t) as [t' Ht'].
    exists t'. rewrite <- Ht', <- Hpre. reflexivity.
Qed.

Lemma FOP_map_inv {A B : Type} (f : A -> B) (Rel : B -> B -> Prop) (l : list A) :
  ForallOrdPairs Rel (map f l) -> ForallOrdPairs (fun x y => Rel (f x) (f y)) l.
Proof.
  induction l as [|a l IH]; simpl; intros H; [constructor|].
  inversion H as [|b l' Hb Hl]; subst. constructor; [|apply IH, Hl].
  apply Forall_forall. intros y Hy. rewrite Forall_forall in Hb.
  apply Hb, in_map, Hy.
Qed.

Lemma FOP_filter {A : Type} (Rel : A -> A -> Prop) (p : A -> bool) (l : list A) :
  ForallOrdPairs Rel l -> ForallOrdPairs Rel (filter p l).
Proof.
  induction 1 as [|a l Ha _ IH]; simpl; [constructor|].
  destruct (p a); [|exact IH]. constructor; [|exact IH].
  apply Forall_forall. intros y Hy. apply filter_In in Hy.
  rewrite Forall_forall in Ha. apply Ha, Hy.
Qed.

(** The selection keeps the order of its input. *)
Lemma greedy_FOP {A : Type} (ov : A -> A -> bool) (Rel : A -> A -> Prop) (l : list A) :
  ForallOrdPairs Rel l -> ForallOrdPairs Rel (greedy ov l).
Proof.
  remember (length l) as n eqn:Hn. revert l Hn.
  induction n as [n IH] using lt_wf_ind. intros [|y rest] Hn H.
  - simp greedy; try constructor.
  - rewrite greedy_cons. inversion H as [|y' l' Hy Hrest]; subst.
    constructor.
    + apply Forall_forall. intros x Hx. apply greedy_In, filter_In in Hx.
      rewrite Forall_forall in Hy. apply Hy, Hx.
    + eapply IH; [|reflexivity|apply FOP_filter, Hrest].
      simpl. apply Nat.lt_succ_r, filter_length_le.
Qed.

Lemma combine_seq_In {A : Type} (l : list A) (start n i : nat) (x : A) :
  In (i, x) (combine (seq start n) l) ->
  (start <= i)%nat /\ nth_error l (i - start) = Some x.
Proof.
  revert start n. induction l as [|a l IH]; intros start [|n]; simpl; try contradiction.
  intros [H|H].
  - injection H as <- <-. rewrite Nat.sub_diag. split; [lia | reflexivity].
  - destruct (IH _ _ H) as [Hi Hx]. split; [lia|].
    replace (i - start)%nat with (S (i - S start)) by lia. exact Hx.
Qed.

Lemma combine_seq_fst {A : Type} (l : list A) (start : nat) :
  map fst (combine (seq start (length l)) l) = seq start (length l).
Proof.
  revert start. induction l as [|a l IH]; simpl; intros start; [reflexivity|].
  rewrite IH. reflexivity.
Qed.

Lemma combine_seq_snd {A : Type} (l : list A) (start : nat) :
  map snd (combine (seq start (length l)) l) = l.
Proof.
  revert start. induction l as [|a l IH]; simpl; intros start; [reflexivity|].
  rewrite IH. reflexivity.
Qed.

Lemma combine_map_pair {A B C : Type} (f : A -> B) (g : A -> C) (l : list A) :
  combine (map f l) (map g l) = map (fun x => (f x, g x)) l.
Proof. induction l as [|a l IH]; simpl; [|rewrite IH]; reflexivity. Qed.

Lemma NMS_select_In (bboxes : list Box) (scores : list R) (t it : R) (c : Cand) :
  In c (NMS_select bboxes scores t it) ->
  nth_error bboxes (fst c) = Some (cand_box c) /\
  nth_error scores (fst c) = Some (cand_score c) /\
  passes t c = true.
Proof.
  unfold NMS_select. intros H.
  apply greedy_In, isort_In, filter_In in H. destruct H as [H Hp].
  destruct c as [i [b s]]. apply combine_seq_In in H.
  rewrite Nat.sub_0_r, nth_error_combine in H. destruct H as [_ H].
  unfold cand_box, cand_score. simpl.
  destruct (nth_error bboxes i); [|discriminate].
  destruct (nth_error scores i); [|discriminate].
  injection H as -> ->. auto.
Qed.

Lemma NMS_select_sorted (bboxes : list Box) (scores : list R) (t it : R) :
  ForallOrdPairs (fun x y => by_score x y = true) (NMS_select bboxes scores t it).
Proof.
  unfold NMS_select. apply greedy_FOP, isort_sorted.
  - exact by_score_trans.
  - exact by_score_total.
Qed.

Lemma NMS_select_separated (bboxes : list Box) (scores : list R) (t it : R) :
  ForallOrdPairs (fun x y => overlaps it x y = false)
                 (NMS_select bboxes scores t it).
Proof. unfold NMS_select. apply greedy_separated. Qed.

(** Suppression of its own output selects everything, in the same order. *)
Lemma NMS_select_idempotent (bboxes : list Box) (scores : list R) (t it : R) :
  let keep := NMS_select bboxes scores t it in
  NMS_select (map cand_box keep) (map cand_score keep) t it =
  combine (seq 0 (length keep)) (map snd keep).
Proof.
  intros keep.
  pose proof (NMS_select_sorted bboxes scores t it) as Hord.
  pose proof (NMS_select_separated bboxes scores t it) as Hsep.
  assert (Hin : forall c, In c keep -> passes t c = true).
  { intros c Hc. apply NMS_select_In in Hc. apply Hc. }
  fold keep in Hord, Hsep. clearbody keep. unfold NMS_select.
  rewrite length_map, combine_map_pair.
  replace (map (fun x : Cand => (cand_box x, cand_score x)) keep) with (map snd keep)
    by (apply map_ext; intros [i [b s]]; reflexivity).
  set (again := combine (seq 0 (length keep)) (map snd keep)).
  assert (Hsnd : map snd again = map snd keep).
  { assert (Hlen : length keep = length (map snd keep))
      by (symmetry; apply length_map).
    unfold again. rewrite Hlen. apply combine_seq_snd. }
  assert (Hpass : filter (passes t) again = again).
  { apply forallb_filter_id, forallb_forall. intros [i x] Hx.
    apply (in_map snd) in Hx. rewrite Hsnd in Hx. apply in_map_iff in Hx.
    destruct Hx as [c [Hc Hc']]. apply Hin in Hc'.
    destruct c as [j y]. simpl in Hc. subst y. exact Hc'. }
  rewrite Hpass.
  assert (Hsorted : isort by_score again = again).
  { apply isort_sorted_id.
    apply (FOP_map_inv snd (fun u v => Rleb (snd v) (snd u) = true)).
    rewrite Hsnd. apply FOP_map. exact Hord. }
  rewrite Hsorted.
  apply greedy_fixed.
  apply (FOP_map_inv snd (fun u v => Rltb it (iou (fst u) (fst v)) = false)).
  rewrite Hsnd. apply FOP_map. exact Hsep.
Qed.

Lemma inter_area_sym (a b : Box) : inter_area a b = inter_area b a.
Proof.
  destruct a as [[[ax ay] aw] ah], b as [[[bx by_] bw] bh]. unfold inter_area.
  rewrite (Rmin_comm (ax + aw)), (Rmax_comm ax), (Rmin_comm (ay + ah)), (Rmax_comm ay).
  reflexivity.
Qed.

Lemma iou_sym (a b : Box) : iou a b = iou b a.
Proof.
  unfold iou. rewrite (inter_area_sym a b). f_equal. ring.
Qed.

(** ** The suppression step *)

Lemma suppress_selected (self : NanoDet) (boxes : list Box) (confidences : list R)
    (classIds : list nat) :
  length classIds = length confidences ->
  let keep := NMS_select (map xywh boxes) confidences
                         (prob_threshold self) (iou_threshold self) in
  suppress self boxes confidences classIds =
  match keep with
  | [] => Raise AttributeError
  | _ :: _ =>
      Ok (map (fun c => nth (fst c) boxes (0, 0, 0, 0)) keep,
          map cand_score keep,
          map (fun c => nth (fst c) classIds 0%nat) keep)
  end.
Proof.
  intros Hlen keep.
  assert (Hkeep : forall c, In c keep ->
            (fst c < length boxes)%nat /\
            nth_error confidences (fst c) = Some (cand_score c)).
  { intros c Hc. apply NMS_select_In in Hc. destruct Hc as (Hb & Hs & _).
    split; [|exact Hs].
    rewrite <- (length_map xywh boxes). apply nth_error_Some. congruence. }
  unfold suppress, NMSBoxes. fold keep. clearbody keep.
  destruct keep as [|k keep]; [reflexivity|].
  cbn [map flatten_indices bind length Nat.ltb Nat.leb].
  change (fst k :: map fst keep) with (map fst (k :: keep)).
  rewrite (take_ok (0, 0, 0, 0)), (take_ok 0), (take_ok 0%nat).
  - unfold bind. rewrite !map_map.
    assert (map (fun c => nth (fst c) confidences 0) (k :: keep) =
            map cand_score (k :: keep)) as ->.
    { apply map_ext_in. intros c Hc. destruct (Hkeep c Hc) as [_ Hs].
      apply nth_error_nth. exact Hs. }
    reflexivity.
  - apply Forall_forall. intros i Hi. apply in_map_iff in Hi.
    destruct Hi as [c [<- Hc]]. destruct (Hkeep c Hc) as [_ Hs].
    rewrite Hlen. apply nth_error_Some. congruence.
  - apply Forall_forall. intros i Hi. apply in_map_iff in Hi.
    destruct Hi as [c [<- Hc]]. destruct (Hkeep c Hc) as [_ Hs].
    apply nth_error_Some. congruence.
  - apply Forall_forall. intros i Hi. apply in_map_iff in Hi.
    destruct Hi as [c [<- Hc]]. apply (Hkeep c Hc).
Qed.

(** What the suppression step returns, when it returns. *)
Lemma suppress_returned (self : NanoDet) (boxes : list Box) (confidences : list R)
    (classIds : list nat) (out : list Box * list R * list nat) :
  length classIds = length confidences ->
  suppress self boxes confidences classIds = Ok out ->
  NMS_select (map xywh boxes) confidences (prob_threshold self)
             (iou_threshold self) <> [] /\
  Ok (map (fun c => nth (fst c) boxes (0, 0, 0, 0))
          (NMS_select (map xywh boxes) confidences (prob_threshold self)
                      (iou_threshold self)),
      map cand_score
          (NMS_select (map xywh boxes) confidences (prob_threshold self)
                      (iou_threshold self)),
      map (fun c => nth (fst c) classIds 0%nat)
          (NMS_select (map xywh boxes) confidences (prob_threshold self)
                      (iou_threshold self))) = Ok out.
Proof.
  intros Hlen H. rewrite suppress_selected in H by exact Hlen.
  destruct (NMS_select _ _ _ _) as [|k keep]; [discriminate|].
  split; [discriminate | exact H].
Qed.

(** It returns as soon as one candidate is selected. *)
Lemma suppress_nonempty (self : NanoDet) (boxes : list Box) (confidences : list R)
    (classIds : list nat) :
  length classIds = length confidences ->
  NMS_select (map xywh boxes) confidences (prob_threshold self)
             (iou_threshold self) <> [] ->
  suppress self boxes confidences classIds =
  Ok (map (fun c => nth (fst c) boxes (0, 0, 0, 0))
          (NMS_select (map xywh boxes) confidences (prob_threshold self)
                      (iou_threshold self)),
      map cand_score
          (NMS_select (map xywh boxes) confidences (prob_threshold self)
                      (iou_threshold self)),
      map (fun c => nth (fst c) classIds 0%nat)
          (NMS_select (map xywh boxes) confidences (prob_threshold self)
                      (iou_threshold self))).
Proof.
  intros Hlen Hne. rewrite suppress_selected by exact Hlen.
  destruct (NMS_select _ _ _ _) as [|k keep]; [contradiction | reflexivity].
Qed.

(** One candidate that reaches the threshold is enough for a selection. *)
Lemma NMS_select_nonempty (bboxes : list Box) (scores : list R) (t it : R)
    (i : nat) (b : Box) (s : R) :
  nth_error bboxes i = Some b -> nth_error scores i = Some s -> t <= s ->
  NMS_select bboxes scores t it <> [].
Proof.
  intros Hb Hs Ht. unfold NMS_select. cbv zeta.
  set (cands := combine (seq 0 (length scores)) (combine bboxes scores)).
  assert (Hin : In (i, (b, s)) (filter (passes t) cands)).
  { apply filter_In. split.
    - unfold cands. apply (nth_error_In _ i).
      etransitivity; [apply nth_error_combine|].
      rewrite nth_error_combine, nth_error_seq, Hb, Hs.
      assert (Hi : (i < length scores)%nat) by (apply nth_error_Some; congruence).
      destruct (Nat.ltb_spec i (length scores)); [reflexivity | lia].
    - unfold passes, cand_score. simpl. apply negb_true_iff, Rltb_false. exact Ht. }
  apply (isort_In by_score) in Hin.
  destruct (isort by_score (filter (passes t) cands)) as [|c l]; [contradiction|].
  rewrite greedy_cons. discriminate.
Qed.

(** ** Post-processing, once decoding has succeeded *)

Lemma post_process_decoded (self : NanoDet) (preds : list (list R)) (sf : R)
    (rs : bool) (mlvl_bboxes : list (list Box)) (mlvl_scores : list (list (list R)))
    (classIds : list nat) (confidences : list R) :
  decode_levels self (combine (strides self) (mlvl_anchors self)) 0 preds =
    Ok (mlvl_bboxes, mlvl_scores) ->
  mapM argmax (concat mlvl_scores) = Ok classIds ->
  mapM amax (concat mlvl_scores) = Ok confidences ->
  let boxes :=
    if rs then map (box_div sf) (concat mlvl_bboxes) else concat mlvl_bboxes in
  post_process self preds sf rs = suppress self boxes confidences classIds /\
  length classIds = length confidences.
Proof.
  intros Hdec Hids Hconf boxes. split.
  - unfold post_process. rewrite Hdec. simpl. rewrite Hids. simpl.
    rewrite Hconf. reflexivity.
  - rewrite (mapM_length _ _ _ Hids), (mapM_length _ _ _ Hconf). reflexivity.
Qed.

Lemma post_process_inv (self : NanoDet) (preds : list (list R)) (sf : R)
    (rs : bool) (out : list Box * list R * list nat) :
  post_process self preds sf rs = Ok out ->
  exists mlvl_bboxes mlvl_scores classIds confidences,
    decode_levels self (combine (strides self) (mlvl_anchors self)) 0 preds =
      Ok (mlvl_bboxes, mlvl_scores) /\
    mapM argmax (concat mlvl_scores) = Ok classIds /\
    mapM amax (concat mlvl_scores) = Ok confidences.
Proof.
  unfold post_process. intros H.
  destruct (decode_levels self _ 0 preds) as [[mb ms]|] eqn:Hd; [|discriminate].
  simpl in H.
  destruct (mapM argmax (concat ms)) as [ids|] eqn:Hi; [|discriminate]. simpl in H.
  destruct (mapM amax (concat ms)) as [conf|] eqn:Hc; [|discriminate].
  exists mb, ms, ids, conf. repeat split; assumption.
Qed.

(** The small detector on its example tensor: the first row scores 0.9, so
    post-processing returns under every threshold up to 0.9. *)
Lemma tiny_post_process (pt it sf : R) (rs : bool) :
  pt <= 0.9 ->
  exists out_b out_c out_ids,
    post_process (tiny_with pt it) tiny_preds sf rs = Ok (out_b, out_c, out_ids).
Proof.
  intros Hpt.
  assert (Hd : exists mb,
            decode_levels (tiny_with pt it)
              (combine (strides (tiny_with pt it)) (mlvl_anchors (tiny_with pt it)))
              0 tiny_preds =
            Ok (mb, [[[0.9]]; [[0.1]]; [[0.2]]; [[0.3]]]) /\
            length (concat mb) = 4%nat)
    by (eexists; split; reflexivity).
  destruct Hd as (mb & Hd & Hmb).
  destruct (post_process_decoded (tiny_with pt it) tiny_preds sf rs mb _
              [0; 0; 0; 0]%nat [0.9; 0.1; 0.2; 0.3] Hd eq_refl eq_refl)
    as [Hpp Hlen].
  rewrite Hpp.
  set (boxes := if rs then map (box_div sf) (concat mb) else concat mb) in *.
  assert (Hb : length (map xywh boxes) = 4%nat).
  { unfold boxes. destruct rs; rewrite ?length_map; exact Hmb. }
  destruct (nth_error (map xywh boxes) 0) as [b|] eqn:Eb;
    [|apply nth_error_None in Eb; lia].
  rewrite suppress_nonempty; [do 3 eexists; reflexivity | exact Hlen |].
  apply (NMS_select_nonempty (map xywh boxes) [0.9; 0.1; 0.2; 0.3] _ _
           0%nat b 0.9 Eb eq_refl). exact Hpt.
Qed.

(** Decoding reads neither threshold. *)
Lemma decode_levels_ext (d1 d2 : NanoDet) :
  num_classes d1 = num_classes d2 -> reg_max d1 = reg_max d2 ->
  project d1 = project d2 -> input_shape d1 = input_shape d2 ->
  forall levels ind preds,
    decode_levels d1 levels ind preds = decode_levels d2 levels ind preds.
Proof.
  intros Hn Hr Hp Hs levels. induction levels as [|[stride anchors] levels IH];
    intros ind preds; simpl; [reflexivity|].
  unfold decode_distances. rewrite Hn, Hr, Hp, Hs.
  destruct (reshape (reg_max d2 + 1) _) as [bp|]; simpl; [|reflexivity].
  destruct (dot _ _) as [flat|]; simpl; [|reflexivity].
  destruct (reshape 4 flat) as [bp4|]; simpl; [|reflexivity].
  destruct (prune_level _ _ _) as [[[a b] c]|]; simpl; [|reflexivity].
  destruct (distance2bbox _ _ _) as [bb|]; simpl; [|reflexivity].
  rewrite IH. reflexivity.
Qed.

Lemma init_thresholds (labels : list string) (ishape oshape : list Z)
    (t1 t2 it1 it2 : R) (d1 d2 : NanoDet) :
  __init__ labels ishape oshape t1 it1 = Ok d1 ->
  __init__ labels ishape oshape t2 it2 = Ok d2 ->
  (prob_threshold d1 = t1 /\ iou_threshold d1 = it1) /\
  (prob_threshold d2 = t2 /\ iou_threshold d2 = it2) /\
  num_classes d1 = num_classes d2 /\ reg_max d1 = reg_max d2 /\
  project d1 = project d2 /\ input_shape d1 = input_shape d2 /\
  strides d1 = strides d2 /\ mlvl_anchors d1 = mlvl_anchors d2.
Proof.
  unfold __init__, bind.
  destruct (py_index ishape 2) as [in_h|]; [|discriminate].
  destruct (py_index ishape 3) as [in_w|]; [|discriminate].
  destruct (py_last oshape) as [out_last|]; [|discriminate].
  intros H1 H2. injection H1 as <-. injection H2 as <-. simpl.
  repeat split; reflexivity.
Qed.

(** C4. For a fixed raw prediction tensor, raising [prob_threshold] never
    increases the number of detections post-processing returns: with
    [t1 <= t2], whenever post-processing returns under both thresholds the
    detections under [t2] are at most as many as under [t1]; and when it
    returns under [t2] it returns under [t1] too. *)
Theorem threshold_monotone (labels : list string) (ishape oshape : list Z)
    (it t1 t2 : R) (d1 d2 : NanoDet) (preds : list (list R)) (sf : R) (rs : bool) :
  __init__ labels ishape oshape t1 it = Ok d1 ->
  __init__ labels ishape oshape t2 it = Ok d2 ->
  t1 <= t2 ->
  (forall out2, post_process d2 preds sf rs = Ok out2 ->
     exists out1, post_process d1 preds sf rs = Ok out1) /\
  (forall bboxes1 conf1 ids1 bboxes2 conf2 ids2,
     post_process d1 preds sf rs = Ok (bboxes1, conf1, ids1) ->
     post_process d2 preds sf rs = Ok (bboxes2, conf2, ids2) ->
     (length bboxes2 <= length bboxes1)%nat).
Proof.
  intros H1 H2 Ht.
  destruct (init_thresholds _ _ _ _ _ _ _ _ _ H1 H2)
    as ((Hp1 & Hi1) & (Hp2 & Hi2) & Hn & Hr & Hp & Hs & Hst & Ha).
  pose proof (decode_levels_ext d1 d2 Hn Hr Hp Hs
                (combine (strides d1) (mlvl_anchors d1)) 0%nat preds) as Hext.
  rewrite Hst, Ha in Hext.
  assert (Hboth : forall out2, post_process d2 preds sf rs = Ok out2 ->
            exists mb ids conf rest,
              let boxes :=
                if rs then map (box_div sf) (concat mb) else concat mb in
              length ids = length conf /\
              post_process d1 preds sf rs = suppress d1 boxes conf ids /\
              post_process d2 preds sf rs = suppress d2 boxes conf ids /\
              NMS_select (map xywh boxes) conf t1 it =
              NMS_select (map xywh boxes) conf t2 it ++ rest).
  { intros out2 Hout2.
    destruct (post_process_inv _ _ _ _ _ Hout2)
      as (mb & ms & ids & conf & Hd & Hids & Hconf).
    destruct (post_process_decoded d2 preds sf rs mb ms ids conf Hd Hids Hconf)
      as [Hpp2 Hlen].
    destruct (post_process_decoded d1 preds sf rs mb ms ids conf) as [Hpp1 _];
      [rewrite Hst, Ha, Hext; exact Hd | exact Hids | exact Hconf |].
    destruct (NMS_select_threshold
                (map xywh (if rs then map (box_div sf) (concat mb) else concat mb))
                conf t1 t2 it Ht) as [rest Hrest].
    exists mb, ids, conf, rest. cbv zeta. auto. }
  split.
  - intros out2 Hout2.
    destruct (Hboth out2 Hout2)
      as (mb & ids & conf & rest & Hlen & Hpp1 & Hpp2 & Hrest).
    rewrite Hpp2 in Hout2.
    destruct (suppress_returned _ _ _ _ _ Hlen Hout2) as [Hne _].
    rewrite Hp2, Hi2 in Hne.
    rewrite Hpp1, suppress_nonempty; [eexists; reflexivity | exact Hlen |].
    rewrite Hp1, Hi1, Hrest. intros E. apply app_eq_nil in E. tauto.
  - intros b1 c1 i1 b2 c2 i2 Hout1 Hout2.
    destruct (Hboth _ Hout2)
      as (mb & ids & conf & rest & Hlen & Hpp1 & Hpp2 & Hrest).
    rewrite Hpp1 in Hout1. rewrite Hpp2 in Hout2.
    destruct (suppress_returned _ _ _ _ _ Hlen Hout1) as [_ E1].
    destruct (suppress_returned _ _ _ _ _ Hlen Hout2) as [_ E2].
    injection E1 as <- _ _. injection E2 as <- _ _.
    rewrite !length_map, Hp1, Hp2, Hi1, Hi2, Hrest, length_app.
    apply Nat.le_add_r.
Qed.

Lemma threshold_monotone_witness :
  0.4 <= 0.5 /\
  exists bboxes1 conf1 ids1 bboxes2 conf2 ids2,
    post_process (tiny_with 0.4 0.3) tiny_preds 1 false =
      Ok (bboxes1, conf1, ids1) /\
    post_process (tiny_with 0.5 0.3) tiny_preds 1 false =
      Ok (bboxes2, conf2, ids2) /\
    (length bboxes2 <= length bboxes1)%nat.
Proof.
  split; [lra|].
  destruct (tiny_post_process 0.4 0.3 1 false) as (b1 & c1 & i1 & H1); [lra|].
  destruct (tiny_post_process 0.5 0.3 1 false) as (b2 & c2 & i2 & H2); [lra|].
  exists b1, c1, i1, b2, c2, i2. split; [exact H1|]. split; [exact H2|].
  refine (proj2 (threshold_monotone ["person"%string] [1; 3; 8; 8]%Z [1; 4; 9]%Z
                   0.3 0.4 0.5 _ _ tiny_preds 1 false
                   (init_tiny_with 0.4 0.3) (init_tiny_with 0.5 0.3) _)
                _ _ _ _ _ _ H1 H2).
  lra.
Defined.

(** ** Idempotence of the suppression step *)

Lemma map_nth_seq {A : Type} (d : A) (l : list A) :
  map (fun i => nth i l d) (seq 0 (length l)) = l.
Proof.
  induction l as [|a l IH]; simpl; [reflexivity|].
  rewrite <- seq_shift, map_map. simpl. rewrite IH. reflexivity.
Qed.

Lemma map_nth_fst {A B : Type} (d : B) (l : list B) (again : list (nat * A)) :
  map fst again = seq 0 (length l) ->
  map (fun c => nth (fst c) l d) again = l.
Proof.
  intros H. rewrite <- (map_map fst (fun i => nth i l d)), H. apply map_nth_seq.
Qed.

Lemma FOP_nth {A : Type} (Rel : A -> A -> Prop) (d : A) (l : list A) :
  ForallOrdPairs Rel l ->
  forall i j, (i < j < length l)%nat -> Rel (nth i l d) (nth j l d).
Proof.
  induction 1 as [|a l Ha _ IH]; intros i j Hij; simpl in *; [lia|].
  destruct j as [|j]; [lia|]. destruct i as [|i].
  - rewrite Forall_forall in Ha. apply Ha, nth_In. lia.
  - apply IH. lia.
Qed.

Lemma NMS_select_box (boxes : list Box) (scores : list R) (t it : R) (c : Cand) :
  In c (NMS_select (map xywh boxes) scores t it) ->
  xywh (nth (fst c) boxes (0, 0, 0, 0)) = cand_box c.
Proof.
  intros Hc. apply NMS_select_In in Hc. destruct Hc as (Hb & _).
  rewrite nth_error_map in Hb.
  destruct (nth_error boxes (fst c)) as [b|] eqn:E; [|discriminate].
  rewrite (nth_error_nth _ _ _ E). simpl in Hb. congruence.
Qed.

Lemma iou_xywh (a b : Box) : iou (xywh a) (xywh b) = iou_corners a b.
Proof.
  destruct a as [[[ax1 ay1] ax2] ay2], b as [[[bx1 by1] bx2] by2].
  unfold iou, inter_area, area, xywh, iou_corners.
  replace (ax1 + (ax2 - ax1)) with ax2 by ring.
  replace (bx1 + (bx2 - bx1)) with bx2 by ring.
  replace (ay1 + (ay2 - ay1)) with ay2 by ring.
  replace (by1 + (by2 - by1)) with by2 by ring.
  reflexivity.
Qed.

Lemma suppress_again (self : NanoDet) (boxes : list Box) (confidences : list R)
    (classIds : list nat) :
  let keep := NMS_select (map xywh boxes) confidences
                         (prob_threshold self) (iou_threshold self) in
  let out_b := map (fun c => nth (fst c) boxes (0, 0, 0, 0)) keep in
  let out_c := map cand_score keep in
  let out_ids := map (fun c => nth (fst c) classIds 0%nat) keep in
  keep <> [] ->
  suppress self out_b out_c out_ids = Ok (out_b, out_c, out_ids).
Proof.
  intros keep out_b out_c out_ids Hne.
  assert (Hbox : map xywh out_b = map cand_box keep).
  { unfold out_b. rewrite map_map. apply map_ext_in. intros c Hc.
    apply (NMS_select_box _ _ _ _ _ Hc). }
  pose proof (NMS_select_idempotent (map xywh boxes) confidences
                (prob_threshold self) (iou_threshold self)) as Hidem.
  cbv zeta in Hidem. fold keep in Hidem.
  rewrite suppress_nonempty;
    [|unfold out_ids, out_c; rewrite !length_map; reflexivity|].
  2:{ rewrite Hbox. subst out_c. rewrite Hidem.
      destruct keep; [contradiction | discriminate]. }
  rewrite Hbox. subst out_c. rewrite Hidem. clear Hidem Hbox.
  subst out_b out_ids. clearbody keep.
  set (again := combine (seq 0 (length keep)) (map snd keep)).
  assert (Hlen : length keep = length (map snd keep))
    by (symmetry; apply length_map).
  assert (Hfst : map fst again = seq 0 (length keep)).
  { unfold again. rewrite Hlen at 1. rewrite combine_seq_fst, <- Hlen. reflexivity. }
  assert (Hsnd : map snd again = map snd keep).
  { unfold again. rewrite Hlen. apply combine_seq_snd. }
  clearbody again.
  f_equal. f_equal; [f_equal|].
  - apply map_nth_fst. rewrite length_map. exact Hfst.
  - transitivity (map snd (map snd again)); [symmetry; apply map_map|].
    rewrite Hsnd. apply map_map.
  - apply map_nth_fst. rewrite length_map. exact Hfst.
Qed.

Lemma suppress_separated (boxes : list Box) (scores : list R) (t it : R) :
  let keep := NMS_select (map xywh boxes) scores t it in
  let out_b := map (fun c => nth (fst c) boxes (0, 0, 0, 0)) keep in
  forall i j a b, i <> j ->
    nth_error out_b i = Some a -> nth_error out_b j = Some b ->
    iou_corners a b <= it.
Proof.
  intros keep out_b.
  assert (Hsep : ForallOrdPairs (fun a b => iou (xywh a) (xywh b) <= it) out_b).
  { unfold out_b. apply FOP_map.
    eapply FOP_impl; [|apply NMS_select_separated].
    intros x y Hx Hy Hov. unfold overlaps in Hov. apply Rltb_false in Hov.
    rewrite (NMS_select_box _ _ _ _ _ Hx), (NMS_select_box _ _ _ _ _ Hy).
    exact Hov. }
  intros i j a b Hij Ha Hb.
  assert (Hi : (i < length out_b)%nat) by (apply nth_error_Some; congruence).
  assert (Hj : (j < length out_b)%nat) by (apply nth_error_Some; congruence).
  rewrite <- (nth_error_nth _ _ (0, 0, 0, 0) Ha).
  rewrite <- (nth_error_nth _ _ (0, 0, 0, 0) Hb).
  rewrite <- iou_xywh.
  destruct (Nat.lt_total i j) as [Hlt|[Heq|Hgt]]; [|contradiction|].
  - apply (FOP_nth _ _ _ Hsep). lia.
  - rewrite iou_sym. apply (FOP_nth _ _ _ Hsep). lia.
Qed.

(** C5. The suppression step is idempotent: run again on the boxes,
    confidences and class ids it returned, it returns them unchanged; and no
    two boxes it returns have an Intersection-over-Union, taken on their
    corners, that exceeds [iou_threshold]. *)
Theorem suppress_idempotent (self : NanoDet) (boxes : list Box)
    (confidences : list R) (classIds : list nat)
    (out_b : list Box) (out_c : list R) (out_ids : list nat) :
  length classIds = length confidences ->
  suppress self boxes confidences classIds = Ok (out_b, out_c, out_ids) ->
  suppress self out_b out_c out_ids = Ok (out_b, out_c, out_ids) /\
  forall i j a b, i <> j ->
    nth_error out_b i = Some a -> nth_error out_b j = Some b ->
    iou_corners a b <= iou_threshold self.
Proof.
  intros Hlen H.
  destruct (suppress_returned _ _ _ _ _ Hlen H) as [Hne E].
  injection E as <- <- <-.
  split; [apply suppress_again, Hne | apply suppress_separated].
Qed.

Lemma suppress_idempotent_witness :
  exists out_b out_c out_ids,
    suppress tiny [(0, 0, 4, 4); (0, 0, 4, 4); (6, 6, 8, 8)] [0.9; 0.8; 0.7]
             [0; 0; 0]%nat = Ok (out_b, out_c, out_ids) /\
    suppress tiny out_b out_c out_ids = Ok (out_b, out_c, out_ids) /\
    forall i j a b, i <> j ->
      nth_error out_b i = Some a -> nth_error out_b j = Some b ->
      iou_corners a b <= iou_threshold tiny.
Proof.
  assert (Hne : NMS_select (map xywh [(0, 0, 4, 4); (0, 0, 4, 4); (6, 6, 8, 8)])
                           [0.9; 0.8; 0.7] (prob_threshold tiny)
                           (iou_threshold tiny) <> []).
  { apply (NMS_select_nonempty _ _ _ _ 0%nat (xywh (0, 0, 4, 4)) 0.9);
      [reflexivity | reflexivity | simpl; lra]. }
  pose proof (suppress_nonempty tiny [(0, 0, 4, 4); (0, 0, 4, 4); (6, 6, 8, 8)]
                [0.9; 0.8; 0.7] [0; 0; 0]%nat eq_refl Hne) as Hs.
  do 3 eexists. split; [exact Hs|].
  apply (suppress_idempotent tiny [(0, 0, 4, 4); (0, 0, 4, 4); (6, 6, 8, 8)]
           [0.9; 0.8; 0.7] [0; 0; 0]%nat _ _ _ eq_refl Hs).
Defined.

(** The detections post-processing returns are a fixed point of the
    suppression step. *)
Lemma post_process_suppressed (self : NanoDet) (preds : list (list R)) (sf : R)
    (rs : bool) (out_b : list Box) (out_c : list R) (out_ids : list nat) :
  post_process self preds sf rs = Ok (out_b, out_c, out_ids) ->
  suppress self out_b out_c out_ids = Ok (out_b, out_c, out_ids) /\
  forall i j a b, i <> j ->
    nth_error out_b i = Some a -> nth_error out_b j = Some b ->
    iou_corners a b <= iou_threshold self.
Proof.
  intros H.
  destruct (post_process_inv _ _ _ _ _ H) as (mb & ms & ids & conf & Hd & Hi & Hc).
  destruct (post_process_decoded _ _ sf rs _ _ _ _ Hd Hi Hc) as [Hpp Hlen].
  rewrite Hpp in H.
  destruct (suppress_returned _ _ _ _ _ Hlen H) as [Hne E].
  injection E as <- <- <-.
  split; [apply suppress_again, Hne | apply suppress_separated].
Qed.

(** ** Decoded distances are non-negative *)

Lemma chunk_aux_Forall (P : R -> Prop) (k : nat) (fuel : nat) (flat : list R) :
  Forall P flat -> Forall (Forall P) (chunk_aux fuel k flat).
Proof.
  revert flat. induction fuel as [|fuel IH]; intros flat H; simpl; [constructor|].
  destruct flat as [|x rest]; [constructor|].
  constructor.
  - apply Forall_forall. intros y Hy. apply firstn_In in Hy.
    rewrite Forall_forall in H. apply H, Hy.
  - apply IH. apply Forall_forall. intros y Hy.
    rewrite Forall_forall in H. apply H.
    rewrite <- (firstn_skipn k (x :: rest)). apply in_or_app. right. exact Hy.
Qed.

Lemma reshape_Forall (P : R -> Prop) (cols : Z) (flat : list R) (a : list (list R)) :
  reshape cols flat = Ok a -> Forall P flat -> Forall (Forall P) a.
Proof.
  unfold reshape. destruct (_ || _); [discriminate|].
  intros H; injection H as <-. apply chunk_aux_Forall.
Qed.

Lemma inner_nonneg (p v : list R) :
  Forall (fun w => 0 <= w) p -> Forall (fun a => 0 <= a) v -> 0 <= inner p v.
Proof.
  intros Hp. revert v. induction Hp as [|w p Hw _ IH]; intros v Hv.
  - unfold inner. simpl. lra.
  - destruct Hv as [|a v Ha Hv]; [unfold inner; simpl; lra|].
    specialize (IH v Hv). unfold inner in *. simpl. nra.
Qed.

Lemma arange_nonneg (n : Z) : Forall (fun a => 0 <= a) (map IZR (np.arange 0 n)).
Proof.
  eapply Forall_impl; [|apply arange_support]. simpl. intros a Ha. apply Ha.
Qed.

Lemma dot_nonneg (a : list (list R)) (v flat : list R) :
  dot a v = Ok flat ->
  Forall (Forall (fun w => 0 <= w)) a -> Forall (fun w => 0 <= w) v ->
  Forall (fun d => 0 <= d) flat.
Proof.
  intros Hdot Ha Hv. revert flat Hdot. unfold dot.
  induction Ha as [|row a Hrow _ IH]; simpl; intros flat H.
  - injection H as <-. constructor.
  - destruct (Nat.eqb _ _); [|discriminate]. simpl in H.
    destruct (mapM _ a) as [flat'|]; [|discriminate]. simpl in H.
    injection H as <-. constructor; [apply inner_nonneg; assumption|].
    apply IH. reflexivity.
Qed.

Lemma decode_distances_nonneg (self : NanoDet) (stride : Z)
    (bbox_pred dist : list (list R)) :
  project self = np.arange 0 (reg_max self + 1) -> (0 <= stride)%Z ->
  decode_distances self stride bbox_pred = Ok dist ->
  Forall (Forall (fun d => 0 <= d)) dist.
Proof.
  intros Hproj Hs. unfold decode_distances.
  destruct (reshape (reg_max self + 1) _) as [rows|]; [|discriminate]. simpl.
  destruct (dot (softmax rows) _) as [flat|] eqn:Hdot; [|discriminate]. simpl.
  destruct (reshape 4 flat) as [quads|] eqn:Hq; [|discriminate]. simpl.
  intros H; injection H as <-.
  assert (Hflat : Forall (fun d => 0 <= d) flat).
  { apply (dot_nonneg _ _ _ Hdot); [|rewrite Hproj; apply arange_nonneg].
    unfold softmax. apply Forall_map, Forall_forall. intros row _.
    apply softmax_row_nonneg. }
  pose proof (reshape_Forall _ _ _ _ Hq Hflat) as Hquads.
  apply Forall_map. eapply Forall_impl; [|exact Hquads]. intros q Hqd.
  apply Forall_map. eapply Forall_impl; [|exact Hqd]. simpl. intros d Hd.
  apply Rmult_le_pos; [exact Hd | apply IZR_le; exact Hs].
Qed.

(** ** Reconstructed boxes are ordered *)

Lemma take_Forall {A : Type} (P : A -> Prop) (a : list A) (inds : list nat)
    (r : list A) :
  take a inds = Ok r -> Forall P a -> Forall P r.
Proof.
  intros H Ha. unfold take in H. apply mapM_Forall2 in H.
  induction H as [|i x inds' r' Hx _ IH]; constructor; [|exact IH].
  unfold py_index in Hx. destruct (nth_error a i) as [y|] eqn:E; [|discriminate].
  injection Hx as <-. rewrite Forall_forall in Ha. apply Ha.
  apply (nth_error_In _ _ E).
Qed.

Lemma prune_level_Forall (P : list R -> Prop) (anchors anchors' : list (Z * Z))
    (bbox_pred cls_score bbox_pred' cls_score' : list (list R)) :
  prune_level anchors bbox_pred cls_score = Ok (anchors', bbox_pred', cls_score') ->
  Forall P bbox_pred -> Forall P bbox_pred'.
Proof.
  unfold prune_level. destruct (_ && _).
  - destruct (mapM amax cls_score) as [ms|]; [|discriminate]. simpl.
    destruct (take anchors _) as [a|]; [|discriminate]. simpl.
    destruct (take bbox_pred _) as [b|] eqn:Hb; [|discriminate]. simpl.
    destruct (take cls_score _) as [c|]; [|discriminate]. simpl.
    intros H; injection H as <- <- <-. apply (take_Forall _ _ _ _ Hb).
  - intros H; injection H as <- <- <-. auto.
Qed.

Lemma column_Forall (P : R -> Prop) (j : nat) (a : list (list R)) (col : list R) :
  column j a = Ok col -> Forall (Forall P) a ->
  Forall P col /\ length col = length a.
Proof.
  intros H Ha. split; [|apply (mapM_length _ _ _ H)].
  unfold column in H. apply mapM_Forall2 in H.
  induction H as [|row x a' col' Hx _ IH]; constructor.
  - inversion Ha as [|r0 a0 Hrow _]; subst.
    unfold py_index in Hx. destruct (nth_error row j) eqn:E; [|discriminate].
    injection Hx as <-. rewrite Forall_forall in Hrow. apply Hrow.
    apply (nth_error_In _ _ E).
  - apply IH. inversion Ha; assumption.
Qed.

Lemma Forall2_combine_spread (px d0 d2 : list R) :
  length d0 = length d2 ->
  Forall (fun d => 0 <= d) d0 -> Forall (fun d => 0 <= d) d2 ->
  Forall2 Rle (map (fun p => fst p - snd p) (combine px d0))
              (map (fun p => fst p + snd p) (combine px d2)).
Proof.
  revert d0 d2. induction px as [|x px IH]; intros d0 d2 Hlen H0 H2; simpl.
  - constructor.
  - destruct d0 as [|a d0], d2 as [|b d2]; simpl in *; try discriminate; [constructor|].
    inversion H0; inversion H2; subst.
    constructor; [lra | apply IH; auto].
Qed.

Lemma Forall2_point_spread (x : R) (d0 d2 : list R) :
  length d0 = length d2 ->
  Forall (fun d => 0 <= d) d0 -> Forall (fun d => 0 <= d) d2 ->
  Forall2 Rle (map (fun y => x - y) d0) (map (fun y => x + y) d2).
Proof.
  revert d2. induction d0 as [|a d0 IH]; intros [|b d2] Hlen H0 H2;
    simpl in *; try discriminate; [constructor|].
  inversion H0; inversion H2; subst. constructor; [lra | apply IH; auto].
Qed.

Lemma Forall2_spread_point (a b : R) (px : list R) :
  0 <= a -> 0 <= b ->
  Forall2 Rle (map (fun x => x - a) px) (map (fun x => x + b) px).
Proof.
  intros Ha Hb. induction px as [|x px IH]; simpl; constructor; [lra | exact IH].
Qed.

(** The low and the high edge computed from the same points, under the same
    broadcasting. *)
Lemma broadcast2_ordered (px d0 d2 x1 x2 : list R) :
  length d0 = length d2 ->
  Forall (fun d => 0 <= d) d0 -> Forall (fun d => 0 <= d) d2 ->
  broadcast2 Rminus px d0 = Ok x1 -> broadcast2 Rplus px d2 = Ok x2 ->
  Forall2 Rle x1 x2.
Proof.
  intros Hlen H0 H2. unfold broadcast2. rewrite Hlen.
  destruct (Nat.eqb (length px) (length d2)) eqn:E.
  - intros H1 H3. injection H1 as <-. injection H3 as <-.
    apply Forall2_combine_spread; assumption.
  - destruct px as [|x [|x' px]].
    + destruct d0 as [|a [|a' d0]], d2 as [|b [|b' d2]];
        simpl in *; try discriminate.
      intros H1 H3. injection H1 as <-. injection H3 as <-. constructor.
    + intros H1 H3. injection H1 as <-. injection H3 as <-.
      apply Forall2_point_spread; assumption.
    + destruct d0 as [|a [|a' d0]], d2 as [|b [|b' d2]];
        simpl in *; try discriminate.
      intros H1 H3. injection H1 as <-. injection H3 as <-.
      inversion H0; inversion H2; subst.
      apply (Forall2_spread_point a b (x :: x' :: px)); assumption.
Qed.

Lemma clip_mono (lo hi x y : R) : x <= y -> clip lo hi x <= clip lo hi y.
Proof.
  intros H. unfold clip.
  apply Rle_min_compat_r, Rle_max_compat_r, H.
Qed.

Lemma Forall2_clip (lo hi : R) (u v : list R) :
  Forall2 Rle u v -> Forall2 Rle (map (clip lo hi) u) (map (clip lo hi) v).
Proof.
  induction 1; simpl; constructor; [apply clip_mono|]; assumption.
Qed.

Lemma stack4_ordered (x1 y1 x2 y2 : list R) :
  Forall2 Rle x1 x2 -> Forall2 Rle y1 y2 -> Forall box_ordered (stack4 x1 y1 x2 y2).
Proof.
  intros Hx. revert y1 y2. induction Hx as [|a c x1 x2 Hac _ IH]; intros y1 y2 Hy.
  - simpl. constructor.
  - destruct Hy as [|b d y1 y2 Hbd Hy]; simpl; constructor.
    + split; assumption.
    + apply IH, Hy.
Qed.

Lemma distance2bbox_ordered (points : list (Z * Z)) (distance : list (list R))
    (max_shape : option (Z * Z)) (boxes : list Box) :
  Forall (Forall (fun d => 0 <= d)) distance ->
  distance2bbox points distance max_shape = Ok boxes ->
  Forall box_ordered boxes.
Proof.
  intros Hd. unfold distance2bbox.
  destruct (_ || _); [intros H; injection H as <-; constructor|].
  destruct (column 0 distance) as [d0|] eqn:E0; [|discriminate]. simpl.
  destruct (column 1 distance) as [d1|] eqn:E1; [|discriminate]. simpl.
  destruct (column 2 distance) as [d2|] eqn:E2; [|discriminate]. simpl.
  destruct (column 3 distance) as [d3|] eqn:E3; [|discriminate]. simpl.
  destruct (column_Forall _ _ _ _ E0 Hd) as [H0 L0].
  destruct (column_Forall _ _ _ _ E1 Hd) as [H1 L1].
  destruct (column_Forall _ _ _ _ E2 Hd) as [H2 L2].
  destruct (column_Forall _ _ _ _ E3 Hd) as [H3 L3].
  destruct (broadcast2 Rminus _ d0) as [x1|] eqn:B0; [|discriminate]. simpl.
  destruct (broadcast2 Rminus _ d1) as [y1|] eqn:B1; [|discriminate]. simpl.
  destruct (broadcast2 Rplus _ d2) as [x2|] eqn:B2; [|discriminate]. simpl.
  destruct (broadcast2 Rplus _ d3) as [y2|] eqn:B3; [|discriminate]. simpl.
  assert (Hx : Forall2 Rle x1 x2).
  { apply (broadcast2_ordered _ _ _ _ _ (eq_trans L0 (eq_sym L2)) H0 H2 B0 B2). }
  assert (Hy : Forall2 Rle y1 y2).
  { apply (broadcast2_ordered _ _ _ _ _ (eq_trans L1 (eq_sym L3)) H1 H3 B1 B3). }
  destruct max_shape as [[mh mw]|]; intros H; injection H as <-.
  - apply stack4_ordered; apply Forall2_clip; assumption.
  - apply stack4_ordered; assumption.
Qed.

(** ** Decoding a well-shaped tensor succeeds *)

Lemma split_chunks (k m : nat) (v : list R) :
  length v = (m * k)%nat ->
  exists vs, concat vs = v /\ length vs = m /\ Forall (fun c => length c = k) vs.
Proof.
  revert v. induction m as [|m IH]; intros v Hv.
  - exists []. destruct v; [|discriminate]. repeat split. constructor.
  - destruct (IH (skipn k v)) as (vs & Hc & Hl & Hf).
    { rewrite length_skipn. simpl in Hv. lia. }
    exists (firstn k v :: vs). simpl. rewrite Hc, firstn_skipn, Hl.
    repeat split. constructor; [|exact Hf].
    rewrite length_firstn. simpl in Hv. lia.
Qed.

Lemma Forall_exists_list {A B : Type} (Rel : A -> B -> Prop) (l : list A) :
  Forall (fun a => exists b, Rel a b) l -> exists bs, Forall2 Rel l bs.
Proof.
  induction 1 as [|a l [b Hb] _ [bs IH]].
  - exists []. constructor.
  - exists (b :: bs). constructor; assumption.
Qed.

Lemma decode_distances_total (self : NanoDet) (stride : Z) (bbox_pred : list (list R)) :
  project self = np.arange 0 (reg_max self + 1) -> (0 <= reg_max self)%Z ->
  Forall (fun row => length row = (4 * Z.to_nat (reg_max self + 1))%nat) bbox_pred ->
  exists dist,
    decode_distances self stride bbox_pred = Ok dist /\
    length dist = length bbox_pred /\
    Forall (fun q => length q = 4%nat) dist.
Proof.
  intros Hproj Hreg Hrows.
  set (k := Z.to_nat (reg_max self + 1)) in *.
  assert (Hq : exists quads,
             Forall2 (fun row q => concat q = row /\ length q = 4%nat /\
                                   Forall (fun c => length c = k) q)
                     bbox_pred quads).
  { apply Forall_exists_list. eapply Forall_impl; [|exact Hrows].
    intros row Hrow. apply split_chunks. exact Hrow. }
  destruct Hq as [quads Hq].
  assert (Hmap : map (@concat R) quads = bbox_pred).
  { induction Hq as [|row q rows qs (Hc & _) _ IH]; simpl; [reflexivity|].
    rewrite Hc, IH; [reflexivity|]. inversion Hrows; assumption. }
  assert (Hquads : Forall (fun q => length q = 4%nat /\
                                    Forall (fun v => length v = k) q) quads).
  { clear Hmap. induction Hq as [|row q rows qs (_ & H4 & Hk) _ IH]; constructor.
    - split; assumption.
    - apply IH. inversion Hrows; assumption. }
  exists (map (map (fun v => expected_value self v * IZR stride)) quads).
  split; [|split].
  - rewrite <- Hmap. apply decode_distances_quads; assumption.
  - rewrite length_map, <- Hmap, length_map. reflexivity.
  - apply Forall_map. eapply Forall_impl; [|exact Hquads].
    intros q [H4 _]. rewrite length_map. exact H4.
Qed.

Lemma amax_nonempty (row : list R) :
  row <> [] ->
  amax row = Ok (match row with [] => 0 | x :: r => fold_left Rmax r x end).
Proof. destruct row; [congruence | reflexivity]. Qed.

Lemma mapM_amax_total (rows : list (list R)) :
  Forall (fun row => row <> []) rows -> exists ms, mapM amax rows = Ok ms.
Proof.
  intros H. eexists. apply mapM_ok. eapply Forall_impl; [|exact H].
  intros row Hrow. apply (amax_nonempty row Hrow).
Qed.

Lemma mapM_argmax_total (rows : list (list R)) :
  Forall (fun row => row <> []) rows -> exists ids, mapM argmax rows = Ok ids.
Proof.
  intros H.
  exists (map (fun row => match row with [] => 0%nat | x :: r => argmax_from 0 x 1 r end)
              rows).
  apply mapM_ok. eapply Forall_impl; [|exact H].
  intros [|x r] Hrow; [congruence | reflexivity].
Qed.

Lemma prune_level_total (P Q : list R -> Prop) (anchors : list (Z * Z))
    (bbox_pred cls_score : list (list R)) :
  length anchors = length cls_score -> length bbox_pred = length cls_score ->
  Forall (fun row => row <> []) cls_score ->
  Forall P bbox_pred -> Forall Q cls_score ->
  exists anchors' bbox_pred' cls_score',
    prune_level anchors bbox_pred cls_score = Ok (anchors', bbox_pred', cls_score') /\
    length anchors' = length cls_score' /\ length bbox_pred' = length cls_score' /\
    Forall P bbox_pred' /\ Forall Q cls_score'.
Proof.
  intros Ha Hb Hne HP HQ.
  destruct (Nat.ltb nms_pre (length cls_score)) eqn:Hover.
  - apply Nat.ltb_lt in Hover.
    destruct (mapM_amax_total cls_score Hne) as [ms Hms].
    pose proof (prune_level_over anchors bbox_pred cls_score ms Hover) as Hp.
    cbv zeta in Hp. rewrite Hp by (assumption || lia).
    eexists _, _, _. split; [reflexivity|].
    rewrite !length_map. repeat split.
    + apply Forall_map, Forall_forall. intros i Hi.
      apply topk_inds_In in Hi. rewrite (mapM_length _ _ _ Hms) in Hi.
      rewrite Forall_forall in HP. apply HP, nth_In. lia.
    + apply Forall_map, Forall_forall. intros i Hi.
      apply topk_inds_In in Hi. rewrite (mapM_length _ _ _ Hms) in Hi.
      rewrite Forall_forall in HQ. apply HQ, nth_In. lia.
  - exists anchors, bbox_pred, cls_score. unfold prune_level. rewrite Hover.
    rewrite andb_false_r. repeat split; assumption.
Qed.

Lemma column_total (j : nat) (a : list (list R)) :
  Forall (fun row => length row = 4%nat) a -> (j < 4)%nat ->
  column j a = Ok (map (fun row => nth j row 0) a).
Proof.
  intros Ha Hj. unfold column. apply mapM_ok.
  eapply Forall_impl; [|exact Ha]. intros row Hrow. cbv beta in Hrow.
  unfold py_index. rewrite (nth_error_nth' row 0); [reflexivity | lia].
Qed.

Lemma broadcast2_same_length {A : Type} (f : A -> A -> A) (a b : list A) :
  length a = length b ->
  broadcast2 f a b = Ok (map (fun p => f (fst p) (snd p)) (combine a b)).
Proof.
  intros H. unfold broadcast2. rewrite H, Nat.eqb_refl. reflexivity.
Qed.

Lemma stack4_length (x1 y1 x2 y2 : list R) :
  length y1 = length x1 -> length x2 = length x1 -> length y2 = length x1 ->
  length (stack4 x1 y1 x2 y2) = length x1.
Proof.
  revert y1 x2 y2. induction x1 as [|a x1 IH]; intros [|b y1] [|c x2] [|d y2];
    simpl; try discriminate; try reflexivity.
  intros H1 H2 H3. rewrite IH; [reflexivity | lia | lia | lia].
Qed.

Lemma distance2bbox_total (points : list (Z * Z)) (distance : list (list R))
    (max_shape : option (Z * Z)) :
  length points = length distance ->
  Forall (fun row => length row = 4%nat) distance ->
  exists boxes,
    distance2bbox points distance max_shape = Ok boxes /\
    length boxes = length points.
Proof.
  intros Hlen Hrows. unfold distance2bbox.
  destruct (Nat.eqb (length points) 0 || Nat.eqb (length (np.flatten distance)) 0)
    eqn:Hempty.
  - exists []. split; [reflexivity|].
    apply orb_true_iff in Hempty. destruct Hempty as [H|H]; apply Nat.eqb_eq in H.
    + simpl. lia.
    + unfold np.flatten in H. rewrite (concat_uniform_length 4) in H by exact Hrows.
      simpl. lia.
  - rewrite !column_total by (assumption || lia). simpl.
    rewrite !broadcast2_same_length by (rewrite !length_map; exact Hlen). simpl.
    destruct max_shape as [[mh mw]|]; eexists; (split; [reflexivity|]);
      rewrite stack4_length; rewrite ?length_map, ?length_combine, ?length_map; lia.
Qed.

Lemma decode_levels_total (Q : list R -> Prop) (self : NanoDet)
    (levels : list (Z * list (Z * Z))) (ind : nat) (preds : list (list R)) :
  project self = np.arange 0 (reg_max self + 1) -> (0 <= reg_max self)%Z ->
  (0 < num_classes self)%nat ->
  (ind + length (concat (map snd levels)) <= length preds)%nat ->
  Forall (fun row =>
            length row = (num_classes self + 4 * Z.to_nat (reg_max self + 1))%nat)
         preds ->
  Forall (fun row => Q (firstn (num_classes self) row)) preds ->
  exists mlvl_bboxes mlvl_scores,
    decode_levels self levels ind preds = Ok (mlvl_bboxes, mlvl_scores) /\
    Forall (Forall (fun row => length row = num_classes self /\ Q row)) mlvl_scores.
Proof.
  intros Hproj Hreg Hnc. revert ind.
  induction levels as [|[stride anchors] levels IH]; intros ind Hlen Hrows HQ; simpl.
  - exists [], []. split; [reflexivity | constructor].
  - simpl in Hlen. rewrite length_app in Hlen.
    set (rows := firstn (length anchors) (skipn ind preds)).
    assert (Hn : length rows = length anchors).
    { unfold rows. rewrite length_firstn, length_skipn. lia. }
    assert (Hsub : forall row, In row rows -> In row preds).
    { intros row Hin. unfold rows in Hin. apply firstn_In in Hin.
      rewrite <- (firstn_skipn ind preds). apply in_or_app. right. exact Hin. }
    assert (Hrows' : Forall (fun row => length row =
               (num_classes self + 4 * Z.to_nat (reg_max self + 1))%nat) rows).
    { apply Forall_forall. intros row Hin.
      rewrite Forall_forall in Hrows. apply Hrows, Hsub, Hin. }
    assert (HQ' : Forall (fun row => Q (firstn (num_classes self) row)) rows).
    { apply Forall_forall. intros row Hin.
      rewrite Forall_forall in HQ. apply HQ, Hsub, Hin. }
    destruct (decode_distances_total self stride (map (skipn (num_classes self)) rows))
      as (dist & Hdist & Hdl & Hd4); [assumption | assumption | |].
    { apply Forall_map. eapply Forall_impl; [|exact Hrows'].
      intros row Hrow. cbv beta in Hrow. rewrite length_skipn. lia. }
    rewrite Hdist. simpl.
    destruct (prune_level_total (fun q => length q = 4%nat)
                (fun row => length row = num_classes self /\ Q row)
                anchors dist (map (firstn (num_classes self)) rows))
      as (a' & b' & c' & Hp & Hla & Hlb & Hb4 & Hc).
    { rewrite length_map. lia. }
    { rewrite Hdl, !length_map. reflexivity. }
    { apply Forall_map. eapply Forall_impl; [|exact Hrows'].
      intros row Hrow Hnil. cbv beta in Hrow. apply (f_equal (@length R)) in Hnil.
      rewrite length_firstn in Hnil. simpl in Hnil. lia. }
    { exact Hd4. }
    { apply Forall_map. apply Forall_forall. intros row Hin.
      rewrite Forall_forall in Hrows', HQ'. split; [|apply HQ', Hin].
      rewrite length_firstn, (Hrows' row Hin). lia. }
    rewrite Hp. simpl.
    destruct (distance2bbox_total a' b' (Some (input_shape self)))
      as (boxes & Hbx & _); [lia | exact Hb4 |].
    rewrite Hbx. simpl.
    destruct (IH (ind + length anchors)%nat) as (mb & ms & Hrec & Hms);
      [lia | exact Hrows | exact HQ |].
    rewrite Hrec. simpl.
    exists (boxes :: mb), (c' :: ms). split; [reflexivity|].
    constructor; assumption.
Qed.

Lemma init_levels (labels : list string) (ishape oshape : list Z) (pt it : R)
    (self : NanoDet) :
  __init__ labels ishape oshape pt it = Ok self ->
  map snd (combine (strides self) (mlvl_anchors self)) = mlvl_anchors self /\
  Forall (fun l => (0 <= fst l)%Z) (combine (strides self) (mlvl_anchors self)).
Proof.
  intros H. destruct (init_anchors _ _ _ _ _ _ H) as [Hs Ha].
  rewrite Ha, Hs. simpl. split; [reflexivity|].
  repeat constructor; simpl; lia.
Qed.

(** Post-processing a well-shaped tensor never fails. *)
Lemma post_process_total (Q : list R -> Prop) (labels : list string)
    (ishape oshape : list Z) (pt it : R)
    (self : NanoDet) (preds : list (list R)) (sf : R) (rs : bool) :
  __init__ labels ishape oshape pt it = Ok self ->
  (0 < num_classes self)%nat -> (0 <= reg_max self)%Z ->
  preds_shape_ok self preds ->
  Forall (fun row => Q (firstn (num_classes self) row)) preds ->
  exists mlvl_bboxes mlvl_scores classIds confidences,
    decode_levels self (combine (strides self) (mlvl_anchors self)) 0 preds =
      Ok (mlvl_bboxes, mlvl_scores) /\
    Forall (fun row => row <> [] /\ Q row) (concat mlvl_scores) /\
    mapM argmax (concat mlvl_scores) = Ok classIds /\
    mapM amax (concat mlvl_scores) = Ok confidences /\
    post_process self preds sf rs =
    suppress self
      (if rs then map (box_div sf) (concat mlvl_bboxes) else concat mlvl_bboxes)
      confidences classIds /\
    length classIds = length confidences.
Proof.
  intros Hinit Hnc Hreg [Hlen Hrows] HQ.
  destruct (init_levels _ _ _ _ _ _ Hinit) as [Hsnd _].
  destruct (decode_levels_total Q self (combine (strides self) (mlvl_anchors self))
              0 preds) as (mb & ms & Hd & Hms); try assumption.
  { apply (init_project _ _ _ _ _ _ Hinit). }
  { rewrite Hsnd. simpl. exact Hlen. }
  assert (Hne : Forall (fun row : list R => row <> [] /\ Q row) (concat ms)).
  { apply Forall_concat. eapply Forall_impl; [|exact Hms]. intros lvl Hlvl.
    eapply Forall_impl; [|exact Hlvl]. intros row [Hrow HQrow].
    split; [|exact HQrow]. intros ->. simpl in Hrow. lia. }
  assert (Hne' : Forall (fun row : list R => row <> []) (concat ms)).
  { eapply Forall_impl; [|exact Hne]. intros row [H _]. exact H. }
  destruct (mapM_argmax_total _ Hne') as [ids Hids].
  destruct (mapM_amax_total _ Hne') as [conf Hconf].
  exists mb, ms, ids, conf. repeat split; try assumption;
    apply (post_process_decoded _ _ sf rs _ _ _ _ Hd Hids Hconf).
Qed.

Lemma decode_levels_ordered (self : NanoDet) (levels : list (Z * list (Z * Z)))
    (ind : nat) (preds : list (list R)) (mlvl_bboxes : list (list Box))
    (mlvl_scores : list (list (list R))) :
  project self = np.arange 0 (reg_max self + 1) ->
  Forall (fun l => (0 <= fst l)%Z) levels ->
  decode_levels self levels ind preds = Ok (mlvl_bboxes, mlvl_scores) ->
  Forall (Forall box_ordered) mlvl_bboxes.
Proof.
  intros Hproj Hlv. revert ind mlvl_bboxes mlvl_scores.
  induction Hlv as [|[stride anchors] levels Hs _ IH]; intros ind mb ms; simpl.
  - intros H; injection H as <- <-. constructor.
  - destruct (decode_distances self stride _) as [dist|] eqn:Hd; [|discriminate].
    simpl.
    destruct (prune_level anchors dist _) as [[[a' b'] c']|] eqn:Hp; [|discriminate].
    simpl.
    destruct (distance2bbox a' b' _) as [boxes|] eqn:Hb; [|discriminate]. simpl.
    destruct (decode_levels self levels _ preds) as [[mb' ms']|] eqn:Hrec;
      [|discriminate]. simpl.
    intros H; injection H as <- <-. constructor; [|apply (IH _ _ _ Hrec)].
    apply (distance2bbox_ordered _ _ _ _ (prune_level_Forall _ _ _ _ _ _ _ Hp
             (decode_distances_nonneg _ _ _ _ Hproj Hs Hd)) Hb).
Qed.

Lemma box_div_ordered (sf : R) (b : Box) :
  0 < sf -> box_ordered b -> box_ordered (box_div sf b).
Proof.
  intros Hsf. destruct b as [[[x1 y1] x2] y2]. unfold box_ordered, box_div.
  intros [Hx Hy]. split; apply Rmult_le_compat_r; try assumption;
    apply Rlt_le, Rinv_0_lt_compat, Hsf.
Qed.

Lemma tiny_preds_shape : preds_shape_ok tiny tiny_preds.
Proof. split; [simpl; lia | repeat constructor]. Qed.

(** ** Empty results *)

Lemma fold_left_Rmax_lt (t : R) (r : list R) (x : R) :
  x < t -> Forall (fun s => s < t) r -> fold_left Rmax r x < t.
Proof.
  revert x. induction r as [|a r IH]; simpl; intros x Hx Hr; [exact Hx|].
  inversion Hr; subst. apply IH; [|assumption].
  apply Rmax_lub_lt; assumption.
Qed.

Lemma amax_below (t : R) (rows : list (list R)) (conf : list R) :
  mapM amax rows = Ok conf ->
  Forall (fun row => Forall (fun s => s < t) row) rows ->
  Forall (fun s => s < t) conf.
Proof.
  intros H Hrows. apply mapM_Forall2 in H.
  induction H as [|row m rows' conf' Hm _ IH]; constructor.
  - inversion Hrows as [|r0 rs Hrow _]; subst.
    destruct row as [|x r]; [discriminate|]. injection Hm as <-.
    inversion Hrow; subst. apply fold_left_Rmax_lt; assumption.
  - apply IH. inversion Hrows; assumption.
Qed.

(** No candidate reaches the threshold: nothing is selected. *)
Lemma NMS_select_none (bboxes : list Box) (scores : list R) (t it : R) :
  Forall (fun s => s < t) scores -> NMS_select bboxes scores t it = [].
Proof.
  intros H. unfold NMS_select.
  assert (filter (passes t) (combine (seq 0 (length scores)) (combine bboxes scores))
          = []) as ->; [|simp greedy; reflexivity].
  destruct (filter _ _) as [|c l] eqn:E; [reflexivity|].
  assert (In c (c :: l)) as Hc by (left; reflexivity).
  rewrite <- E in Hc. apply filter_In in Hc. destruct Hc as [Hin Hp].
  destruct c as [i [b s]]. apply in_combine_r, in_combine_r in Hin.
  rewrite Forall_forall in H. specialize (H s Hin).
  unfold passes, cand_score in Hp. simpl in Hp.
  apply negb_true_iff, Rltb_false in Hp. lra.
Qed.

Lemma init_keep_ratio (labels : list string) (ishape oshape : list Z) (pt it : R)
    (self : NanoDet) :
  __init__ labels ishape oshape pt it = Ok self -> keep_ratio self = false.
Proof.
  init_fields. reflexivity.
Qed.

Lemma resize_image_stretch (self : NanoDet) (srcimg_shape : Z * Z) :
  resize_image self srcimg_shape false =
  Ok (fst (input_shape self), snd (input_shape self), 0%Z, 0%Z).
Proof.
  unfold resize_image. destruct srcimg_shape as [src_h src_w].
  destruct (input_shape self) as [in_h in_w]. reflexivity.
Qed.

(** C6, as the code behaves.  Box reconstruction from zero anchors or zero
    distances returns the empty box set.  But when no class score of a
    well-shaped tensor reaches [prob_threshold], [cv2.dnn.NMSBoxes] hands
    back the empty tuple, the [flatten] of line 247 raises [AttributeError],
    and neither [post_process] nor [detect] reaches the branch of lines 253
    to 255 that would return empty arrays. *)
Theorem empty_selection_raises (labels : list string) (ishape oshape : list Z)
    (pt it : R) (self : NanoDet) (preds : list (list R)) (srcimg_shape : Z * Z) :
  __init__ labels ishape oshape pt it = Ok self ->
  (0 < num_classes self)%nat -> (0 <= reg_max self)%Z ->
  preds_shape_ok self preds ->
  Forall (fun row => Forall (fun s => s < prob_threshold self)
                            (firstn (num_classes self) row)) preds ->
  (forall points distance max_shape,
     points = [] \/ np.flatten distance = [] ->
     distance2bbox points distance max_shape = Ok []) /\
  (forall sf rs, post_process self preds sf rs = Raise AttributeError) /\
  detect self srcimg_shape preds = Raise AttributeError.
Proof.
  intros Hinit Hnc Hreg Hshape Hlow.
  assert (Hpp : forall sf rs, post_process self preds sf rs = Raise AttributeError).
  { intros sf rs.
    destruct (post_process_total (Forall (fun s => s < prob_threshold self))
                _ _ _ _ _ self preds sf rs Hinit Hnc Hreg Hshape Hlow)
      as (mb & ms & ids & conf & _ & Hrows & _ & Hconf & -> & Hlen).
    rewrite suppress_selected by exact Hlen.
    rewrite NMS_select_none; [reflexivity|].
    apply (amax_below _ _ _ Hconf).
    eapply Forall_impl; [|exact Hrows]. intros row [_ H]. exact H. }
  split; [|split; [exact Hpp|]].
  - intros points distance max_shape [-> | Hd]; unfold distance2bbox.
    + reflexivity.
    + rewrite Hd. simpl. rewrite orb_true_r. reflexivity.
  - unfold detect. destruct srcimg_shape as [src_h src_w].
    rewrite (init_keep_ratio _ _ _ _ _ _ Hinit), resize_image_stretch. simpl.
    rewrite Hpp. reflexivity.
Qed.

Lemma tiny_with_preds_shape (pt it : R) : preds_shape_ok (tiny_with pt it) tiny_preds.
Proof. split; [simpl; lia | repeat constructor]. Qed.

Lemma empty_selection_raises_witness :
  (forall points distance max_shape,
     points = [] \/ np.flatten distance = [] ->
     distance2bbox points distance max_shape = Ok []) /\
  (forall sf rs,
     post_process (tiny_with 0.95 0.3) tiny_preds sf rs = Raise AttributeError) /\
  detect (tiny_with 0.95 0.3) (480, 640)%Z tiny_preds = Raise AttributeError.
Proof.
  apply (empty_selection_raises _ _ _ _ _ (tiny_with 0.95 0.3) tiny_preds
           (480, 640)%Z (init_tiny_with 0.95 0.3)).
  - simpl. lia.
  - simpl. lia.
  - apply tiny_with_preds_shape.
  - unfold tiny_preds. simpl. repeat constructor; lra.
Defined.

(** ** Construction *)

(** C7, as the code has it.  The constructor does not look at the
    thresholds: it stores [prob_threshold] and [iou_threshold] as given,
    whatever their values, and whether it raises depends on the other
    arguments only. *)
Theorem init_thresholds_unchecked (labels : list string) (ishape oshape : list Z)
    (pt it : R) :
  match __init__ labels ishape oshape pt it with
  | Ok self => prob_threshold self = pt /\ iou_threshold self = it
  | Raise e => forall pt' it', __init__ labels ishape oshape pt' it' = Raise e
  end.
Proof.
  unfold __init__, bind.
  destruct (py_index ishape 2) as [in_h|]; [|reflexivity].
  destruct (py_index ishape 3) as [in_w|]; [|reflexivity].
  destruct (py_last oshape) as [out_last|]; [|reflexivity].
  simpl. split; reflexivity.
Qed.

(** C7 as stated fails: a confidence threshold of 2 and an IoU threshold of
    -1, both outside [[0, 1]], are accepted. *)
Lemma init_thresholds_counterexample :
  ~ (0 <= 2 <= 1) /\ ~ (0 <= -1 <= 1) /\
  __init__ ["person"%string] [1; 3; 8; 8]%Z [1; 4; 9]%Z 2 (-1) =
  Ok (tiny_with 2 (-1)).
Proof.
  split; [lra|]. split; [lra|]. reflexivity.
Qed.

(** ** Coordinate remapping *)

Lemma py_int_nonneg (x : R) :
  0 <= x -> (0 <= py_int x)%Z /\ IZR (py_int x) <= x < IZR (py_int x) + 1.
Proof.
  intros Hx. unfold py_int. destruct (Rle_dec 0 x) as [_|]; [|contradiction].
  destruct (base_Int_part x) as [Hlo Hhi]. split; [|lra].
  apply Z.lt_succ_r, lt_IZR. rewrite succ_IZR. lra.
Qed.

Lemma py_int_le (x : R) (n : Z) : 0 <= x -> x <= IZR n -> (py_int x <= n)%Z.
Proof.
  intros H0 Hn. destruct (py_int_nonneg x H0) as [_ [Hlo _]].
  apply le_IZR. lra.
Qed.

Lemma py_int_value (x : R) (z : Z) :
  0 <= x -> IZR z <= x < IZR z + 1 -> py_int x = z.
Proof.
  intros Hx Hz. unfold py_int. destruct (Rle_dec 0 x) as [_|]; [|contradiction].
  symmetry. apply Int_part_spec. lra.
Qed.

Lemma clip_inside (lo hi x : R) : lo <= x <= hi -> clip lo hi x = x.
Proof.
  intros [H1 H2]. unfold clip. rewrite Rmax_left by exact H1.
  apply Rmin_left. exact H2.
Qed.

Lemma clip_bounds (lo hi x : R) : lo <= hi -> lo <= clip lo hi x <= hi.
Proof.
  intros H. unfold clip. split; [|apply Rmin_r].
  apply Rmin_glb; [apply Rmax_r | exact H].
Qed.

Lemma stack4_Forall (P1 P2 P3 P4 : R -> Prop) (x1 y1 x2 y2 : list R) :
  Forall P1 x1 -> Forall P2 y1 -> Forall P3 x2 -> Forall P4 y2 ->
  Forall (fun b : Box => let '(a, b', c, d) := b in P1 a /\ P2 b' /\ P3 c /\ P4 d)
         (stack4 x1 y1 x2 y2).
Proof.
  intros H1. revert y1 x2 y2.
  induction H1 as [|a x1 Ha _ IH]; intros y1 x2 y2 H2 H3 H4; [constructor|].
  destruct H2 as [|b y1 Hb H2]; [constructor|].
  destruct H3 as [|c x2 Hc H3]; [constructor|].
  destruct H4 as [|d y2 Hd H4]; [constructor|].
  simpl. constructor; [auto | apply IH; assumption].
Qed.

Lemma Forall_clip (lo hi : R) (l : list R) :
  lo <= hi -> Forall (fun v => lo <= v <= hi) (map (clip lo hi) l).
Proof.
  intros H. apply Forall_map, Forall_forall. intros x _. apply clip_bounds, H.
Qed.

Lemma distance2bbox_within (points : list (Z * Z)) (distance : list (list R))
    (mh mw : Z) (boxes : list Box) :
  (0 <= mh)%Z -> (0 <= mw)%Z ->
  distance2bbox points distance (Some (mh, mw)) = Ok boxes ->
  Forall (box_within mh mw) boxes.
Proof.
  intros Hh Hw. unfold distance2bbox.
  destruct (_ || _); [intros H; injection H as <-; constructor|].
  destruct (column 0 distance) as [d0|]; [|discriminate]. simpl.
  destruct (column 1 distance) as [d1|]; [|discriminate]. simpl.
  destruct (column 2 distance) as [d2|]; [|discriminate]. simpl.
  destruct (column 3 distance) as [d3|]; [|discriminate]. simpl.
  destruct (broadcast2 Rminus _ d0) as [x1|]; [|discriminate]. simpl.
  destruct (broadcast2 Rminus _ d1) as [y1|]; [|discriminate]. simpl.
  destruct (broadcast2 Rplus _ d2) as [x2|]; [|discriminate]. simpl.
  destruct (broadcast2 Rplus _ d3) as [y2|]; [|discriminate]. simpl.
  intros H; injection H as <-.
  apply IZR_le in Hh, Hw.
  pose proof (stack4_Forall _ _ _ _ _ _ _ _
                (Forall_clip 0 (IZR mw) x1 Hw) (Forall_clip 0 (IZR mh) y1 Hh)
                (Forall_clip 0 (IZR mw) x2 Hw) (Forall_clip 0 (IZR mh) y2 Hh)) as H.
  eapply Forall_impl; [|exact H]. intros [[[a b] c] d]. unfold box_within. tauto.
Qed.

Lemma decode_levels_within (self : NanoDet) (levels : list (Z * list (Z * Z)))
    (ind : nat) (preds : list (list R)) (mlvl_bboxes : list (list Box))
    (mlvl_scores : list (list (list R))) :
  (0 <= fst (input_shape self))%Z -> (0 <= snd (input_shape self))%Z ->
  decode_levels self levels ind preds = Ok (mlvl_bboxes, mlvl_scores) ->
  Forall (Forall (box_within (fst (input_shape self)) (snd (input_shape self))))
         mlvl_bboxes.
Proof.
  intros Hh Hw. revert ind mlvl_bboxes mlvl_scores.
  induction levels as [|[stride anchors] levels IH]; intros ind mb ms; simpl.
  - intros H; injection H as <- <-. constructor.
  - destruct (decode_distances self stride _) as [dist|]; [|discriminate]. simpl.
    destruct (prune_level anchors dist _) as [[[a' b'] c']|]; [|discriminate].
    simpl.
    destruct (distance2bbox a' b' _) as [boxes|] eqn:Hb; [|discriminate]. simpl.
    destruct (decode_levels self levels _ preds) as [[mb' ms']|] eqn:Hrec;
      [|discriminate]. simpl.
    intros H; injection H as <- <-. constructor; [|apply (IH _ _ _ Hrec)].
    destruct (input_shape self) as [mh mw]. simpl in *.
    apply (distance2bbox_within _ _ _ _ _ Hh Hw Hb).
Qed.

(** The boxes post-processing returns, when it does not rescale, lie in the
    input tensor. *)
Lemma post_process_within (self : NanoDet) (preds : list (list R)) (sf : R)
    (out_b : list Box) (out_c : list R) (out_ids : list nat) :
  (0 <= fst (input_shape self))%Z -> (0 <= snd (input_shape self))%Z ->
  post_process self preds sf false = Ok (out_b, out_c, out_ids) ->
  Forall (box_within (fst (input_shape self)) (snd (input_shape self))) out_b /\
  length out_c = length out_b /\ length out_ids = length out_b.
Proof.
  intros Hh Hw H.
  destruct (post_process_inv _ _ _ _ _ H) as (mb & ms & ids & conf & Hd & Hi & Hc).
  pose proof (decode_levels_within _ _ _ _ _ _ Hh Hw Hd) as Hin.
  destruct (post_process_decoded _ _ sf false _ _ _ _ Hd Hi Hc) as [Hpp Hlen].
  rewrite Hpp in H. apply (suppress_returned _ _ _ _ _ Hlen) in H.
  destruct H as [_ H].
  injection H as <- <- <-. rewrite !length_map. repeat split.
  apply Forall_concat in Hin.
  apply Forall_map, Forall_forall. intros c _.
  destruct (Nat.lt_ge_cases (fst c) (length (concat mb))) as [Hlt|Hge].
  - rewrite Forall_forall in Hin. apply Hin, nth_In, Hlt.
  - rewrite nth_overflow by exact Hge. unfold box_within.
    apply IZR_le in Hh, Hw. simpl in *. lra.
Qed.

Lemma remap_in_range (src_h src_w top left_ : Z) (ratioh ratiow : R)
    (b0 b1 b2 b3 : R) :
  let v0 := (b0 - IZR left_) * ratiow in
  let v1 := (b1 - IZR top) * ratioh in
  let v2 := (b2 - IZR left_) * ratiow in
  let v3 := (b3 - IZR top) * ratioh in
  0 <= v0 <= IZR src_w -> 0 <= v1 <= IZR src_h ->
  0 <= v2 <= IZR src_w -> 0 <= v3 <= IZR src_h ->
  exists xmin ymin xmax ymax,
    remap src_h src_w top left_ ratioh ratiow (b0, b1, b2, b3) =
      (xmin, ymin, xmax, ymax) /\
    ((0 <= xmin <= src_w)%Z /\ floor_of v0 xmin) /\
    ((0 <= ymin <= src_h)%Z /\ floor_of v1 ymin) /\
    ((0 <= xmax <= src_w)%Z /\ floor_of v2 xmax) /\
    ((0 <= ymax <= src_h)%Z /\ floor_of v3 ymax).
Proof.
  intros v0 v1 v2 v3 [L0 U0] [L1 U1] [L2 U2] [L3 U3].
  destruct (py_int_nonneg v0 L0) as [P0 F0], (py_int_nonneg v1 L1) as [P1 F1],
           (py_int_nonneg v2 L2) as [P2 F2], (py_int_nonneg v3 L3) as [P3 F3].
  pose proof (py_int_le v0 src_w L0 U0) as Q0.
  pose proof (py_int_le v1 src_h L1 U1) as Q1.
  pose proof (py_int_le v2 src_w L2 U2) as Q2.
  pose proof (py_int_le v3 src_h L3 U3) as Q3.
  exists (py_int v0), (py_int v1), (py_int v2), (py_int v3).
  split.
  - unfold remap. fold v0 v1 v2 v3.
    rewrite !Z.max_l, !Z.min_l by assumption. reflexivity.
  - unfold floor_of. repeat split; assumption || lia || lra.
Qed.

Lemma Forall2_from_nth {A B : Type} (P : A -> B -> Prop) (l1 : list A) (l2 : list B) :
  length l1 = length l2 ->
  (forall i x y, nth_error l1 i = Some x -> nth_error l2 i = Some y -> P x y) ->
  Forall2 P l1 l2.
Proof.
  revert l2. induction l1 as [|a l1 IH]; intros [|b l2] Hlen H;
    simpl in Hlen; try discriminate; constructor.
  - apply (H 0%nat); reflexivity.
  - apply IH; [lia|]. intros i x y Hx Hy. apply (H (S i)); assumption.
Qed.

Lemma mapM_nth_error {A B : Type} (f : A -> result B) (l : list A) (r : list B) :
  mapM f l = Ok r ->
  forall i a y, nth_error l i = Some a -> nth_error r i = Some y -> f a = Ok y.
Proof.
  intros H. apply mapM_Forall2 in H.
  induction H as [|a0 y0 l' r' Hf _ IH]; intros [|i] a y Ha Hy; simpl in *;
    try discriminate.
  - injection Ha as <-. injection Hy as <-. exact Hf.
  - apply (IH i); assumption.
Qed.

Lemma scale_bounds (x : R) (w W : Z) :
  (0 < w)%Z -> (0 <= W)%Z -> 0 <= x <= IZR w ->
  0 <= x * (IZR W / IZR w) <= IZR W.
Proof.
  intros Hw HW [Hx0 Hx1]. apply IZR_lt in Hw. apply IZR_le in HW.
  assert (Hinv : 0 < / IZR w) by (apply Rinv_0_lt_compat; exact Hw).
  assert (Hone : IZR w * / IZR w = 1) by (field; lra).
  unfold Rdiv. split.
  - apply Rmult_le_pos; [exact Hx0|]. apply Rmult_le_pos; lra.
  - replace (x * (IZR W * / IZR w)) with (IZR W * (x * / IZR w)) by ring.
    rewrite <- (Rmult_1_r (IZR W)) at 2.
    apply Rmult_le_compat_l; [exact HW|].
    rewrite <- Hone. apply Rmult_le_compat_r; lra.
Qed.

(** ** [detect] on a well-shaped tensor *)

Lemma mapM_total {A B : Type} (f : A -> result B) (l : list A) :
  Forall (fun a => exists b, f a = Ok b) l -> exists bs, mapM f l = Ok bs.
Proof.
  induction 1 as [|a l [b Hb] _ [bs IH]]; simpl.
  - exists []. reflexivity.
  - exists (b :: bs). rewrite Hb, IH. reflexivity.
Qed.

Lemma mapM_ext {A B : Type} (f g : A -> result B) (l : list A) :
  (forall a, f a = g a) -> mapM f l = mapM g l.
Proof.
  intros H. induction l as [|a l IH]; simpl; [reflexivity|].
  rewrite H, IH. reflexivity.
Qed.

Lemma argmax_from_bound (r : list R) (best : nat) (vbest : R) (i : nat) :
  (best < i)%nat -> (argmax_from best vbest i r < i + length r)%nat.
Proof.
  revert best vbest i. induction r as [|v r IH]; intros best vbest i Hb; simpl.
  - lia.
  - destruct (Rltb vbest v).
    + specialize (IH i v (S i)). lia.
    + specialize (IH best vbest (S i)). lia.
Qed.

Lemma argmax_bound (rows : list (list R)) (ids : list nat) (n : nat) :
  mapM argmax rows = Ok ids ->
  Forall (fun row => length row = n) rows ->
  Forall (fun k => (k < n)%nat) ids.
Proof.
  intros H Hrows. apply mapM_Forall2 in H.
  induction H as [|row k rows' ids' Hk _ IH]; constructor.
  - inversion Hrows as [|r0 rs Hrow _]; subst.
    destruct row as [|x r]; [discriminate|]. injection Hk as <-.
    pose proof (argmax_from_bound r 0 x 1). simpl. lia.
  - apply IH. inversion Hrows; assumption.
Qed.

Lemma init_classes (labels : list string) (ishape oshape : list Z) (pt it : R)
    (self : NanoDet) :
  __init__ labels ishape oshape pt it = Ok self ->
  length (classes self) = num_classes self.
Proof.
  init_fields. reflexivity.
Qed.

Lemma py_index_ok {A : Type} (d : A) (l : list A) (i : nat) :
  (i < length l)%nat -> py_index l i = Ok (nth i l d).
Proof.
  intros H. unfold py_index. rewrite (nth_error_nth' l d H). reflexivity.
Qed.

Lemma nth_Forall {A : Type} (P : A -> Prop) (d : A) (l : list A) (i : nat) :
  Forall P l -> P d -> P (nth i l d).
Proof.
  intros Hl Hd. destruct (Nat.lt_ge_cases i (length l)) as [Hlt|Hge].
  - rewrite Forall_forall in Hl. apply Hl, nth_In, Hlt.
  - rewrite nth_overflow by exact Hge. exact Hd.
Qed.

(** [detect] on a well-shaped tensor returns whenever [post_process] does. *)
Lemma detect_total (labels : list string) (ishape oshape : list Z) (pt it : R)
    (self : NanoDet) (srcimg_shape : Z * Z) (outs : list (list R)) :
  __init__ labels ishape oshape pt it = Ok self ->
  (0 < num_classes self)%nat -> (0 <= reg_max self)%Z ->
  fst (input_shape self) <> 0%Z -> snd (input_shape self) <> 0%Z ->
  preds_shape_ok self outs ->
  (exists out, post_process self outs 1 false = Ok out) ->
  exists dets, detect self srcimg_shape outs = Ok dets.
Proof.
  intros Hinit Hnc Hreg Hh Hw Hshape [out Hout].
  destruct (post_process_total (fun row => length row = num_classes self)
              _ _ _ _ _ self outs 1 false Hinit Hnc Hreg Hshape)
    as (mb & ms & ids & conf & _ & Hrows & Hids & _ & Hpp & Hlen).
  { destruct Hshape as [_ Hrows]. eapply Forall_impl; [|exact Hrows].
    intros row Hrow. cbv beta in Hrow. rewrite length_firstn. lia. }
  pose proof Hout as Hsup. rewrite Hpp in Hsup.
  apply (suppress_returned _ _ _ _ _ Hlen) in Hsup. destruct Hsup as [_ Hsup].
  rewrite <- Hsup in Hout. clear Hpp Hsup. rename Hout into Hpp.
  assert (Hbound : Forall (fun k => (k < num_classes self)%nat) ids).
  { apply (argmax_bound _ _ _ Hids). eapply Forall_impl; [|exact Hrows].
    intros row [_ H]. exact H. }
  unfold detect. destruct srcimg_shape as [src_h src_w].
  rewrite (init_keep_ratio _ _ _ _ _ _ Hinit), resize_image_stretch. simpl.
  rewrite Hpp. simpl.
  destruct (Z.eqb_spec (fst (input_shape self)) 0); [contradiction|].
  destruct (Z.eqb_spec (snd (input_shape self)) 0); [contradiction|].
  simpl. apply mapM_total, Forall_forall. intros i Hi.
  apply in_seq in Hi. rewrite length_map in Hi.
  destruct Hi as [_ Hi].
  rewrite (py_index_ok (0, 0, 0, 0)) by (rewrite length_map; exact Hi). simpl.
  rewrite (py_index_ok 0%nat) by (rewrite length_map; exact Hi). simpl.
  rewrite (py_index_ok 0) by (rewrite length_map; exact Hi). simpl.
  rewrite (py_index_ok EmptyString).
  - simpl. eexists. reflexivity.
  - rewrite (init_classes _ _ _ _ _ _ Hinit).
    apply (nth_Forall (fun k => (k < num_classes self)%nat)); [|exact Hnc].
    apply Forall_map, Forall_forall. intros c _.
    apply (nth_Forall (fun k => (k < num_classes self)%nat)); assumption.
Qed.

Lemma tiny_detect (pt it : R) (srcimg_shape : Z * Z) :
  pt <= 0.9 ->
  exists dets, detect (tiny_with pt it) srcimg_shape tiny_preds = Ok dets.
Proof.
  intros Hpt.
  apply (detect_total _ _ _ _ _ (tiny_with pt it) srcimg_shape tiny_preds
           (init_tiny_with pt it)); try (simpl; lia).
  - apply tiny_with_preds_shape.
  - destruct (tiny_post_process pt it 1 false Hpt) as (b & c & ids & H).
    eexists. exact H.
Qed.

(** * Further properties of the code *)

(** ** The image handed to the session when the ratio is not kept *)

(** C10, as the code behaves.  A detector built by [__init__] never keeps
    the aspect ratio, so [resize_image] returns the model input height and
    width as the new sizes and zero for both paddings.  But the image it
    returns is resized with [input_shape], which is (height, width), passed
    as the (width, height) that [cv2.resize] expects: it has
    [input_shape[1]] rows and [input_shape[0]] columns, and has the input
    shape of the model exactly when that shape is square. *)
Theorem stretch_transposes (labels : list string) (ishape oshape : list Z)
    (pt it : R) (self : NanoDet) (src_h src_w in_h in_w : Z) :
  __init__ labels ishape oshape pt it = Ok self ->
  input_shape self = (in_h, in_w) ->
  (0 < src_h)%Z -> (0 < src_w)%Z -> (0 < in_h)%Z -> (0 < in_w)%Z ->
  keep_ratio self = false /\
  resize_image self (src_h, src_w) (keep_ratio self) = Ok (in_h, in_w, 0%Z, 0%Z) /\
  resize_borders self (src_h, src_w) (keep_ratio self) = Ok None /\
  resized_shape self (src_h, src_w) (keep_ratio self) = Ok (in_w, in_h) /\
  (resized_shape self (src_h, src_w) (keep_ratio self) = Ok (input_shape self)
   <-> in_h = in_w).
Proof.
  intros Hinit Hshape Hsh Hsw Hh Hw.
  pose proof (init_keep_ratio _ _ _ _ _ _ Hinit) as Hkeep.
  rewrite Hkeep.
  assert (Hres : resized_shape self (src_h, src_w) false = Ok (in_w, in_h)).
  { unfold resized_shape, cv2_resize. rewrite Hshape. cbn [andb].
    destruct (Z.leb_spec src_h 0); [lia|]. destruct (Z.leb_spec src_w 0); [lia|].
    destruct (Z.leb_spec in_h 0); [lia|]. destruct (Z.leb_spec in_w 0); [lia|].
    reflexivity. }
  split; [reflexivity|]. split.
  { rewrite resize_image_stretch, Hshape. reflexivity. }
  split.
  { unfold resize_borders. rewrite Hshape. reflexivity. }
  split; [exact Hres|].
  rewrite Hres, Hshape. split.
  - intros H. injection H as H1 H2. lia.
  - intros ->. reflexivity.
Qed.

Lemma stretch_transposes_witness :
  exists self,
    __init__ ["person"%string] [1; 3; 320; 416]%Z [1; 2100; 33]%Z 0.4 0.3 = Ok self /\
    input_shape self = (320, 416)%Z /\
    resize_image self (480, 640)%Z (keep_ratio self) = Ok (320, 416, 0, 0)%Z /\
    resized_shape self (480, 640)%Z (keep_ratio self) = Ok (416, 320)%Z /\
    resized_shape self (480, 640)%Z (keep_ratio self) <> Ok (input_shape self).
Proof.
  eexists. split; [reflexivity|]. split; [reflexivity|].
  destruct (stretch_transposes ["person"%string] [1; 3; 320; 416]%Z
              [1; 2100; 33]%Z 0.4 0.3 _ 480 640 320 416 eq_refl eq_refl)
    as (_ & Hsizes & _ & Hres & Hiff); try lia.
  split; [exact Hsizes|]. split; [exact Hres|].
  intros H. apply Hiff in H. lia.
Defined.

(** ** The anchors of a level *)

Lemma make_grid_In (feat_h feat_w stride : Z) (p : Z * Z) :
  In p (_make_grid (feat_h, feat_w) stride) <->
  exists r c, (0 <= r < feat_h)%Z /\ (0 <= c < feat_w)%Z /\
              p = ((c * stride)%Z, (r * stride)%Z).
Proof.
  split.
  - intros Hin. apply In_nth_error in Hin. destruct Hin as [n Hn].
    assert (Hlen : (n < Z.to_nat feat_h * Z.to_nat feat_w)%nat).
    { rewrite <- make_grid_length with (stride := stride).
      apply nth_error_Some. congruence. }
    assert (Hw : Z.to_nat feat_w <> 0%nat) by nia.
    pose proof (Nat.div_mod_eq n (Z.to_nat feat_w)) as Hdm.
    pose proof (Nat.mod_upper_bound n (Z.to_nat feat_w) Hw) as Hc.
    assert (Hr : (n / Z.to_nat feat_w < Z.to_nat feat_h)%nat).
    { apply Nat.Div0.div_lt_upper_bound. lia. }
    pose proof (make_grid_nth feat_h feat_w stride _ _ Hr Hc) as Hnth.
    replace (n / Z.to_nat feat_w * Z.to_nat feat_w + n mod Z.to_nat feat_w)%nat
      with n in Hnth by lia.
    rewrite Hn in Hnth. injection Hnth as ->.
    exists (Z.of_nat (n / Z.to_nat feat_w)), (Z.of_nat (n mod Z.to_nat feat_w)).
    repeat split; lia.
  - intros (r & c & Hr & Hc & ->).
    apply nth_error_In with (n := (Z.to_nat r * Z.to_nat feat_w + Z.to_nat c)%nat).
    rewrite make_grid_nth by lia. rewrite !Z2Nat.id by lia. reflexivity.
Qed.

Lemma make_grid_NoDup (feat_h feat_w stride : Z) :
  stride <> 0%Z -> NoDup (_make_grid (feat_h, feat_w) stride).
Proof.
  intros Hs. apply NoDup_nth_error. intros i j Hi Hij.
  rewrite make_grid_length in Hi.
  assert (Hj : (j < Z.to_nat feat_h * Z.to_nat feat_w)%nat).
  { rewrite <- make_grid_length with (stride := stride).
    apply nth_error_Some. rewrite <- Hij. apply nth_error_Some.
    rewrite make_grid_length. exact Hi. }
  set (w := Z.to_nat feat_w) in *.
  assert (Hw : w <> 0%nat) by nia.
  pose proof (Nat.div_mod_eq i w) as Di. pose proof (Nat.div_mod_eq j w) as Dj.
  pose proof (Nat.mod_upper_bound i w Hw) as Ci.
  pose proof (Nat.mod_upper_bound j w Hw) as Cj.
  assert (Ri : (i / w < Z.to_nat feat_h)%nat)
    by (apply Nat.Div0.div_lt_upper_bound; lia).
  assert (Rj : (j / w < Z.to_nat feat_h)%nat)
    by (apply Nat.Div0.div_lt_upper_bound; lia).
  pose proof (make_grid_nth feat_h feat_w stride _ _ Ri Ci) as Ni.
  pose proof (make_grid_nth feat_h feat_w stride _ _ Rj Cj) as Nj.
  fold w in Ni, Nj.
  replace (i / w * w + i mod w)%nat with i in Ni by lia.
  replace (j / w * w + j mod w)%nat with j in Nj by lia.
  rewrite Hij, Nj in Ni. injection Ni as Hc Hr.
  apply Z.mul_cancel_r in Hc; [|exact Hs].
  apply Z.mul_cancel_r in Hr; [|exact Hs].
  lia.
Qed.

Lemma ceil_div_last (a b c : Z) :
  (0 < b)%Z -> (0 <= c < ceil_div a b)%Z -> (c * b < a)%Z.
Proof.
  intros Hb Hc. unfold ceil_div in Hc.
  pose proof (Z.div_mod (- a) b ltac:(lia)) as Hdm.
  pose proof (Z.mod_pos_bound (- a) b Hb) as Hm.
  nia.
Qed.

(** X1. The anchors the constructor stores for a level are pairwise
    distinct points of the input tensor: each lies on the lattice of the
    stride of its level, with [0 <= x < input_w] and [0 <= y < input_h]. *)
Theorem anchors_inside_input (labels : list string) (ishape oshape : list Z)
    (pt it : R) (self : NanoDet) (i : nat) (s : Z) (grid : list (Z * Z)) :
  __init__ labels ishape oshape pt it = Ok self ->
  nth_error (strides self) i = Some s ->
  nth_error (mlvl_anchors self) i = Some grid ->
  NoDup grid /\
  forall x y, In (x, y) grid ->
    (0 <= x < snd (input_shape self))%Z /\ (0 <= y < fst (input_shape self))%Z /\
    (s | x)%Z /\ (s | y)%Z.
Proof.
  intros Hinit Hs Hgrid.
  destruct (init_anchors _ _ _ _ _ _ Hinit) as [Hst Ha].
  assert (Hpos : (0 < s)%Z).
  { apply nth_error_In in Hs. rewrite Hst in Hs. simpl in Hs.
    destruct Hs as [<-|[<-|[<-|[<-|[]]]]]; lia. }
  rewrite Ha, nth_error_map, Hs in Hgrid. injection Hgrid as <-.
  split; [apply make_grid_NoDup; lia|].
  intros x y Hin. apply make_grid_In in Hin.
  destruct Hin as (r & c & Hr & Hc & Hp). injection Hp as -> ->.
  pose proof (ceil_div_last _ _ _ Hpos Hr). pose proof (ceil_div_last _ _ _ Hpos Hc).
  repeat split; try nia.
  - exists c. reflexivity.
  - exists r. reflexivity.
Qed.

Lemma anchors_inside_input_witness :
  NoDup [(0, 0)%Z] /\
  forall x y, In (x, y) [(0, 0)%Z] ->
    (0 <= x < snd (input_shape tiny))%Z /\ (0 <= y < fst (input_shape tiny))%Z /\
    (8 | x)%Z /\ (8 | y)%Z.
Proof.
  apply (anchors_inside_input _ _ _ _ _ tiny 0 8 [(0, 0)%Z] init_tiny);
    reflexivity.
Defined.

(** ** Construction *)

Lemma py_last_app {A : Type} (l : list A) (a : A) : py_last (l ++ [a]) = Ok a.
Proof. unfold py_last. rewrite rev_unit. reflexivity. Qed.

(** X2. The constructor fails exactly when a shape of the session is too
    short: with an input shape of fewer than four entries or an empty output
    shape it raises [IndexError]; otherwise it returns a detector with one
    class per label, the four strides 8, 16, 32, 64 and one grid of anchors
    per stride. *)
Theorem init_raises_on_short_shapes (labels : list string)
    (ishape oshape : list Z) (pt it : R) :
  ((4 <= length ishape)%nat /\ oshape <> [] ->
   exists self,
     __init__ labels ishape oshape pt it = Ok self /\
     classes self = labels /\ num_classes self = length labels /\
     strides self = [8; 16; 32; 64]%Z /\ length (mlvl_anchors self) = 4%nat) /\
  ((length ishape < 4)%nat \/ oshape = [] ->
   __init__ labels ishape oshape pt it = Raise IndexError).
Proof.
  split.
  - intros [Hi Ho]. unfold __init__.
    destruct ishape as [|a [|b [|c [|d rest]]]]; simpl in Hi; try lia.
    destruct (rev oshape) as [|z zs] eqn:Hrev.
    { apply (f_equal (@rev Z)) in Hrev. rewrite rev_involutive in Hrev.
      contradiction. }
    unfold py_last. rewrite Hrev. simpl. eexists. repeat split.
  - intros [Hi | ->]; unfold __init__, bind.
    + destruct ishape as [|a [|b [|c [|d rest]]]]; simpl in Hi; try lia; reflexivity.
    + unfold py_index, py_last.
      destruct (nth_error ishape 2); [|reflexivity].
      destruct (nth_error ishape 3); reflexivity.
Qed.

Lemma init_raises_on_short_shapes_witness :
  (exists self,
     __init__ ["person"%string] [1; 3; 8; 8]%Z [1; 4; 9]%Z 0.4 0.3 = Ok self /\
     classes self = ["person"%string] /\ num_classes self = 1%nat /\
     strides self = [8; 16; 32; 64]%Z /\ length (mlvl_anchors self) = 4%nat) /\
  __init__ ["person"%string] [1; 3; 8]%Z [1; 4; 9]%Z 0.4 0.3 = Raise IndexError.
Proof.
  split.
  - apply (proj1 (init_raises_on_short_shapes ["person"%string] [1; 3; 8; 8]%Z
                    [1; 4; 9]%Z 0.4 0.3)).
    split; [simpl; lia | discriminate].
  - apply (proj2 (init_raises_on_short_shapes ["person"%string] [1; 3; 8]%Z
                    [1; 4; 9]%Z 0.4 0.3)).
    left. simpl. lia.
Defined.

(** X3. The constructor derives [reg_max] from the last dimension of the
    output by a truncating division: a width [num_classes + 4 * (k + 1) + r]
    with [0 <= r < 4] gives [reg_max = k] and the support [0, 1, ..., k],
    whether or not [r] is zero; no width is rejected. *)
Theorem init_reg_max (labels : list string) (ishape oshape : list Z) (last : Z)
    (pt it : R) (self : NanoDet) (k r : Z) :
  __init__ labels ishape (oshape ++ [last]) pt it = Ok self ->
  (-1 <= k)%Z -> (0 <= r < 4)%Z ->
  last = (Z.of_nat (length labels) + 4 * (k + 1) + r)%Z ->
  reg_max self = k /\
  project self = np.arange 0 (k + 1) /\
  length (project self) = Z.to_nat (k + 1).
Proof.
  intros Hinit Hk Hr Hlast.
  assert (Hq : (Z.quot (last - Z.of_nat (length labels)) 4 - 1 = k)%Z).
  { replace (last - Z.of_nat (length labels))%Z with (4 * (k + 1) + r)%Z by lia.
    rewrite Z.quot_div_nonneg by lia.
    rewrite <- (Z.div_unique (4 * (k + 1) + r) 4 (k + 1) r); lia. }
  clear Hlast. unfold __init__ in Hinit.
  destruct (py_index ishape 2) as [in_h|]; [|discriminate].
  destruct (py_index ishape 3) as [in_w|]; [|discriminate].
  rewrite py_last_app in Hinit. unfold bind in Hinit.
  injection Hinit as <-. cbn [reg_max project].
  rewrite Hq. repeat split. rewrite arange_length. f_equal. lia.
Qed.

Lemma init_reg_max_witness :
  reg_max tiny = 1%Z /\
  project tiny = np.arange 0 (1 + 1) /\
  length (project tiny) = Z.to_nat (1 + 1).
Proof.
  apply (init_reg_max ["person"%string] [1; 3; 8; 8]%Z [1; 4]%Z 11 0.4 0.3 tiny 1 2).
  - reflexivity.
  - lia.
  - lia.
  - reflexivity.
Defined.

(** ** Shapes accepted by [distance2bbox] *)

Lemma broadcast2_shape (f : R -> R -> R) (a b : list R) :
  a <> [] -> b <> [] ->
  (length a = length b \/ length a = 1%nat \/ length b = 1%nat ->
   exists r, broadcast2 f a b = Ok r /\
             length r = Nat.max (length a) (length b)) /\
  (length a <> length b -> length a <> 1%nat -> length b <> 1%nat ->
   broadcast2 f a b = Raise ValueError).
Proof.
  intros Ha Hb. unfold broadcast2.
  destruct (Nat.eqb_spec (length a) (length b)) as [E|E].
  - split; [|intros; contradiction]. intros _. eexists. split; [reflexivity|].
    rewrite length_map, length_combine, E. lia.
  - destruct a as [|x [|x' a]]; [contradiction| |].
    + split; [|simpl; intros; contradiction]. intros _. eexists.
      split; [reflexivity|]. rewrite length_map. simpl.
      destruct b; [contradiction | simpl; lia].
    + destruct b as [|y [|y' b]]; [contradiction| |].
      * split; [|simpl; intros; contradiction]. intros _. eexists.
        split; [reflexivity|]. rewrite length_map. simpl. lia.
      * split; [|reflexivity]. simpl in *. intros [H|[H|H]]; [contradiction|lia|lia].
Qed.

Lemma distance2bbox_shapes (points : list (Z * Z)) (distance : list (list R))
    (max_shape : option (Z * Z)) :
  points <> [] -> distance <> [] ->
  Forall (fun row => length row = 4%nat) distance ->
  (length points = length distance \/ length points = 1%nat \/
   length distance = 1%nat ->
   exists boxes,
     distance2bbox points distance max_shape = Ok boxes /\
     length boxes = Nat.max (length points) (length distance)) /\
  (length points <> length distance -> length points <> 1%nat ->
   length distance <> 1%nat ->
   distance2bbox points distance max_shape = Raise ValueError).
Proof.
  intros Hp Hd Hrows. unfold distance2bbox.
  assert (E1 : Nat.eqb (length points) 0 = false).
  { apply Nat.eqb_neq. destruct points; [contradiction | discriminate]. }
  assert (E2 : Nat.eqb (length (np.flatten distance)) 0 = false).
  { apply Nat.eqb_neq. unfold np.flatten.
    rewrite (concat_uniform_length 4) by exact Hrows.
    destruct distance; [contradiction | simpl; lia]. }
  rewrite E1, E2. simpl.
  rewrite !column_total by (exact Hrows || lia). simpl.
  set (px := map (fun p => IZR (fst p)) points).
  set (py := map (fun p => IZR (snd p)) points).
  assert (Lx : length px = length points) by apply length_map.
  assert (Ly : length py = length points) by apply length_map.
  assert (Nx : px <> []) by (intros E; rewrite E in Lx; destruct points; [contradiction | discriminate]).
  assert (Ny : py <> []) by (intros E; rewrite E in Ly; destruct points; [contradiction | discriminate]).
  assert (Nd : forall j, map (fun row : list R => nth j row 0) distance <> []).
  { intros j E. apply map_eq_nil in E. contradiction. }
  destruct (broadcast2_shape Rminus px _ Nx (Nd 0%nat)) as [A0 B0].
  destruct (broadcast2_shape Rminus py _ Ny (Nd 1%nat)) as [A1 B1].
  destruct (broadcast2_shape Rplus px _ Nx (Nd 2%nat)) as [A2 B2].
  destruct (broadcast2_shape Rplus py _ Ny (Nd 3%nat)) as [A3 B3].
  rewrite !length_map in *. rewrite Lx in *. rewrite Ly in *.
  split.
  - intros H.
    destruct (A0 H) as (x1 & -> & L0), (A1 H) as (y1 & -> & L1),
             (A2 H) as (x2 & -> & L2), (A3 H) as (y2 & -> & L3).
    simpl. destruct max_shape as [[mh mw]|]; eexists; (split; [reflexivity|]).
    + rewrite stack4_length; rewrite !length_map; congruence.
    + rewrite stack4_length; congruence.
  - intros H1 H2 H3. rewrite (B0 H1 H2 H3). reflexivity.
Qed.

(** X7. The shapes [distance2bbox] accepts, for non-empty points and
    non-empty distance rows of four values: one box per point when there are
    as many distance rows as points; when there is a single point or a
    single distance row numpy broadcasts it, and the result has as many boxes
    as the longer of the two; every other combination raises [ValueError]. *)
Theorem distance2bbox_broadcasts (points : list (Z * Z)) (distance : list (list R))
    (max_shape : option (Z * Z)) :
  points <> [] -> distance <> [] ->
  Forall (fun row => length row = 4%nat) distance ->
  (length points = length distance \/ length points = 1%nat \/
   length distance = 1%nat ->
   exists boxes,
     distance2bbox points distance max_shape = Ok boxes /\
     length boxes = Nat.max (length points) (length distance)) /\
  (length points <> length distance -> length points <> 1%nat ->
   length distance <> 1%nat ->
   distance2bbox points distance max_shape = Raise ValueError).
Proof.
  apply distance2bbox_shapes.
Qed.

Lemma distance2bbox_broadcasts_witness :
  (length [(0, 0)%Z] = length [[1; 1; 1; 1]; [2; 2; 2; 2]] \/
   length [(0, 0)%Z] = 1%nat \/
   length [[1; 1; 1; 1]; [2; 2; 2; 2]] = 1%nat ->
   exists boxes,
     distance2bbox [(0, 0)%Z] [[1; 1; 1; 1]; [2; 2; 2; 2]] None = Ok boxes /\
     length boxes = Nat.max (length [(0, 0)%Z])
                            (length [[1; 1; 1; 1]; [2; 2; 2; 2]])) /\
  (length [(0, 0)%Z] <> length [[1; 1; 1; 1]; [2; 2; 2; 2]] ->
   length [(0, 0)%Z] <> 1%nat ->
   length [[1; 1; 1; 1]; [2; 2; 2; 2]] <> 1%nat ->
   distance2bbox [(0, 0)%Z] [[1; 1; 1; 1]; [2; 2; 2; 2]] None = Raise ValueError).
Proof.
  apply (distance2bbox_broadcasts [(0, 0)%Z] [[1; 1; 1; 1]; [2; 2; 2; 2]] None).
  - discriminate.
  - discriminate.
  - repeat constructor.
Defined.

(** ** Rows of the tensor that no level reads *)

Lemma decode_levels_extra_rows (self : NanoDet) (levels : list (Z * list (Z * Z)))
    (ind : nat) (preds extra : list (list R)) :
  (ind + length (concat (map snd levels)) <= length preds)%nat ->
  decode_levels self levels ind (preds ++ extra) =
  decode_levels self levels ind preds.
Proof.
  revert ind. induction levels as [|[stride anchors] levels IH]; intros ind H;
    [reflexivity|].
  simpl in H. rewrite length_app in H. cbn [decode_levels].
  rewrite skipn_app, firstn_app, length_skipn.
  replace (length anchors - (length preds - ind))%nat with 0%nat by lia.
  rewrite firstn_O, app_nil_r.
  rewrite (IH (ind + length anchors)%nat) by lia. reflexivity.
Qed.

(** X8. Neither [post_process] nor [detect] checks the number of rows of the
    output tensor: once it has a row for every anchor, the rows that follow
    are never read, and the result is the same with or without them. *)
Theorem extra_rows_ignored (labels : list string) (ishape oshape : list Z)
    (pt it : R) (self : NanoDet) (preds extra : list (list R)) (sf : R)
    (rs : bool) (srcimg_shape : Z * Z) :
  __init__ labels ishape oshape pt it = Ok self ->
  (length (concat (mlvl_anchors self)) <= length preds)%nat ->
  post_process self (preds ++ extra) sf rs = post_process self preds sf rs /\
  detect self srcimg_shape (preds ++ extra) = detect self srcimg_shape preds.
Proof.
  intros Hinit Hlen.
  destruct (init_levels _ _ _ _ _ _ Hinit) as [Hsnd _].
  assert (Hpp : forall sf' rs',
            post_process self (preds ++ extra) sf' rs' =
            post_process self preds sf' rs').
  { intros sf' rs'. unfold post_process.
    rewrite decode_levels_extra_rows by (rewrite Hsnd; simpl; exact Hlen).
    reflexivity. }
  split; [apply Hpp|]. unfold detect. destruct srcimg_shape as [src_h src_w].
  rewrite Hpp. reflexivity.
Qed.

Lemma extra_rows_ignored_witness :
  post_process tiny (tiny_preds ++ [[1; 2; 3]]) 1 false =
    post_process tiny tiny_preds 1 false /\
  detect tiny (480, 640)%Z (tiny_preds ++ [[1; 2; 3]]) =
    detect tiny (480, 640)%Z tiny_preds.
Proof.
  apply (extra_rows_ignored _ _ _ _ _ tiny tiny_preds [[1; 2; 3]] 1 false
           (480, 640)%Z init_tiny).
  simpl. lia.
Defined.

(** ** Letterboxing *)

Lemma py_int_div (a b : Z) :
  (0 <= a)%Z -> (0 < b)%Z -> py_int (IZR a / IZR b) = (a / b)%Z.
Proof.
  intros Ha Hb. pose proof (Z.div_mod a b ltac:(lia)) as Hdm.
  pose proof (Z.mod_pos_bound a b Hb) as [Hm0 Hm1].
  assert (HbR : 0 < IZR b) by (apply IZR_lt; exact Hb).
  assert (HaR : 0 <= IZR a) by (apply IZR_le; exact Ha).
  assert (Hlo : IZR (a / b) * IZR b <= IZR a).
  { rewrite <- mult_IZR. apply IZR_le. lia. }
  assert (Hhi : IZR a < (IZR (a / b) + 1) * IZR b).
  { rewrite <- (plus_IZR _ 1), <- mult_IZR. apply IZR_lt. lia. }
  assert (Hinv : 0 < / IZR b) by (apply Rinv_0_lt_compat; exact HbR).
  apply py_int_value.
  - unfold Rdiv. apply Rmult_le_pos; lra.
  - split.
    + apply (Rmult_le_reg_r (IZR b)); [exact HbR|].
      unfold Rdiv. rewrite Rmult_assoc, Rinv_l by lra. lra.
    + apply (Rmult_lt_reg_r (IZR b)); [exact HbR|].
      unfold Rdiv. rewrite Rmult_assoc, Rinv_l by lra. lra.
Qed.

Lemma py_int_half (d : Z) : (0 <= d)%Z -> py_int (IZR d * 0.5) = (d / 2)%Z.
Proof.
  intros Hd. replace (IZR d * 0.5) with (IZR d / IZR 2) by lra.
  apply py_int_div; lia.
Qed.

Lemma py_int_ratio_le (a b c : Z) :
  (0 <= a)%Z -> (0 <= b <= c)%Z -> (0 < c)%Z ->
  (0 <= py_int (IZR a * (IZR b / IZR c)) <= a)%Z.
Proof.
  intros Ha Hb Hc.
  assert (HaR : 0 <= IZR a) by (apply IZR_le; exact Ha).
  assert (HcR : 0 < IZR c) by (apply IZR_lt; exact Hc).
  assert (HbR : 0 <= IZR b <= IZR c) by (split; apply IZR_le; lia).
  assert (Hq : 0 <= IZR b / IZR c <= 1).
  { split.
    - apply Rmult_le_pos; [lra|]. apply Rlt_le, Rinv_0_lt_compat, HcR.
    - apply (Rmult_le_reg_r (IZR c)); [exact HcR|].
      unfold Rdiv. rewrite Rmult_assoc, Rinv_l by lra. lra. }
  assert (Hx : 0 <= IZR a * (IZR b / IZR c) <= IZR a) by (split; nra).
  destruct (py_int_nonneg _ (proj1 Hx)) as [H0 _].
  split; [exact H0 | apply py_int_le; apply Hx].
Qed.

(** X9. The geometry of [resize_image] when the aspect ratio is kept, for a
    source image that is not square.  When the short side is resized to zero
    pixels [cv2.resize] raises.  Otherwise the image returned has the input
    shape of the model: the long side of the source fills the input, the
    short side is at most the input, the two borders handed to
    [cv2.copyMakeBorder] on the short axis are non-negative, the first is the
    [top] or [left] that is returned, the second is equal to it or one pixel
    larger, and together with the resized image they fill the input
    exactly. *)
Theorem resize_image_letterbox (self : NanoDet)
    (src_h src_w in_h in_w newh neww top left_ : Z) :
  input_shape self = (in_h, in_w) ->
  (0 < in_h)%Z -> (0 < in_w)%Z -> (0 < src_h)%Z -> (0 < src_w)%Z ->
  src_h <> src_w ->
  resize_image self (src_h, src_w) true = Ok (newh, neww, top, left_) ->
  (newh = 0%Z \/ neww = 0%Z ->
   resized_shape self (src_h, src_w) true = Raise CvError) /\
  ((0 < newh)%Z -> (0 < neww)%Z ->
   resized_shape self (src_h, src_w) true = Ok (in_h, in_w) /\
   exists bottom right_,
     resize_borders self (src_h, src_w) true =
       Ok (Some (top, bottom, left_, right_)) /\
     (src_w < src_h -> newh = in_h /\ top = 0 /\ bottom = 0)%Z /\
     (src_h < src_w -> neww = in_w /\ left_ = 0 /\ right_ = 0)%Z /\
     (newh <= in_h /\ neww <= in_w)%Z /\
     (top + newh + bottom = in_h /\ left_ + neww + right_ = in_w)%Z /\
     (0 <= top <= bottom /\ bottom <= top + 1)%Z /\
     (0 <= left_ <= right_ /\ right_ <= left_ + 1)%Z).
Proof.
  intros Hshape Hh Hw Hsh Hsw Hne.
  assert (HswR : 0 < IZR src_w) by (apply IZR_lt; exact Hsw).
  assert (HshR : 0 < IZR src_h) by (apply IZR_lt; exact Hsh).
  unfold resize_image, resize_borders, resized_shape. rewrite Hshape.
  destruct (Z.eqb_spec src_h src_w) as [|_]; [contradiction|].
  destruct (Z.eqb_spec src_w 0) as [|_]; [lia|]. cbn [andb negb].
  unfold Rltb. destruct (Rlt_dec 1 (IZR src_h / IZR src_w)) as [Htall|Hwide].
  - assert (Hlt : (src_w < src_h)%Z).
    { apply lt_IZR. apply (Rmult_lt_reg_r (/ IZR src_w));
        [apply Rinv_0_lt_compat; exact HswR|].
      rewrite Rinv_r by lra. exact Htall. }
    assert (Hrange : (0 <= py_int (IZR in_w / (IZR src_h / IZR src_w)) <= in_w)%Z).
    { replace (IZR in_w / (IZR src_h / IZR src_w))
        with (IZR in_w * (IZR src_w / IZR src_h)) by (field; lra).
      apply py_int_ratio_le; lia. }
    set (nw := py_int (IZR in_w / (IZR src_h / IZR src_w))) in *.
    rewrite py_int_half by lia.
    intros H. injection H as <- <- <- <-.
    pose proof (Z.div_mod (in_w - nw) 2 ltac:(lia)) as Hdm.
    pose proof (Z.mod_pos_bound (in_w - nw) 2 ltac:(lia)) as Hm.
    assert (0 <= (in_w - nw) / 2)%Z by (apply Z.div_pos; lia).
    split.
    + intros [H0|H0]; [lia|]. unfold cv2_resize.
      destruct (Z.leb_spec nw 0); [|lia].
      rewrite !orb_true_r. reflexivity.
    + intros _ Hnw. split.
      * unfold cv2_resize, cv2_copyMakeBorder.
        destruct (Z.leb_spec src_h 0); [lia|]. destruct (Z.leb_spec src_w 0); [lia|].
        destruct (Z.leb_spec nw 0); [lia|]. destruct (Z.leb_spec in_h 0); [lia|].
        cbn [orb bind].
        destruct (Z.ltb_spec ((in_w - nw) / 2) 0); [lia|].
        destruct (Z.ltb_spec (in_w - nw - (in_w - nw) / 2) 0); [lia|].
        cbn [orb Z.ltb Z.compare]. f_equal. f_equal; lia.
      * do 2 eexists. split; [reflexivity|]. repeat split; lia.
  - assert (Hlt : (src_h < src_w)%Z).
    { assert (IZR src_h <= IZR src_w) as Hle.
      { apply (Rmult_le_reg_r (/ IZR src_w));
          [apply Rinv_0_lt_compat; exact HswR|].
        rewrite Rinv_r by lra. apply Rnot_lt_le. exact Hwide. }
      apply le_IZR in Hle. lia. }
    assert (Hrange : (0 <= py_int (IZR in_h * (IZR src_h / IZR src_w)) <= in_h)%Z)
      by (apply py_int_ratio_le; lia).
    set (nh := py_int (IZR in_h * (IZR src_h / IZR src_w))) in *.
    rewrite py_int_half by lia.
    intros H. injection H as <- <- <- <-.
    pose proof (Z.div_mod (in_h - nh) 2 ltac:(lia)) as Hdm.
    pose proof (Z.mod_pos_bound (in_h - nh) 2 ltac:(lia)) as Hm.
    assert (0 <= (in_h - nh) / 2)%Z by (apply Z.div_pos; lia).
    split.
    + intros [H0|H0]; [|lia]. unfold cv2_resize.
      destruct (Z.leb_spec nh 0); [|lia].
      rewrite !orb_true_r. reflexivity.
    + intros Hnh _. split.
      * unfold cv2_resize, cv2_copyMakeBorder.
        destruct (Z.leb_spec src_h 0); [lia|]. destruct (Z.leb_spec src_w 0); [lia|].
        destruct (Z.leb_spec in_w 0); [lia|]. destruct (Z.leb_spec nh 0); [lia|].
        cbn [orb bind].
        destruct (Z.ltb_spec ((in_h - nh) / 2) 0); [lia|].
        destruct (Z.ltb_spec (in_h - nh - (in_h - nh) / 2) 0); [lia|].
        cbn [orb Z.ltb Z.compare]. f_equal. f_equal; lia.
      * do 2 eexists. split; [reflexivity|]. repeat split; lia.
Qed.

Lemma resize_image_letterbox_witness :
  resize_image tiny (480, 640)%Z true = Ok (6, 8, 1, 0)%Z /\
  resized_shape tiny (480, 640)%Z true = Ok (8, 8)%Z /\
  exists bottom right_,
    resize_borders tiny (480, 640)%Z true = Ok (Some (1, bottom, 0, right_))%Z /\
    (640 < 480 -> 6 = 8 /\ 1 = 0 /\ bottom = 0)%Z /\
    (480 < 640 -> 8 = 8 /\ 0 = 0 /\ right_ = 0)%Z /\
    (6 <= 8 /\ 8 <= 8)%Z /\
    (1 + 6 + bottom = 8 /\ 0 + 8 + right_ = 8)%Z /\
    (0 <= 1 <= bottom /\ bottom <= 1 + 1)%Z /\
    (0 <= 0 <= right_ /\ right_ <= 0 + 1)%Z.
Proof.
  assert (E : resize_image tiny (480, 640)%Z true = Ok (6, 8, 1, 0)%Z).
  { unfold resize_image. cbn [tiny tiny_with input_shape andb negb Z.eqb Pos.eqb].
    unfold Rltb. destruct (Rlt_dec 1 (IZR 480 / IZR 640)) as [H|_]; [lra|].
    rewrite (py_int_value (IZR 8 * (IZR 480 / IZR 640)) 6) by lra.
    rewrite (py_int_value (IZR (8 - 6) * 0.5) 1) by (simpl; lra).
    reflexivity. }
  assert (H6 : (0 < 6)%Z) by lia. assert (H8 : (0 < 8)%Z) by lia.
  destruct (resize_image_letterbox tiny 480 640 8 8 6 8 1 0 eq_refl H8 H8)
    as [_ H]; try lia; [exact E|].
  split; [exact E|]. exact (H H6 H8).
Defined.

(** ** What [post_process] and [detect] return *)

Lemma greedy_length {A : Type} (ov : A -> A -> bool) (l : list A) :
  (length (greedy ov l) <= length l)%nat.
Proof.
  remember (length l) as n eqn:Hn. revert l Hn.
  induction n as [n IH] using lt_wf_ind. intros [|y rest] Hn.
  - simp greedy. simpl. lia.
  - rewrite greedy_cons. simpl in *.
    pose proof (filter_length_le (fun z => negb (ov y z)) rest) as Hf.
    specialize (IH (length (filter (fun z => negb (ov y z)) rest))
                   ltac:(lia) _ eq_refl). lia.
Qed.

Lemma NMS_select_length (bboxes : list Box) (scores : list R) (t it : R) :
  (length (NMS_select bboxes scores t it) <= length scores)%nat.
Proof.
  unfold NMS_select. cbv zeta.
  eapply Nat.le_trans; [apply greedy_length|].
  rewrite <- (Permutation_length (isort_perm by_score _)).
  eapply Nat.le_trans; [apply filter_length_le|].
  eapply Nat.le_trans; [apply Nat.eq_le_incl, length_combine|].
  rewrite length_seq. apply Nat.le_min_l.
Qed.

(** The three arrays [post_process] returns, read off the selection. *)
Lemma post_process_out (self : NanoDet) (preds : list (list R)) (sf : R)
    (rs : bool) (out_b : list Box) (out_c : list R) (out_ids : list nat) :
  post_process self preds sf rs = Ok (out_b, out_c, out_ids) ->
  exists mb ms classIds confs boxes keep,
    decode_levels self (combine (strides self) (mlvl_anchors self)) 0 preds =
      Ok (mb, ms) /\
    mapM argmax (concat ms) = Ok classIds /\
    mapM amax (concat ms) = Ok confs /\
    boxes = (if rs then map (box_div sf) (concat mb) else concat mb) /\
    keep = NMS_select (map xywh boxes) confs (prob_threshold self)
                      (iou_threshold self) /\
    out_b = map (fun c => nth (fst c) boxes (0, 0, 0, 0)) keep /\
    out_c = map cand_score keep /\
    out_ids = map (fun c => nth (fst c) classIds 0%nat) keep.
Proof.
  intros H.
  destruct (post_process_inv _ _ _ _ _ H) as (mb & ms & ids & conf & Hd & Hi & Hc).
  destruct (post_process_decoded _ _ sf rs _ _ _ _ Hd Hi Hc) as [Hpp Hlen].
  rewrite Hpp in H. apply (suppress_returned _ _ _ _ _ Hlen) in H.
  destruct H as [_ H].
  injection H as <- <- <-.
  exists mb, ms, ids, conf. do 2 eexists.
  repeat split; try eassumption; reflexivity.
Qed.

Lemma post_process_boxes (P : Box -> Prop) (self : NanoDet)
    (preds : list (list R)) (sf : R) (out_b : list Box) (out_c : list R)
    (out_ids : list nat) :
  P (0, 0, 0, 0) ->
  (forall mb ms,
     decode_levels self (combine (strides self) (mlvl_anchors self)) 0 preds =
       Ok (mb, ms) -> Forall (Forall P) mb) ->
  post_process self preds sf false = Ok (out_b, out_c, out_ids) ->
  Forall P out_b.
Proof.
  intros H0 Hdec H.
  destruct (post_process_out _ _ _ _ _ _ _ H)
    as (mb & ms & ids & conf & boxes & keep & Hd & _ & _ & -> & _ & -> & _).
  apply Forall_map, Forall_forall. intros c _.
  apply nth_Forall; [|exact H0]. apply Forall_concat, (Hdec mb ms Hd).
Qed.

(** The rectangles [detect] draws, read off the arrays of [post_process]. *)
Lemma detect_inv (labels : list string) (ishape oshape : list Z) (pt it : R)
    (self : NanoDet) (src_h src_w : Z) (outs : list (list R))
    (dets : list Detection) :
  __init__ labels ishape oshape pt it = Ok self ->
  detect self (src_h, src_w) outs = Ok dets ->
  exists b c ids,
    post_process self outs 1 false = Ok (b, c, ids) /\
    fst (input_shape self) <> 0%Z /\ snd (input_shape self) <> 0%Z /\
    length dets = length b /\
    forall i det, nth_error dets i = Some det ->
      exists box cid conf label,
        nth_error b i = Some box /\ nth_error ids i = Some cid /\
        nth_error c i = Some conf /\
        nth_error (classes self) cid = Some label /\
        det = (remap src_h src_w 0 0
                 (IZR src_h / IZR (fst (input_shape self)))
                 (IZR src_w / IZR (snd (input_shape self))) box, label, conf).
Proof.
  intros Hinit H. unfold detect in H.
  rewrite (init_keep_ratio _ _ _ _ _ _ Hinit), resize_image_stretch in H.
  simpl in H.
  destruct (post_process self outs 1 false) as [[[b c] ids]|] eqn:Hpp;
    [|discriminate].
  simpl in H.
  destruct (Z.eqb_spec (fst (input_shape self)) 0) as [|Hh]; [discriminate|].
  destruct (Z.eqb_spec (snd (input_shape self)) 0) as [|Hw]; [discriminate|].
  simpl in H.
  exists b, c, ids. split; [reflexivity|]. split; [exact Hh|]. split; [exact Hw|].
  assert (Hlen : length dets = length b).
  { rewrite (mapM_length _ _ _ H), length_seq. reflexivity. }
  split; [exact Hlen|]. intros i det Hdet.
  assert (Hi : (i < length b)%nat).
  { rewrite <- Hlen. apply nth_error_Some. congruence. }
  assert (Hseq : nth_error (seq 0 (length b)) i = Some i).
  { rewrite nth_error_seq. destruct (Nat.ltb_spec i (length b)); [reflexivity | lia]. }
  pose proof (mapM_nth_error _ _ _ H i i det Hseq Hdet) as Hf. cbv beta in Hf.
  unfold py_index in Hf.
  destruct (nth_error b i) as [box|] eqn:E1; [|discriminate]. simpl in Hf.
  destruct (nth_error ids i) as [cid|] eqn:E2; [|discriminate]. simpl in Hf.
  destruct (nth_error c i) as [conf|] eqn:E3; [|discriminate]. simpl in Hf.
  destruct (nth_error (classes self) cid) as [label|] eqn:E4; [|discriminate].
  simpl in Hf. injection Hf as <-.
  exists box, cid, conf, label. repeat split; assumption.
Qed.

(** X10. Every rectangle [detect] draws lies inside the source image and has
    its corners in order: [0 <= xmin <= xmax <= width] and
    [0 <= ymin <= ymax <= height]. *)
Theorem detect_rectangles (labels : list string) (ishape oshape : list Z)
    (pt it : R) (self : NanoDet) (src_h src_w : Z) (outs : list (list R))
    (dets : list Detection) :
  __init__ labels ishape oshape pt it = Ok self ->
  (0 < fst (input_shape self))%Z -> (0 < snd (input_shape self))%Z ->
  (0 <= src_h)%Z -> (0 <= src_w)%Z ->
  detect self (src_h, src_w) outs = Ok dets ->
  Forall (rect_ok src_h src_w) dets.
Proof.
  intros Hinit Hh Hw Hsh Hsw H.
  destruct (detect_inv _ _ _ _ _ _ _ _ _ _ Hinit H)
    as (b & c & ids & Hpp & _ & _ & _ & Hdets).
  destruct (post_process_within _ _ _ _ _ _ (Z.lt_le_incl _ _ Hh)
              (Z.lt_le_incl _ _ Hw) Hpp) as (Hin & _ & _).
  assert (Hord : Forall box_ordered b).
  { refine (post_process_boxes box_ordered _ _ _ _ _ _ _ _ Hpp);
      [simpl; lra|].
    intros mb ms Hd. destruct (init_levels _ _ _ _ _ _ Hinit) as [_ Hlv].
    apply (decode_levels_ordered _ _ _ _ _ _
             (init_project _ _ _ _ _ _ Hinit) Hlv Hd). }
  apply Forall_forall. intros det Hdet.
  destruct (In_nth_error _ _ Hdet) as [i Hi].
  destruct (Hdets i det Hi) as (box & cid & conf & label & Hb & _ & _ & _ & ->).
  rewrite Forall_forall in Hin, Hord.
  pose proof (Hin box (nth_error_In _ _ Hb)) as Hbox.
  pose proof (Hord box (nth_error_In _ _ Hb)) as Hbo.
  destruct box as [[[b0 b1] b2] b3]. unfold box_within in Hbox.
  destruct Hbox as (B0 & B1 & B2 & B3). destruct Hbo as [Ox Oy].
  pose proof (scale_bounds b0 _ src_w Hw Hsw B0) as S0.
  pose proof (scale_bounds b1 _ src_h Hh Hsh B1) as S1.
  pose proof (scale_bounds b2 _ src_w Hw Hsw B2) as S2.
  pose proof (scale_bounds b3 _ src_h Hh Hsh B3) as S3.
  destruct (remap_in_range src_h src_w 0 0
              (IZR src_h / IZR (fst (input_shape self)))
              (IZR src_w / IZR (snd (input_shape self))) b0 b1 b2 b3)
    as (xmin & ymin & xmax & ymax & -> & [R0 F0] & [R1 F1] & [R2 F2] & [R3 F3]);
    try (rewrite Rminus_0_r; assumption).
  rewrite !Rminus_0_r in F0, F1, F2, F3. unfold floor_of in *.
  assert (Hrw : 0 <= IZR src_w / IZR (snd (input_shape self))).
  { apply IZR_le in Hsw. apply IZR_lt in Hw. unfold Rdiv.
    apply Rmult_le_pos; [exact Hsw|]. apply Rlt_le, Rinv_0_lt_compat, Hw. }
  assert (Hrh : 0 <= IZR src_h / IZR (fst (input_shape self))).
  { apply IZR_le in Hsh. apply IZR_lt in Hh. unfold Rdiv.
    apply Rmult_le_pos; [exact Hsh|]. apply Rlt_le, Rinv_0_lt_compat, Hh. }
  assert (Mx : b0 * (IZR src_w / IZR (snd (input_shape self))) <=
               b2 * (IZR src_w / IZR (snd (input_shape self))))
    by (apply Rmult_le_compat_r; assumption).
  assert (My : b1 * (IZR src_h / IZR (fst (input_shape self))) <=
               b3 * (IZR src_h / IZR (fst (input_shape self))))
    by (apply Rmult_le_compat_r; assumption).
  assert (Hx : (xmin <= xmax)%Z).
  { apply Z.lt_succ_r, lt_IZR. rewrite succ_IZR. lra. }
  assert (Hy : (ymin <= ymax)%Z).
  { apply Z.lt_succ_r, lt_IZR. rewrite succ_IZR. lra. }
  unfold rect_ok. lia.
Qed.

Lemma detect_rectangles_witness :
  exists dets,
    detect tiny (480, 640)%Z tiny_preds = Ok dets /\
    Forall (rect_ok 480 640) dets.
Proof.
  destruct (tiny_detect 0.4 0.3 (480, 640)%Z) as [dets Hdets]; [lra|].
  exists dets. split; [exact Hdets|].
  apply (detect_rectangles _ _ _ _ _ tiny 480 640 tiny_preds dets init_tiny);
    try (simpl; lia). exact Hdets.
Defined.

(** ** The class and the confidence of a detection *)

Lemma argmax_from_spec (r pre : list R) (best : nat) (vbest : R) :
  nth_error pre best = Some vbest ->
  Forall (fun s => s <= vbest) pre ->
  (forall j s, (j < best)%nat -> nth_error pre j = Some s -> s < vbest) ->
  first_maximum (pre ++ r) (argmax_from best vbest (length pre) r)
                (fold_left Rmax r vbest).
Proof.
  revert pre best vbest.
  induction r as [|v r IH]; intros pre best vbest Hb Hle Hlt; simpl.
  - rewrite app_nil_r. repeat split; assumption.
  - assert (Hbl : (best < length pre)%nat) by (apply nth_error_Some; congruence).
    replace (pre ++ v :: r) with ((pre ++ [v]) ++ r)
      by (rewrite <- app_assoc; reflexivity).
    replace (S (length pre)) with (length (pre ++ [v]))
      by (rewrite length_app; simpl; lia).
    destruct (Rltb vbest v) eqn:E.
    + apply Rltb_true in E. rewrite Rmax_right by lra. apply IH.
      * rewrite nth_error_app2, Nat.sub_diag by lia. reflexivity.
      * apply Forall_app. split; [|constructor; [lra | constructor]].
        eapply Forall_impl; [|exact Hle]. intros s Hs. cbv beta in Hs. lra.
      * intros j s Hj Hs. rewrite nth_error_app1 in Hs by exact Hj.
        rewrite Forall_forall in Hle.
        pose proof (Hle s (nth_error_In _ _ Hs)). lra.
    + apply Rltb_false in E. rewrite Rmax_left by lra. apply IH.
      * rewrite nth_error_app1 by exact Hbl. exact Hb.
      * apply Forall_app. split; [exact Hle | constructor; [lra | constructor]].
      * intros j s Hj Hs. rewrite nth_error_app1 in Hs by lia.
        apply (Hlt j s Hj Hs).
Qed.

Lemma argmax_amax (row : list R) (cid : nat) (conf : R) :
  argmax row = Ok cid -> amax row = Ok conf -> first_maximum row cid conf.
Proof.
  destruct row as [|x r]; [discriminate|]. simpl.
  intros H1 H2. injection H1 as <-. injection H2 as <-.
  apply (argmax_from_spec r [x] 0 x).
  - reflexivity.
  - constructor; [lra | constructor].
  - intros j s Hj. lia.
Qed.

Lemma prune_level_scores (Q : list R -> Prop) (anchors anchors' : list (Z * Z))
    (bbox_pred cls_score bbox_pred' cls_score' : list (list R)) :
  prune_level anchors bbox_pred cls_score = Ok (anchors', bbox_pred', cls_score') ->
  Forall Q cls_score -> Forall Q cls_score'.
Proof.
  unfold prune_level. destruct (_ && _).
  - destruct (mapM amax cls_score) as [ms|]; [|discriminate]. simpl.
    destruct (take anchors _) as [a|]; [|discriminate]. simpl.
    destruct (take bbox_pred _) as [b|]; [|discriminate]. simpl.
    destruct (take cls_score _) as [c|] eqn:Hc; [|discriminate]. simpl.
    intros H; injection H as <- <- <-. apply (take_Forall _ _ _ _ Hc).
  - intros H; injection H as <- <- <-. auto.
Qed.

(** Every row of class scores that reaches the suppression is the class
    part of a row of the tensor. *)
Lemma decode_levels_scores (self : NanoDet) (levels : list (Z * list (Z * Z)))
    (ind : nat) (preds : list (list R)) (mb : list (list Box))
    (ms : list (list (list R))) :
  decode_levels self levels ind preds = Ok (mb, ms) ->
  Forall (Forall (fun r => exists row,
                    In row preds /\ r = firstn (num_classes self) row)) ms.
Proof.
  revert ind mb ms.
  induction levels as [|[stride anchors] levels IH]; intros ind mb ms; simpl.
  - intros H; injection H as <- <-. constructor.
  - destruct (decode_distances self stride _) as [dist|]; [|discriminate]. simpl.
    destruct (prune_level anchors dist _) as [[[a' b'] c']|] eqn:Hp; [|discriminate].
    simpl.
    destruct (distance2bbox a' b' _) as [boxes|]; [|discriminate]. simpl.
    destruct (decode_levels self levels _ preds) as [[mb' ms']|] eqn:Hrec;
      [|discriminate]. simpl.
    intros H; injection H as <- <-. constructor; [|apply (IH _ _ _ Hrec)].
    apply (prune_level_scores _ _ _ _ _ _ _ Hp).
    apply Forall_map, Forall_forall. intros row Hrow. exists row.
    split; [|reflexivity]. apply firstn_In in Hrow.
    rewrite <- (firstn_skipn ind preds). apply in_or_app. right. exact Hrow.
Qed.

Lemma Forall2_map_same {A B C : Type} (P : B -> C -> Prop) (f : A -> B)
    (g : A -> C) (l : list A) :
  (forall x, In x l -> P (f x) (g x)) -> Forall2 P (map f l) (map g l).
Proof.
  induction l as [|a l IH]; intros H; simpl; constructor.
  - apply H. left. reflexivity.
  - apply IH. intros x Hx. apply H. right. exact Hx.
Qed.

(** Lines 239, 240 and 249 to 251 of [post_process]: the confidence and the
    class id returned at the same position belong together. *)
Lemma post_process_best (self : NanoDet) (preds : list (list R)) (sf : R)
    (rs : bool) (out_b : list Box) (out_c : list R) (out_ids : list nat) :
  post_process self preds sf rs = Ok (out_b, out_c, out_ids) ->
  Forall2 (fun conf cid =>
             exists row, In row preds /\
               first_maximum (firstn (num_classes self) row) cid conf)
          out_c out_ids.
Proof.
  intros H.
  destruct (post_process_out _ _ _ _ _ _ _ H)
    as (mb & ms & ids & conf & boxes & keep & Hd & Hi & Hc & _ & Hk & _ & -> & ->).
  apply Forall2_map_same. intros k Hin. rewrite Hk in Hin.
  destruct (NMS_select_In _ _ _ _ _ Hin) as (_ & Hs & _).
  assert (Hlt : (fst k < length conf)%nat) by (apply nth_error_Some; congruence).
  pose proof (mapM_length _ _ _ Hc) as Lc.
  pose proof (mapM_length _ _ _ Hi) as Li.
  destruct (nth_error (concat ms) (fst k)) as [r|] eqn:Er;
    [|apply nth_error_None in Er; lia].
  assert (Eid : nth_error ids (fst k) = Some (nth (fst k) ids 0%nat))
    by (apply nth_error_nth'; lia).
  pose proof (mapM_nth_error _ _ _ Hc _ _ _ Er Hs) as Hamax.
  pose proof (mapM_nth_error _ _ _ Hi _ _ _ Er Eid) as Hargmax.
  pose proof (decode_levels_scores _ _ _ _ _ _ Hd) as Hrows.
  apply Forall_concat in Hrows. rewrite Forall_forall in Hrows.
  destruct (Hrows r (nth_error_In _ _ Er)) as (row & Hrow & ->).
  exists row. split; [exact Hrow|]. apply argmax_amax; assumption.
Qed.

(** X11. Every label [detect] draws is the name of the best class of a row
    of the output tensor, with the score of that class as its confidence:
    the score is the largest class score of the row, and of several classes
    with that score the first one is named. *)
Theorem detect_reports_best_class (labels : list string) (ishape oshape : list Z)
    (pt it : R) (self : NanoDet) (src_h src_w : Z) (outs : list (list R))
    (dets : list Detection) :
  __init__ labels ishape oshape pt it = Ok self ->
  detect self (src_h, src_w) outs = Ok dets ->
  Forall (fun det =>
            exists row cid,
              In row outs /\
              first_maximum (firstn (num_classes self) row) cid (snd det) /\
              nth_error (classes self) cid = Some (snd (fst det)))
         dets.
Proof.
  intros Hinit H.
  destruct (detect_inv _ _ _ _ _ _ _ _ _ _ Hinit H)
    as (b & c & ids & Hpp & _ & _ & _ & Hdets).
  pose proof (post_process_best _ _ _ _ _ _ _ Hpp) as Hbest.
  apply Forall_forall. intros det Hdet.
  destruct (In_nth_error _ _ Hdet) as [i Hi].
  destruct (Hdets i det Hi) as (box & cid & conf & label & _ & Hid & Hc & Hl & ->).
  assert (Hpair : exists row, In row outs /\
            first_maximum (firstn (num_classes self) row) cid conf).
  { clear - Hbest Hid Hc. revert i Hid Hc.
    induction Hbest as [|x y c ids Hxy _ IH]; intros [|i] Hid Hc;
      simpl in *; try discriminate.
    - injection Hid as <-. injection Hc as <-. exact Hxy.
    - apply (IH i); assumption. }
  destruct Hpair as (row & Hrow & Hmax). exists row, cid. simpl. auto.
Qed.

Lemma detect_reports_best_class_witness :
  exists dets,
    detect tiny (480, 640)%Z tiny_preds = Ok dets /\
    Forall (fun det =>
              exists row cid,
                In row tiny_preds /\
                first_maximum (firstn (num_classes tiny) row) cid (snd det) /\
                nth_error (classes tiny) cid = Some (snd (fst det)))
           dets.
Proof.
  destruct (tiny_detect 0.4 0.3 (480, 640)%Z) as [dets Hdets]; [lra|].
  exists dets. split; [exact Hdets|].
  apply (detect_reports_best_class _ _ _ _ _ tiny 480 640 tiny_preds dets
           init_tiny Hdets).
Defined.

(** ** How many detections, and how confident *)

Lemma prune_level_length (anchors anchors' : list (Z * Z))
    (bbox_pred cls_score bbox_pred' cls_score' : list (list R)) :
  prune_level anchors bbox_pred cls_score = Ok (anchors', bbox_pred', cls_score') ->
  length cls_score' = level_candidates (length cls_score).
Proof.
  unfold prune_level, level_candidates.
  destruct (Nat.ltb_spec 0 nms_pre) as [_|H0]; [|unfold nms_pre in H0; lia].
  destruct (Nat.ltb_spec nms_pre (length cls_score)) as [Hlt|Hge]; cbn [andb].
  - destruct (mapM amax cls_score) as [ms|] eqn:Hm; [|discriminate]. simpl.
    destruct (take anchors _) as [a|]; [|discriminate]. simpl.
    destruct (take bbox_pred _) as [b|]; [|discriminate]. simpl.
    destruct (take cls_score _) as [c|] eqn:Hc; [|discriminate]. simpl.
    intros H; injection H as <- <- <-.
    unfold take in Hc. rewrite (mapM_length _ _ _ Hc), topk_inds_length.
    + rewrite Nat.min_r; lia.
    + rewrite (mapM_length _ _ _ Hm). lia.
  - intros H; injection H as <- <- <-. rewrite Nat.min_l; lia.
Qed.

Lemma decode_levels_counts (self : NanoDet) (levels : list (Z * list (Z * Z)))
    (ind : nat) (preds : list (list R)) (mb : list (list Box))
    (ms : list (list (list R))) :
  decode_levels self levels ind preds = Ok (mb, ms) ->
  (length (concat ms) <=
   list_sum (map (fun l => level_candidates (length (snd l))) levels))%nat.
Proof.
  revert ind mb ms.
  induction levels as [|[stride anchors] levels IH]; intros ind mb ms; simpl.
  - intros H; injection H as <- <-. simpl. lia.
  - destruct (decode_distances self stride _) as [dist|]; [|discriminate]. simpl.
    destruct (prune_level anchors dist _) as [[[a' b'] c']|] eqn:Hp; [|discriminate].
    simpl.
    destruct (distance2bbox a' b' _) as [boxes|]; [|discriminate]. simpl.
    destruct (decode_levels self levels _ preds) as [[mb' ms']|] eqn:Hrec;
      [|discriminate]. simpl.
    intros H; injection H as <- <-. simpl. rewrite length_app.
    specialize (IH _ _ _ Hrec).
    rewrite (prune_level_length _ _ _ _ _ _ Hp), length_map.
    pose proof (firstn_le_length (length anchors) (skipn ind preds)) as Hf.
    unfold level_candidates in *. lia.
Qed.

(** X13. [post_process] returns three arrays of the same length, and the
    number of detections is at most the sum over the levels of
    [min(n, 1000)], [n] the number of anchors of the level, so never more
    than 4000 (with no more indices selected than there are candidates, as
    section 4.5 of the specification describes [cv2.dnn.NMSBoxes]). *)
Theorem detections_bounded (labels : list string) (ishape oshape : list Z)
    (pt it : R) (self : NanoDet) (preds : list (list R)) (sf : R) (rs : bool)
    (out_b : list Box) (out_c : list R) (out_ids : list nat) :
  __init__ labels ishape oshape pt it = Ok self ->
  post_process self preds sf rs = Ok (out_b, out_c, out_ids) ->
  length out_c = length out_b /\ length out_ids = length out_b /\
  (length out_b <=
   list_sum (map (fun a => level_candidates (length a)) (mlvl_anchors self)))%nat /\
  (length out_b <= 4 * nms_pre)%nat.
Proof.
  intros Hinit H.
  destruct (post_process_out _ _ _ _ _ _ _ H)
    as (mb & ms & ids & conf & boxes & keep & Hd & _ & Hc & _ & Hk & -> & -> & ->).
  rewrite !length_map. split; [reflexivity|]. split; [reflexivity|].
  assert (Hkeep : (length keep <= length (concat ms))%nat).
  { rewrite Hk, <- (mapM_length _ _ _ Hc). apply NMS_select_length. }
  pose proof (decode_levels_counts _ _ _ _ _ _ Hd) as Hcount.
  destruct (init_levels _ _ _ _ _ _ Hinit) as [Hsnd _].
  rewrite <- (map_map snd (fun a => level_candidates (length a))), Hsnd in Hcount.
  split; [exact (Nat.le_trans _ _ _ Hkeep Hcount)|].
  eapply Nat.le_trans; [exact Hkeep|].
  destruct (init_anchors _ _ _ _ _ _ Hinit) as [Hst Ha].
  rewrite Hst in Ha. rewrite Ha in Hcount. simpl in Hcount.
  unfold level_candidates in Hcount. lia.
Qed.

Lemma detections_bounded_witness :
  exists out_b out_c out_ids,
    post_process tiny tiny_preds 1 false = Ok (out_b, out_c, out_ids) /\
    length out_c = length out_b /\ length out_ids = length out_b /\
    (length out_b <=
     list_sum (map (fun a => level_candidates (length a)) (mlvl_anchors tiny)))%nat /\
    (length out_b <= 4 * nms_pre)%nat.
Proof.
  destruct (tiny_post_process 0.4 0.3 1 false) as (out_b & out_c & out_ids & Hpp);
    [lra|].
  exists out_b, out_c, out_ids. split; [exact Hpp|].
  apply (detections_bounded _ _ _ _ _ tiny tiny_preds 1 false _ _ _ init_tiny Hpp).
Defined.

(** X14. With [cv2.dnn.NMSBoxes] as section 4.5 of the specification
    describes it, every confidence [post_process] returns is at least
    [prob_threshold], and the confidences are returned in non-increasing
    order. *)
Theorem detections_confident (self : NanoDet) (preds : list (list R)) (sf : R)
    (rs : bool) (out_b : list Box) (out_c : list R) (out_ids : list nat) :
  post_process self preds sf rs = Ok (out_b, out_c, out_ids) ->
  Forall (fun s => prob_threshold self <= s) out_c /\
  ForallOrdPairs (fun s s' => s' <= s) out_c.
Proof.
  intros H.
  destruct (post_process_out _ _ _ _ _ _ _ H)
    as (mb & ms & ids & conf & boxes & keep & _ & _ & _ & _ & Hk & _ & -> & _).
  split.
  - apply Forall_map, Forall_forall. intros k Hin. rewrite Hk in Hin.
    destruct (NMS_select_In _ _ _ _ _ Hin) as (_ & _ & Hp).
    unfold passes in Hp. apply negb_true_iff, Rltb_false in Hp. exact Hp.
  - apply FOP_map. rewrite Hk.
    eapply FOP_impl; [|apply NMS_select_sorted].
    intros x y _ _ Hxy. apply Rleb_true in Hxy. exact Hxy.
Qed.

Lemma detections_confident_witness :
  exists out_b out_c out_ids,
    post_process tiny tiny_preds 1 false = Ok (out_b, out_c, out_ids) /\
    Forall (fun s => prob_threshold tiny <= s) out_c /\
    ForallOrdPairs (fun s s' => s' <= s) out_c.
Proof.
  destruct (tiny_post_process 0.4 0.3 1 false) as (out_b & out_c & out_ids & Hpp);
    [lra|].
  exists out_b, out_c, out_ids. split; [exact Hpp|].
  apply (detections_confident tiny tiny_preds 1 false _ _ _ Hpp).
Defined.

(** ** The tensor handed to the inference session *)

Lemma normalize_pixel_3 (px : list Z) :
  length px = 3%nat ->
  normalize_pixel px =
  Ok (map (fun c => (IZR (nth c px 0%Z) - nth c mean 0) / nth c std 0) (seq 0 3)).
Proof.
  destruct px as [|a [|b [|c [|d px]]]]; try discriminate. intros _. reflexivity.
Qed.

Lemma normalize_pixel_1 (px : list Z) :
  length px = 1%nat ->
  normalize_pixel px =
  Ok (map (fun c => (IZR (nth 0 px 0%Z) - nth c mean 0) / nth c std 0) (seq 0 3)).
Proof.
  destruct px as [|a [|b px]]; try discriminate. intros _. reflexivity.
Qed.

Lemma normalize_pixel_raises (px : list Z) :
  length px <> 1%nat -> length px <> 3%nat ->
  normalize_pixel px = Raise ValueError.
Proof.
  destruct px as [|a [|b [|c [|d px]]]]; intros H1 H3; try contradiction;
    reflexivity.
Qed.

Lemma normalize_pixel_error (px : list Z) (e : exn) :
  normalize_pixel px = Raise e -> e = ValueError.
Proof.
  destruct px as [|a [|b [|c [|d px]]]]; intros H;
    try discriminate H; injection H as <-; reflexivity.
Qed.

Lemma mapM_raises {A B : Type} (f : A -> result B) (e : exn) (l : list A) :
  (forall a e', f a = Raise e' -> e' = e) ->
  Exists (fun a => exists e', f a = Raise e') l -> mapM f l = Raise e.
Proof.
  intros Hall. induction 1 as [a l [e' Ha]|a l _ IH]; simpl.
  - rewrite Ha. simpl. rewrite (Hall _ _ Ha). reflexivity.
  - destruct (f a) as [b|e'] eqn:E; simpl.
    + rewrite IH. reflexivity.
    + rewrite (Hall _ _ E). reflexivity.
Qed.

Lemma mapM_error {A B : Type} (f : A -> result B) (e e0 : exn) (l : list A) :
  (forall a e', f a = Raise e' -> e' = e) -> mapM f l = Raise e0 -> e0 = e.
Proof.
  intros Hall. induction l as [|a l IH]; simpl; [discriminate|].
  destruct (f a) as [b|e'] eqn:E; simpl.
  - destruct (mapM f l) as [bs|e1]; simpl; [discriminate|].
    intros H. injection H as <-. apply IH. reflexivity.
  - intros H. injection H as <-. apply (Hall _ _ E).
Qed.

(** X15. The tensor [detect] hands to the inference session for a resized
    image of three channels has one batch entry of three planes, and plane
    [c] holds, at the row and the column of each pixel, the value of channel
    [c] of that pixel less [mean[c]] and divided by [std[c]]; for pixel
    values between 0 and 255 every entry lies between -2.12 and 2.65. *)
Theorem blob_layout (img : list (list (list Z))) :
  Forall (Forall (fun px => length px = 3%nat)) img ->
  blob_of img =
    Ok [map (fun c =>
               map (map (fun px =>
                           (IZR (nth c px 0%Z) - nth c mean 0) / nth c std 0))
                   img)
            (seq 0 3)] /\
  (Forall (Forall (Forall (fun v => (0 <= v <= 255)%Z))) img ->
   forall blob, blob_of img = Ok blob ->
     Forall (Forall (Forall (Forall (fun v => -2.12 <= v <= 2.65)))) blob).
Proof.
  intros Hshape.
  assert (Hn : _normalize img =
    Ok (map (map (fun px =>
                    map (fun c => (IZR (nth c px 0%Z) - nth c mean 0) / nth c std 0)
                        (seq 0 3))) img)).
  { unfold _normalize. apply mapM_ok. eapply Forall_impl; [|exact Hshape].
    intros row Hrow. cbv beta in Hrow. apply mapM_ok.
    eapply Forall_impl; [|exact Hrow]. intros px Hpx. cbv beta in Hpx.
    apply normalize_pixel_3, Hpx. }
  assert (Hblob : blob_of img =
    Ok [map (fun c =>
               map (map (fun px =>
                           (IZR (nth c px 0%Z) - nth c mean 0) / nth c std 0))
                   img)
            (seq 0 3)]).
  { unfold blob_of. rewrite Hn. unfold bind, transpose_2_0_1.
    do 2 f_equal. apply map_ext_in. intros c Hc.
    rewrite map_map. apply map_ext. intros row.
    rewrite map_map. apply map_ext. intros px.
    apply in_seq in Hc.
    destruct c as [|[|[|c]]]; [reflexivity | reflexivity | reflexivity | lia]. }
  split; [exact Hblob|].
  intros Hrange blob Hb.
  assert (Hplanes :
    Forall (Forall (Forall (fun v => -2.12 <= v <= 2.65)))
      (map (fun c =>
              map (map (fun px =>
                          (IZR (nth c px 0%Z) - nth c mean 0) / nth c std 0))
                  img)
           (seq 0 3)));
    [|rewrite Hblob in Hb; injection Hb as <-;
      constructor; [exact Hplanes | constructor]].
  apply Forall_map, Forall_forall. intros c Hc. apply in_seq in Hc.
  apply Forall_map. rewrite Forall_forall in Hrange, Hshape.
  apply Forall_forall. intros row Hrow.
  specialize (Hrange row Hrow). specialize (Hshape row Hrow).
  apply Forall_map. rewrite Forall_forall in Hrange, Hshape.
  apply Forall_forall. intros px Hpx.
  specialize (Hrange px Hpx). specialize (Hshape px Hpx).
  assert (Hv : (0 <= nth c px 0 <= 255)%Z).
  { rewrite Forall_forall in Hrange. apply Hrange, nth_In. lia. }
  destruct Hv as [Hv0 Hv1]. apply IZR_le in Hv0, Hv1.
  destruct c as [|[|[|c]]]; [| | |lia]; unfold mean, std; cbn [nth];
    unfold Rdiv; lra.
Qed.

Lemma blob_layout_witness :
  blob_of [[[0; 128; 255]; [255; 0; 7]]]%Z =
    Ok [map (fun c =>
               map (map (fun px =>
                           (IZR (nth c px 0%Z) - nth c mean 0) / nth c std 0))
                   [[[0; 128; 255]; [255; 0; 7]]]%Z)
            (seq 0 3)] /\
  (Forall (Forall (Forall (fun v => (0 <= v <= 255)%Z)))
          [[[0; 128; 255]; [255; 0; 7]]]%Z ->
   forall blob, blob_of [[[0; 128; 255]; [255; 0; 7]]]%Z = Ok blob ->
     Forall (Forall (Forall (Forall (fun v => -2.12 <= v <= 2.65)))) blob).
Proof.
  apply (blob_layout [[[0; 128; 255]; [255; 0; 7]]]%Z).
  repeat constructor.
Defined.

(** X16. [_normalize] broadcasts the channel axis of the image against the
    three channels of [mean] and [std]: a pixel with a single channel is
    normalised three times, once for each entry of [mean] and [std], and an
    image with a pixel of any other number of channels than one or three
    raises [ValueError], in [_normalize] and so before the inference session
    is run. *)
Theorem normalize_channels (img : list (list (list Z))) :
  (Forall (Forall (fun px => length px = 1%nat)) img ->
   _normalize img =
   Ok (map (map (fun px =>
                   map (fun c => (IZR (nth 0 px 0%Z) - nth c mean 0) / nth c std 0)
                       (seq 0 3))) img)) /\
  (Exists (Exists (fun px => length px <> 1%nat /\ length px <> 3%nat)) img ->
   _normalize img = Raise ValueError /\ blob_of img = Raise ValueError).
Proof.
  split.
  - intros Hshape. unfold _normalize. apply mapM_ok.
    eapply Forall_impl; [|exact Hshape].
    intros row Hrow. cbv beta in Hrow. apply mapM_ok.
    eapply Forall_impl; [|exact Hrow]. intros px Hpx. cbv beta in Hpx.
    apply normalize_pixel_1, Hpx.
  - intros Hbad.
    assert (Hn : _normalize img = Raise ValueError).
    { unfold _normalize. apply mapM_raises.
      - intros row e'. apply mapM_error. apply normalize_pixel_error.
      - eapply Exists_impl; [|exact Hbad]. intros row Hrow. cbv beta in Hrow.
        exists ValueError. apply mapM_raises; [apply normalize_pixel_error|].
        eapply Exists_impl; [|exact Hrow]. intros px [H1 H3].
        exists ValueError. apply normalize_pixel_raises; assumption. }
    split; [exact Hn|]. unfold blob_of. rewrite Hn. reflexivity.
Qed.

Lemma normalize_channels_witness :
  (Forall (Forall (fun px => length px = 1%nat)) [[[7]; [9]]]%Z ->
   _normalize [[[7]; [9]]]%Z =
   Ok (map (map (fun px =>
                   map (fun c => (IZR (nth 0 px 0%Z) - nth c mean 0) / nth c std 0)
                       (seq 0 3))) [[[7]; [9]]]%Z)) /\
  (Exists (Exists (fun px => length px <> 1%nat /\ length px <> 3%nat))
          [[[7]; [9]]]%Z ->
   _normalize [[[7]; [9]]]%Z = Raise ValueError /\
   blob_of [[[7]; [9]]]%Z = Raise ValueError).
Proof.
  apply (normalize_channels [[[7]; [9]]]%Z).
Defined.

(** ** A tensor with too few rows *)

Lemma decode_levels_short (self : NanoDet) (stride : Z) (anchors : list (Z * Z))
    (levels : list (Z * list (Z * Z))) (preds : list (list R)) :
  project self = np.arange 0 (reg_max self + 1) -> (0 <= reg_max self)%Z ->
  Forall (fun row =>
            length row = (num_classes self + 4 * Z.to_nat (reg_max self + 1))%nat)
         preds ->
  (2 <= length preds <= nms_pre)%nat -> (length preds < length anchors)%nat ->
  decode_levels self ((stride, anchors) :: levels) 0 preds = Raise ValueError.
Proof.
  intros Hproj Hreg Hrows Hm Hshort. cbn [decode_levels].
  rewrite skipn_O, firstn_all2 by lia.
  destruct (decode_distances_total self stride (map (skipn (num_classes self)) preds)
              Hproj Hreg) as (dist & Hd & Hlen & Hfour).
  { apply Forall_map. eapply Forall_impl; [|exact Hrows].
    intros row Hrow. cbv beta in Hrow. rewrite length_skipn. lia. }
  rewrite length_map in Hlen. rewrite Hd. cbn [bind].
  assert (Hp : prune_level anchors dist (map (firstn (num_classes self)) preds) =
               Ok (anchors, dist, map (firstn (num_classes self)) preds)).
  { unfold prune_level. rewrite length_map.
    destruct (Nat.ltb_spec nms_pre (length preds)) as [|_]; [lia|].
    rewrite andb_false_r. reflexivity. }
  rewrite Hp. cbn [bind].
  destruct (distance2bbox_shapes anchors dist (Some (input_shape self)))
    as [_ Hraise].
  - intros ->. simpl in Hshort. lia.
  - intros ->. simpl in Hlen. lia.
  - exact Hfour.
  - rewrite Hraise by lia. reflexivity.
Qed.

(** X17. A tensor of well-formed rows that has at least two rows, at most
    1000, and fewer rows than the first level has anchors is rejected: the
    distances of the first level cannot be broadcast against its anchors, and
    [post_process] and [detect] raise [ValueError]. *)
Theorem short_tensor_rejected (labels : list string) (ishape oshape : list Z)
    (pt it : R) (self : NanoDet) (preds : list (list R)) (sf : R) (rs : bool)
    (srcimg_shape : Z * Z) :
  __init__ labels ishape oshape pt it = Ok self ->
  (0 <= reg_max self)%Z ->
  Forall (fun row =>
            length row = (num_classes self + 4 * Z.to_nat (reg_max self + 1))%nat)
         preds ->
  (2 <= length preds <= nms_pre)%nat ->
  (length preds < length (nth 0 (mlvl_anchors self) []))%nat ->
  post_process self preds sf rs = Raise ValueError /\
  detect self srcimg_shape preds = Raise ValueError.
Proof.
  intros Hinit Hreg Hrows Hm Hshort.
  assert (Hpp : forall sf' rs', post_process self preds sf' rs' = Raise ValueError).
  { intros sf' rs'. unfold post_process.
    destruct (init_anchors _ _ _ _ _ _ Hinit) as [Hst Ha].
    rewrite Hst in Ha. rewrite Ha in Hshort. rewrite Hst, Ha. cbn [map combine].
    cbn [map nth] in Hshort.
    rewrite (decode_levels_short _ _ _ _ _ (init_project _ _ _ _ _ _ Hinit)
               Hreg Hrows Hm Hshort).
    reflexivity. }
  split; [apply Hpp|]. unfold detect. destruct srcimg_shape as [src_h src_w].
  rewrite (init_keep_ratio _ _ _ _ _ _ Hinit), resize_image_stretch. cbn [bind].
  rewrite Hpp. reflexivity.
Qed.

Lemma short_tensor_rejected_witness :
  exists self,
    __init__ ["person"%string] [1; 3; 16; 16]%Z [1; 4; 9]%Z 0.4 0.3 = Ok self /\
    post_process self [[0.9; 0; 0; 0; 0; 0; 0; 0; 0];
                       [0.1; 0; 0; 0; 0; 0; 0; 0; 0]] 1 false =
      Raise ValueError /\
    detect self (480, 640)%Z [[0.9; 0; 0; 0; 0; 0; 0; 0; 0];
                              [0.1; 0; 0; 0; 0; 0; 0; 0; 0]] =
      Raise ValueError.
Proof.
  eexists. split; [reflexivity|].
  eapply (short_tensor_rejected ["person"%string] [1; 3; 16; 16]%Z [1; 4; 9]%Z
            0.4 0.3).
  - reflexivity.
  - simpl. lia.
  - repeat constructor.
  - unfold nms_pre. simpl. lia.
  - simpl. lia.
Defined.

(** ** Every detection is decoded from one row at one anchor *)

Lemma chunk_spec (k m : nat) (v : list R) :
  (0 < k)%nat -> length v = (m * k)%nat ->
  length (chunk k v) = m /\ Forall (fun c => length c = k) (chunk k v) /\
  concat (chunk k v) = v.
Proof.
  intros Hk Hlen. destruct (split_chunks k m v Hlen) as (vs & Hc & Hl & Hf).
  assert (chunk k v = vs) as ->; [|auto].
  unfold chunk. rewrite <- Hc at 2. apply chunk_aux_concat; try assumption.
  rewrite Hlen, Hl. nia.
Qed.

Lemma decode_distances_rows (self : NanoDet) (stride : Z) (rows : list (list R)) :
  project self = np.arange 0 (reg_max self + 1) -> (0 <= reg_max self)%Z ->
  Forall (fun row => length row = (4 * Z.to_nat (reg_max self + 1))%nat) rows ->
  decode_distances self stride rows = Ok (map (row_distances self stride) rows).
Proof.
  intros Hproj Hreg Hrows.
  set (k := Z.to_nat (reg_max self + 1)) in *.
  assert (Hk : (0 < k)%nat) by (unfold k; lia).
  pose proof (decode_distances_quads self stride (map (chunk k) rows) Hproj Hreg)
    as H.
  rewrite map_map in H.
  assert (Hid : map (fun row => concat (chunk k row)) rows = rows).
  { rewrite <- (map_id rows) at 2. apply map_ext_in. intros row Hin.
    rewrite Forall_forall in Hrows.
    apply (chunk_spec k 4 row Hk (Hrows row Hin)). }
  rewrite Hid in H. rewrite H.
  - unfold row_distances. rewrite map_map. reflexivity.
  - apply Forall_map. eapply Forall_impl; [|exact Hrows].
    intros row Hrow. cbv beta in Hrow.
    destruct (chunk_spec k 4 row Hk Hrow) as (H4 & Hf & _). split; assumption.
Qed.

Lemma prune_level_inds (anchors anchors' : list (Z * Z))
    (bbox_pred cls_score bbox_pred' cls_score' : list (list R)) :
  length anchors = length cls_score -> length bbox_pred = length cls_score ->
  prune_level anchors bbox_pred cls_score = Ok (anchors', bbox_pred', cls_score') ->
  exists inds,
    Forall (fun i => (i < length cls_score)%nat) inds /\
    anchors' = map (fun i => nth i anchors (0, 0)%Z) inds /\
    bbox_pred' = map (fun i => nth i bbox_pred []) inds /\
    cls_score' = map (fun i => nth i cls_score []) inds.
Proof.
  intros La Lb H.
  destruct (Nat.ltb_spec nms_pre (length cls_score)) as [Hover|Hunder].
  - destruct (mapM amax cls_score) as [ms|] eqn:Hm.
    + rewrite (prune_level_over _ _ _ ms Hover) in H by (lia || exact Hm).
      injection H as <- <- <-. exists (topk_inds ms). split; [|auto].
      apply Forall_forall. intros i Hi. apply topk_inds_In in Hi.
      rewrite (mapM_length _ _ _ Hm) in Hi. exact Hi.
    + unfold prune_level in H.
      destruct (Nat.ltb 0 nms_pre && Nat.ltb nms_pre (length cls_score));
        [rewrite Hm in H; discriminate|].
      apply Nat.ltb_lt in Hover. injection H as <- <- <-.
      exists (seq 0 (length cls_score)). split.
      * apply Forall_forall. intros i Hi. apply in_seq in Hi. lia.
      * repeat split; symmetry; [rewrite <- La | rewrite <- Lb |];
          apply map_nth_seq.
  - unfold prune_level in H.
    destruct (Nat.ltb_spec nms_pre (length cls_score)) as [|_]; [lia|].
    rewrite andb_false_r in H. injection H as <- <- <-.
    exists (seq 0 (length cls_score)). split.
    + apply Forall_forall. intros i Hi. apply in_seq in Hi. lia.
    + repeat split; symmetry; [rewrite <- La | rewrite <- Lb |];
        apply map_nth_seq.
Qed.

Lemma stack4_anchor_box (mh mw : Z) (points : list (Z * Z))
    (distance : list (list R)) :
  length points = length distance ->
  let px := map (fun p => IZR (fst p)) points in
  let py := map (fun p => IZR (snd p)) points in
  let col j := map (fun row : list R => nth j row 0) distance in
  stack4
    (map (clip 0 (IZR mw)) (map (fun p => fst p - snd p) (combine px (col 0%nat))))
    (map (clip 0 (IZR mh)) (map (fun p => fst p - snd p) (combine py (col 1%nat))))
    (map (clip 0 (IZR mw)) (map (fun p => fst p + snd p) (combine px (col 2%nat))))
    (map (clip 0 (IZR mh)) (map (fun p => fst p + snd p) (combine py (col 3%nat)))) =
  map (anchor_box mh mw) (combine points distance).
Proof.
  revert distance. induction points as [|p points IH]; intros [|d distance] Hlen;
    simpl in *; try discriminate; [reflexivity|].
  rewrite IH by lia. reflexivity.
Qed.

Lemma distance2bbox_aligned (mh mw : Z) (points : list (Z * Z))
    (distance : list (list R)) :
  length points = length distance ->
  Forall (fun row => length row = 4%nat) distance ->
  distance2bbox points distance (Some (mh, mw)) =
  Ok (map (anchor_box mh mw) (combine points distance)).
Proof.
  intros Hlen Hrows. unfold distance2bbox.
  destruct (Nat.eqb_spec (length points) 0) as [E|E].
  - destruct points; [reflexivity | discriminate].
  - destruct (Nat.eqb_spec (length (np.flatten distance)) 0) as [E'|E'].
    + unfold np.flatten in E'.
      rewrite (concat_uniform_length 4) in E' by exact Hrows. lia.
    + cbn [orb].
      rewrite !column_total by (exact Hrows || lia). cbn [bind].
      rewrite !broadcast2_same_length by (rewrite !length_map; exact Hlen).
      cbn [bind].
      exact (f_equal Ok (stack4_anchor_box mh mw points distance Hlen)).
Qed.

Lemma Forall2_nth_error {A B : Type} (P : A -> B -> Prop) (l1 : list A)
    (l2 : list B) (i : nat) (x : A) (y : B) :
  Forall2 P l1 l2 -> nth_error l1 i = Some x -> nth_error l2 i = Some y -> P x y.
Proof.
  intros H. revert i. induction H as [|a b l1 l2 Hab _ IH]; intros [|i] Hx Hy;
    simpl in *; try discriminate.
  - injection Hx as <-. injection Hy as <-. exact Hab.
  - apply (IH i); assumption.
Qed.

Lemma nth_map_lt {A B : Type} (f : A -> B) (l : list A) (d : A) (d' : B)
    (i : nat) :
  (i < length l)%nat -> nth i (map f l) d' = f (nth i l d).
Proof.
  intros H. rewrite (nth_indep _ d' (f d)) by (rewrite length_map; exact H).
  apply map_nth.
Qed.

Lemma decode_levels_aligned (self : NanoDet) (levels : list (Z * list (Z * Z)))
    (ind : nat) (preds : list (list R)) (mb : list (list Box))
    (ms : list (list (list R))) :
  project self = np.arange 0 (reg_max self + 1) -> (0 <= reg_max self)%Z ->
  Forall (fun row =>
            length row = (num_classes self + 4 * Z.to_nat (reg_max self + 1))%nat)
         preds ->
  (ind + length (concat (map snd levels)) <= length preds)%nat ->
  decode_levels self levels ind preds = Ok (mb, ms) ->
  Forall2 (fun box scores =>
             exists l i stride anchors anchor row,
               nth_error levels l = Some (stride, anchors) /\
               nth_error anchors i = Some anchor /\
               nth_error preds
                 (ind + length (concat (map snd (firstn l levels))) + i) =
                 Some row /\
               box = row_box self stride anchor row /\
               scores = row_scores self row)
          (concat mb) (concat ms).
Proof.
  intros Hproj Hreg Hrows. revert ind mb ms.
  induction levels as [|[stride anchors] levels IH]; intros ind mb ms Hlen.
  - simpl. intros H; injection H as <- <-. constructor.
  - simpl in Hlen. rewrite length_app in Hlen. cbn [decode_levels].
    set (rows := firstn (length anchors) (skipn ind preds)).
    assert (Hn : length rows = length anchors).
    { unfold rows. rewrite length_firstn, length_skipn. lia. }
    assert (Hnth : forall i, (i < length anchors)%nat ->
              nth_error rows i = nth_error preds (ind + i)).
    { intros i Hi. unfold rows.
      rewrite nth_error_firstn.
      destruct (Nat.ltb_spec i (length anchors)); [|lia].
      apply nth_error_skipn. }
    rewrite decode_distances_rows; try assumption.
    2:{ apply Forall_map, Forall_forall. intros row Hin. unfold rows in Hin.
        apply firstn_In in Hin. rewrite length_skipn.
        assert (In row preds) as Hp.
        { rewrite <- (firstn_skipn ind preds). apply in_or_app. right. exact Hin. }
        rewrite Forall_forall in Hrows. rewrite (Hrows row Hp). lia. }
    cbn [bind].
    destruct (prune_level anchors _ _) as [[[a' b'] c']|] eqn:Hp; [|discriminate].
    cbn [bind].
    assert (Hla : length anchors =
                  length (map (firstn (num_classes self)) rows))
      by (rewrite length_map; symmetry; exact Hn).
    assert (Hlb : length (map (row_distances self stride)
                              (map (skipn (num_classes self)) rows)) =
                  length (map (firstn (num_classes self)) rows))
      by (rewrite !length_map; reflexivity).
    destruct (prune_level_inds _ _ _ _ _ _ Hla Hlb Hp)
      as (inds & Hinds & -> & -> & ->).
    clear Hla Hlb.
    rewrite length_map in Hinds.
    destruct (input_shape self) as [mh mw] eqn:Hshape.
    rewrite distance2bbox_aligned.
    2:{ rewrite !length_map. reflexivity. }
    2:{ apply Forall_map, Forall_forall. intros i Hi.
        rewrite Forall_forall in Hinds. specialize (Hinds i Hi).
        rewrite (nth_map_lt (row_distances self stride) _ [] [] i)
          by (rewrite length_map; exact Hinds).
        rewrite (nth_map_lt (skipn (num_classes self)) rows [] [] i)
          by exact Hinds.
        unfold row_distances. rewrite length_map.
        assert (In (nth i rows []) preds) as Hin.
        { assert (In (nth i rows []) rows) as Hr by (apply nth_In; exact Hinds).
          unfold rows in Hr. apply firstn_In in Hr.
          rewrite <- (firstn_skipn ind preds). apply in_or_app. right. exact Hr. }
        rewrite Forall_forall in Hrows. pose proof (Hrows _ Hin) as Hw.
        apply (chunk_spec _ 4); [lia|]. rewrite length_skipn. lia. }
    cbn [bind].
    destruct (decode_levels self levels _ preds) as [[mb' ms']|] eqn:Hrec;
      [|discriminate]. cbn [bind].
    intros H; injection H as <- <-. cbn [concat].
    apply Forall2_app.
    + rewrite combine_map_pair, map_map.
      apply Forall2_map_same. intros i Hi.
      rewrite Forall_forall in Hinds. specialize (Hinds i Hi).
      destruct (nth_error rows i) as [row|] eqn:Er;
        [|apply nth_error_None in Er; lia].
      destruct (nth_error anchors i) as [anchor|] eqn:Ea;
        [|apply nth_error_None in Ea; lia].
      exists 0%nat, i, stride, anchors, anchor, row.
      split; [reflexivity|]. split; [exact Ea|].
      split; [simpl; rewrite Nat.add_0_r, <- Hnth by lia; exact Er|].
      rewrite (nth_error_nth _ _ (0, 0)%Z Ea).
      rewrite (nth_map_lt (row_distances self stride) _ [] [] i)
        by (rewrite length_map; exact Hinds).
      rewrite (nth_map_lt (skipn (num_classes self)) rows [] [] i)
        by exact Hinds.
      rewrite (nth_map_lt (firstn (num_classes self)) rows [] [] i)
        by exact Hinds.
      rewrite (nth_error_nth _ _ [] Er).
      unfold row_box, row_scores. rewrite Hshape. split; reflexivity.
    + specialize (IH (ind + length anchors)%nat mb' ms' ltac:(lia) Hrec).
      eapply Forall2_impl; [|exact IH].
      intros box scores (l & i & s & a & anchor & row & Hl & Ha & Hr & Hb & Hs).
      exists (S l), i, s, a, anchor, row.
      split; [exact Hl|]. split; [exact Ha|]. split; [|split; assumption].
      cbn [firstn map concat snd]. rewrite length_app.
      rewrite <- Hr. f_equal. lia.
Qed.



(** ** Coordinate remapping *)



(** *** The small detector on an image of 5 by 5 pixels *)

Lemma init_small :
  __init__ ["person"%string] [1; 3; 16; 16]%Z [1; 7; 9]%Z 0.4 0.3 = Ok small.
Proof. reflexivity. Qed.

(** All logits zero: every distribution is uniform on [{0, 1}], and every
    distance is half the stride. *)
Lemma small_distances (s : Z) (rows : list (list R)) :
  Forall (eq [0; 0; 0; 0; 0; 0; 0; 0]) rows ->
  decode_distances small s rows =
  Ok (map (fun _ => [IZR s / 2; IZR s / 2; IZR s / 2; IZR s / 2]) rows).
Proof.
  intros Hrows. rewrite decode_distances_rows.
  - f_equal. apply map_ext_in. intros row Hin.
    rewrite Forall_forall in Hrows. rewrite <- (Hrows row Hin).
    assert (Hc : chunk (Z.to_nat (reg_max small + 1)) [0; 0; 0; 0; 0; 0; 0; 0] =
                 [[0; 0]; [0; 0]; [0; 0]; [0; 0]]) by reflexivity.
    assert (He : expected_value small [0; 0] = 1 / 2).
    { unfold expected_value, softmax_row, inner. cbn. rewrite exp_0. field. }
    unfold row_distances. rewrite Hc. cbn [map]. rewrite He.
    replace (1 / 2 * IZR s) with (IZR s / 2) by lra. reflexivity.
  - reflexivity.
  - simpl. lia.
  - eapply Forall_impl; [|exact Hrows]. intros row <-. reflexivity.
Qed.

Lemma small_decode :
  decode_levels small (combine (strides small) (mlvl_anchors small)) 0 small_preds =
  Ok ([[(0, 0, 4, 4); (4, 0, 12, 4); (0, 4, 4, 12); (4, 4, 12, 12)];
       [(0, 0, 8, 8)]; [(0, 0, 16, 16)]; [(0, 0, 16, 16)]],
      [[[0.1]; [0.1]; [0.1]; [0.9]]; [[0.1]]; [[0.1]]; [[0.1]]]).
Proof.
  cbn. rewrite !small_distances by (repeat constructor). cbn [map bind].
  rewrite !distance2bbox_aligned by (repeat constructor). cbn.
  repeat f_equal; unfold clip, Rmax, Rmin; repeat destruct (Rle_dec _ _); lra.
Qed.

(** Only the candidate of row 3 reaches the threshold. *)
Lemma small_select :
  NMS_select
    (map xywh [(0, 0, 4, 4); (4, 0, 12, 4); (0, 4, 4, 12); (4, 4, 12, 12);
               (0, 0, 8, 8); (0, 0, 16, 16); (0, 0, 16, 16)])
    [0.1; 0.1; 0.1; 0.9; 0.1; 0.1; 0.1] 0.4 0.3 =
  [(3%nat, (xywh (4, 4, 12, 12), 0.9))].
Proof.
  unfold NMS_select. cbn [length seq combine map filter].
  unfold passes, cand_score, Rltb. cbn [snd fst].
  repeat match goal with
         | |- context [Rlt_dec ?a ?b] => destruct (Rlt_dec a b); try lra
         end.
  cbn [negb isort fold_right insert].
  rewrite greedy_equation_2. cbn [filter]. rewrite greedy_equation_1.
  reflexivity.
Qed.

Lemma small_post_process :
  post_process small small_preds 1 false = Ok ([(4, 4, 12, 12)], [0.9], [0%nat]).
Proof.
  destruct (post_process_decoded small small_preds 1 false _ _
              [0; 0; 0; 0; 0; 0; 0]%nat [0.1; 0.1; 0.1; 0.9; 0.1; 0.1; 0.1]
              small_decode eq_refl eq_refl) as [Hpp Hlen].
  rewrite Hpp. cbn [concat app].
  rewrite (suppress_selected _ _ _ _ Hlen). cbv zeta.
  change (prob_threshold small) with 0.4. change (iou_threshold small) with 0.3.
  pose proof small_select as Hs. unfold Box, Cand in Hs |- *. rewrite Hs.
  reflexivity.
Qed.

Lemma small_detect :
  detect small (5, 5)%Z small_preds = Ok [((1, 1, 3, 3)%Z, "person"%string, 0.9)].
Proof.
  unfold detect. cbn [keep_ratio small resize_image input_shape andb bind].
  rewrite small_post_process. cbn.
  rewrite (py_int_value ((4 - 0) * (5 / 16)) 1) by lra.
  rewrite (py_int_value ((12 - 0) * (5 / 16)) 3) by lra.
  reflexivity.
Qed.

Lemma nearest_value (x : R) (z : Z) : IZR z - 1 / 2 <= x < IZR z + 1 / 2 -> nearest x = z.
Proof.
  intros H. unfold nearest. symmetry. apply Int_part_spec. lra.
Qed.

(** ** The decoder on float32 values *)

Lemma FLT_MAX_bounds : 2 ^ 127 <= F32.FLT_MAX < 2 ^ 128.
Proof.
  unfold F32.FLT_MAX.
  assert (H23 : 1 <= 2 ^ 23) by (apply pow_R1_Rle; lra).
  assert (H127 : 1 <= 2 ^ 127) by (apply pow_R1_Rle; lra).
  assert (Hinv : 0 < / 2 ^ 23 <= 1).
  { split; [apply Rinv_0_lt_compat; lra|].
    rewrite <- Rinv_1. apply Rinv_le_contravar; lra. }
  change (2 ^ 128) with (2 * 2 ^ 127). nra.
Qed.

Lemma FLT_MAX_large : 8 <= F32.FLT_MAX.
Proof.
  pose proof FLT_MAX_bounds as [H _].
  assert (H8 : 8 <= 2 ^ 127).
  { change (2 ^ 127) with (2 * (2 * (2 * 2 ^ 124))).
    pose proof (pow_R1_Rle 2 124). lra. }
  lra.
Qed.

Lemma FLT_TINY_bounds : 0 < F32.FLT_TINY <= 1.
Proof.
  unfold F32.FLT_TINY.
  assert (H : 1 <= 2 ^ 150) by (apply pow_R1_Rle; lra).
  split; [apply Rinv_0_lt_compat; lra|].
  rewrite <- Rinv_1. apply Rinv_le_contravar; lra.
Qed.

Lemma overflow_num (x : R) :
  - F32.FLT_MAX <= x <= F32.FLT_MAX -> F32.overflow x = Num x.
Proof.
  intros [H1 H2]. unfold F32.overflow, Rltb.
  destruct (Rlt_dec F32.FLT_MAX x); [lra|].
  destruct (Rlt_dec x (- F32.FLT_MAX)); [lra | reflexivity].
Qed.

(** A result that is not negative is stored as it is or overflows to
    positive infinity. *)
Lemma overflow_nonneg (x : R) :
  0 <= x ->
  (F32.FLT_MAX < x /\ F32.overflow x = PInf) \/
  (x <= F32.FLT_MAX /\ F32.overflow x = Num x).
Proof.
  intros Hx. pose proof FLT_MAX_large as HM. unfold F32.overflow, Rltb.
  destruct (Rlt_dec F32.FLT_MAX x) as [H|H]; [left; split; [exact H | reflexivity]|].
  destruct (Rlt_dec x (- F32.FLT_MAX)); [lra|]. right. split; [lra | reflexivity].
Qed.

Lemma exp_value_bounds (x : R) : 0 <= F32.exp_value x <= exp x.
Proof.
  unfold F32.exp_value, Rltb. pose proof (exp_pos x).
  destruct (Rlt_dec (exp x) F32.FLT_TINY); lra.
Qed.

Lemma exp_value_stored (x : R) :
  F32.FLT_TINY <= exp x -> F32.exp_value x = exp x.
Proof.
  intros H. unfold F32.exp_value, Rltb.
  destruct (Rlt_dec (exp x) F32.FLT_TINY); [lra | reflexivity].
Qed.

Lemma exp_value_flushed (x : R) : exp x < F32.FLT_TINY -> F32.exp_value x = 0.
Proof.
  intros H. unfold F32.exp_value, Rltb.
  destruct (Rlt_dec (exp x) F32.FLT_TINY); [reflexivity | lra].
Qed.

Lemma sum_exp_value_le (v : list R) :
  0 <= sum (map F32.exp_value v) <= sum (map exp v).
Proof.
  induction v as [|x v IH]; simpl; [lra|].
  pose proof (exp_value_bounds x). lra.
Qed.

Lemma sum_In_le (x : R) (l : list R) :
  Forall (fun w => 0 <= w) l -> In x l -> x <= sum l.
Proof.
  induction 1 as [|w l Hw Hl IH]; simpl; [contradiction|].
  pose proof (sum_nonneg l Hl). intros [->|Hin]; [lra|].
  specialize (IH Hin). lra.
Qed.

Lemma F32_sum_nums (w : list R) :
  Forall (fun e => 0 <= e) w -> sum w <= F32.FLT_MAX ->
  F32.sum (map Num w) = Num (sum w).
Proof.
  pose proof FLT_MAX_large as HM.
  induction 1 as [|e w He Hw IH]; simpl; intros Hs; [reflexivity|].
  pose proof (sum_nonneg w Hw) as Hpos.
  unfold F32.sum in *. simpl. rewrite IH by lra.
  simpl. apply overflow_num. lra.
Qed.

Lemma in_range_sum (v : list R) :
  F32.in_range v ->
  0 < sum (map F32.exp_value v) <= F32.FLT_MAX.
Proof.
  intros [Hmax Hex]. split; [|exact Hmax].
  apply Exists_exists in Hex. destruct Hex as (x & Hin & Hx).
  assert (Hin' : In (F32.exp_value x) (map F32.exp_value v))
    by (apply in_map; exact Hin).
  assert (Hnn : Forall (fun e => 0 <= e) (map F32.exp_value v)).
  { apply Forall_map, Forall_forall. intros y _. apply exp_value_bounds. }
  pose proof (sum_In_le _ _ Hnn Hin') as H.
  rewrite (exp_value_stored x Hx) in H.
  pose proof FLT_TINY_bounds. lra.
Qed.

(** In range, float32 softmax returns numbers. *)
Lemma F32_softmax_row_nums (v : list R) :
  F32.in_range v ->
  F32.softmax_row (map Num v) = map Num (F32.softmax_numbers v).
Proof.
  intros Hv. pose proof (in_range_sum v Hv) as [Hpos Hmax].
  pose proof FLT_MAX_large as HM.
  assert (Hnn : Forall (fun e => 0 <= e) (map F32.exp_value v)).
  { apply Forall_map, Forall_forall. intros y _. apply exp_value_bounds. }
  assert (Hexp : map F32.exp (map Num v) = map Num (map F32.exp_value v)).
  { rewrite !map_map. apply map_ext_in. intros x Hin. simpl.
    apply overflow_num.
    pose proof (sum_In_le _ _ Hnn (in_map F32.exp_value _ _ Hin)).
    pose proof (exp_value_bounds x). lra. }
  unfold F32.softmax_row, F32.softmax_numbers. rewrite Hexp.
  rewrite F32_sum_nums by assumption.
  rewrite !map_map. apply map_ext_in. intros x Hin. simpl.
  destruct (Req_dec_T (sum (map F32.exp_value v)) 0) as [E|_]; [lra|].
  apply overflow_num.
  pose proof (sum_In_le _ _ Hnn (in_map F32.exp_value _ _ Hin)) as Hle.
  pose proof (exp_value_bounds x) as [Hx _].
  assert (0 <= F32.exp_value x / sum (map F32.exp_value v) <= 1).
  { split.
    - apply Rmult_le_pos; [exact Hx|]. apply Rlt_le, Rinv_0_lt_compat, Hpos.
    - apply (Rmult_le_reg_r (sum (map F32.exp_value v))); [exact Hpos|].
      unfold Rdiv. rewrite Rmult_assoc, Rinv_l by lra. lra. }
  lra.
Qed.

Lemma softmax_numbers_distribution (v : list R) :
  F32.in_range v -> distribution_of v (F32.softmax_numbers v).
Proof.
  intros Hv. pose proof (in_range_sum v Hv) as [Hpos _].
  unfold distribution_of, F32.softmax_numbers. cbv zeta.
  set (tot := sum (map F32.exp_value v)) in *.
  assert (Hn : forall k, (k < length v)%nat ->
            nth k (map (fun e => e / tot) (map F32.exp_value v)) 0 =
            F32.exp_value (nth k v 0) / tot).
  { intros k Hk. rewrite map_map.
    rewrite (nth_indep _ 0 (F32.exp_value 0 / tot)) by (rewrite length_map; exact Hk).
    apply (map_nth (fun x => F32.exp_value x / tot)). }
  split; [rewrite !length_map; reflexivity|].
  split; [rewrite sum_map_div; fold tot; field; lra|].
  split; [|split].
  - apply Forall_map, Forall_map, Forall_forall. intros x _.
    pose proof (exp_value_bounds x) as [Hx _].
    apply Rmult_le_pos; [exact Hx|]. apply Rlt_le, Rinv_0_lt_compat, Hpos.
  - intros i Hi Hlow. rewrite (Hn i Hi), (exp_value_flushed _ Hlow). field. lra.
  - intros i j Hi Hj Hsi Hsj.
    rewrite (Hn i Hi), (Hn j Hj), (exp_value_stored _ Hsi), (exp_value_stored _ Hsj).
    field. lra.
Qed.

Lemma F32_inner_nums (p q : list R) :
  F32.inner (map Num p) (map Num q) = Num (inner p q).
Proof.
  unfold F32.inner, inner, sum. revert q.
  induction p as [|a p IH]; intros [|b q]; simpl; try reflexivity.
  rewrite IH. reflexivity.
Qed.

Lemma inner_indices (p : list R) (a : nat) :
  inner p (map (fun k => IZR (Z.of_nat k)) (seq a (length p))) =
  sum (map (fun i => INR (a + i) * nth i p 0) (seq 0 (length p))).
Proof.
  unfold inner. revert a. induction p as [|x p IH]; intros a; [reflexivity|].
  cbn [length seq map combine sum fold_right fst snd nth].
  rewrite IH, <- seq_shift, map_map. rewrite Nat.add_0_r, INR_IZR_INZ.
  rewrite (Rmult_comm x). unfold sum. apply f_equal, f_equal, map_ext.
  intros i. rewrite Nat.add_succ_r. reflexivity.
Qed.

Lemma inner_arange (p : list R) :
  inner p (map IZR (np.arange 0 (Z.of_nat (length p)))) = mean_index p.
Proof.
  unfold np.arange, mean_index. rewrite Z.sub_0_r, Nat2Z.id, map_map.
  apply (inner_indices p 0).
Qed.

Lemma F32_softmax_row_length (x : list float) :
  length (F32.softmax_row x) = length x.
Proof. unfold F32.softmax_row. rewrite !length_map. reflexivity. Qed.

(** The value lines 212 to 216 decode from one logit vector. *)
Lemma F32_decode_rows (self : NanoDet) (stride : Z)
    (quads : list (list (list R))) :
  project self = np.arange 0 (reg_max self + 1) ->
  (0 <= reg_max self)%Z ->
  Forall (fun q => length q = 4%nat /\
                   Forall (fun v => length v = Z.to_nat (reg_max self + 1)) q)
         quads ->
  F32.decode_distances self stride (map (fun q => map Num (concat q)) quads) =
  Ok (map (map (fun v =>
                  F32.fmul
                    (F32.inner (F32.softmax_row (map Num v))
                               (map (fun z => Num (IZR z)) (project self)))
                    (Num (IZR stride))))
          quads).
Proof.
  intros Hproj Hreg Hq. unfold F32.decode_distances, np.flatten.
  set (k := Z.to_nat (reg_max self + 1)) in *.
  assert (Hk : (0 < k)%nat) by (unfold k; lia).
  assert (HG : Forall (fun v => length v = k) (concat quads)).
  { apply Forall_concat. eapply Forall_impl; [|exact Hq]. intros q [_ H]; exact H. }
  assert (Hflat : concat (map (fun q => map Num (concat q)) quads) =
                  concat (map (map Num) (concat quads))).
  { rewrite (concat_map (map Num) quads), <- concat_map_concat, map_map.
    f_equal. apply map_ext. intros q. apply concat_map. }
  rewrite Hflat.
  replace (reg_max self + 1)%Z with (Z.of_nat k) by (unfold k; lia).
  rewrite reshape_concat.
  2: exact Hk.
  2:{ apply Forall_map. eapply Forall_impl; [|exact HG].
      intros v Hv. rewrite length_map. exact Hv. }
  cbn [bind]. unfold F32.dot, F32.softmax. rewrite map_map.
  rewrite (mapM_ok _ (fun row => F32.inner row
                        (map (fun z => Num (IZR z)) (project self)))).
  2:{ apply Forall_forall. intros row Hin.
      apply in_map_iff in Hin. destruct Hin as [v [<- Hin]].
      rewrite Forall_forall in HG.
      rewrite F32_softmax_row_length, !length_map, (HG v Hin).
      rewrite Hproj, arange_length, Z.sub_0_r. fold k.
      rewrite Nat.eqb_refl. reflexivity. }
  cbn [bind]. rewrite map_map.
  rewrite <- (map_map (fun v => map Num v)
                (fun row => F32.inner (F32.softmax_row row)
                              (map (fun z => Num (IZR z)) (project self)))).
  rewrite map_map.
  assert (Hflat2 :
    map (fun v => F32.inner (F32.softmax_row (map Num v))
                    (map (fun z => Num (IZR z)) (project self))) (concat quads) =
    concat (map (map (fun v => F32.inner (F32.softmax_row (map Num v))
                                 (map (fun z => Num (IZR z)) (project self))))
                quads)).
  { rewrite <- concat_map. reflexivity. }
  rewrite Hflat2. change 4%Z with (Z.of_nat 4).
  rewrite reshape_concat.
  - cbn [bind]. rewrite map_map. f_equal. apply map_ext. intros q.
    rewrite map_map. reflexivity.
  - lia.
  - apply Forall_map. eapply Forall_impl; [|exact Hq].
    intros q [H4 _]. rewrite length_map. exact H4.
Qed.

(** In range it is a number: the expected value times the stride. *)
Lemma F32_decoded_value (self : NanoDet) (stride : Z) (v : list R) :
  project self = np.arange 0 (reg_max self + 1) ->
  length v = Z.to_nat (reg_max self + 1) -> (0 <= reg_max self)%Z ->
  F32.in_range v ->
  F32.fmul (F32.inner (F32.softmax_row (map Num v))
                      (map (fun z => Num (IZR z)) (project self)))
           (Num (IZR stride)) =
  Num (mean_index (F32.softmax_numbers v) * IZR stride).
Proof.
  intros Hproj Hlen Hreg Hv.
  rewrite (F32_softmax_row_nums v Hv), <- (map_map IZR Num), F32_inner_nums.
  cbn [F32.fmul]. do 2 f_equal.
  rewrite Hproj, <- inner_arange. do 3 f_equal.
  unfold F32.softmax_numbers. rewrite !length_map, Hlen. lia.
Qed.

Lemma F32_decode_quads (self : NanoDet) (stride : Z)
    (quads : list (list (list R))) :
  project self = np.arange 0 (reg_max self + 1) ->
  (0 <= reg_max self)%Z ->
  Forall (fun q => length q = 4%nat /\
                   Forall (fun v => length v = Z.to_nat (reg_max self + 1) /\
                                    F32.in_range v) q)
         quads ->
  F32.decode_distances self stride (map (fun q => map Num (concat q)) quads) =
  Ok (map (map (fun v => Num (mean_index (F32.softmax_numbers v) * IZR stride)))
          quads).
Proof.
  intros Hproj Hreg Hq. rewrite F32_decode_rows; [|exact Hproj | exact Hreg|].
  - f_equal. apply map_ext_in. intros q Hin. apply map_ext_in. intros v Hv.
    rewrite Forall_forall in Hq. destruct (Hq q Hin) as [_ Hg].
    rewrite Forall_forall in Hg. destruct (Hg v Hv) as [Hlen Hr].
    apply F32_decoded_value; assumption.
  - eapply Forall_impl; [|exact Hq]. intros q [H4 Hg]. split; [exact H4|].
    eapply Forall_impl; [|exact Hg]. intros v [Hv _]. exact Hv.
Qed.

(** *** Logit vectors out of range *)

Lemma exp_kind (x : R) :
  F32.exp (Num x) = PInf \/ exists e, F32.exp (Num x) = Num e /\ 0 <= e.
Proof.
  simpl. destruct (overflow_nonneg (F32.exp_value x)) as [[_ H]|[_ H]].
  - apply exp_value_bounds.
  - left. exact H.
  - right. exists (F32.exp_value x). split; [exact H | apply exp_value_bounds].
Qed.

Lemma F32_exp_num (x : R) :
  F32.exp_value x <= F32.FLT_MAX -> F32.exp (Num x) = Num (F32.exp_value x).
Proof.
  intros H. simpl. apply overflow_num.
  pose proof (exp_value_bounds x). pose proof FLT_MAX_large. lra.
Qed.

(** The float32 sum of the exponentials is their sum, or positive infinity
    when that is beyond the largest float32. *)
Lemma F32_sum_exps (v : list R) :
  let tot := sum (map F32.exp_value v) in
  (tot <= F32.FLT_MAX -> F32.sum (map F32.exp (map Num v)) = Num tot) /\
  (F32.FLT_MAX < tot -> F32.sum (map F32.exp (map Num v)) = PInf).
Proof.
  pose proof FLT_MAX_large as HM. cbv zeta.
  induction v as [|x v [IH1 IH2]]; [split; [reflexivity | simpl; lra]|].
  pose proof (exp_value_bounds x) as [Hx _].
  pose proof (sum_exp_value_le v) as [Hs _].
  unfold F32.sum in *. cbn [map fold_right sum].
  change (fold_right Rplus 0 (map F32.exp_value v))
    with (sum (map F32.exp_value v)).
  split; intros H.
  - rewrite F32_exp_num, IH1 by lra. cbn [F32.add]. apply overflow_num. lra.
  - destruct (Rle_lt_dec (sum (map F32.exp_value v)) F32.FLT_MAX) as [Hle|Hlt].
    + rewrite (IH1 Hle).
      destruct (exp_kind x) as [-> | (e & He & _)]; [reflexivity|].
      destruct (Rle_lt_dec (F32.exp_value x) F32.FLT_MAX) as [Hxl|Hxg].
      * rewrite (F32_exp_num x Hxl). cbn [F32.add].
        destruct (overflow_nonneg (F32.exp_value x + sum (map F32.exp_value v)))
          as [[_ Ho]|[Ho _]]; [lra | exact Ho | lra].
      * simpl in He. simpl.
        destruct (overflow_nonneg (F32.exp_value x) Hx) as [[_ Ho]|[Ho _]];
          [rewrite Ho; reflexivity | lra].
    + rewrite (IH2 Hlt).
      destruct (exp_kind x) as [-> | (e & -> & _)]; reflexivity.
Qed.

(** Out of range, no entry of the softmax is a positive number. *)
Lemma softmax_row_out_of_range (v : list R) :
  ~ F32.in_range v ->
  Forall (fun a => a = NaN \/ a = Num 0) (F32.softmax_row (map Num v)).
Proof.
  intros Hout. pose proof FLT_MAX_large as HM.
  destruct (F32_sum_exps v) as [Hfin Hinf]. cbv zeta in Hfin, Hinf.
  unfold F32.softmax_row.
  destruct (Rle_lt_dec (sum (map F32.exp_value v)) F32.FLT_MAX) as [Hle|Hlt].
  - assert (Hlow : Forall (fun x => exp x < F32.FLT_TINY) v).
    { apply Forall_forall. intros x Hin.
      destruct (Rlt_le_dec (exp x) F32.FLT_TINY) as [H|H]; [exact H|].
      exfalso. apply Hout. split; [exact Hle|].
      apply Exists_exists. exists x. split; assumption. }
    assert (Hzero : map F32.exp_value v = map (fun _ => 0) v).
    { apply map_ext_in. intros x Hin. rewrite Forall_forall in Hlow.
      apply exp_value_flushed, Hlow, Hin. }
    assert (Htot : sum (map F32.exp_value v) = 0).
    { rewrite Hzero. clear. induction v as [|x v IH]; simpl; [reflexivity|].
      rewrite IH. lra. }
    rewrite (Hfin Hle), Htot.
    apply Forall_map, Forall_map, Forall_map, Forall_forall. intros x Hin.
    rewrite Forall_forall in Hlow.
    rewrite F32_exp_num by (rewrite (exp_value_flushed x (Hlow x Hin)); lra).
    rewrite (exp_value_flushed x (Hlow x Hin)). cbn [F32.div].
    destruct (Req_dec_T 0 0) as [_|E]; [left; reflexivity | contradiction].
  - rewrite (Hinf Hlt).
    apply Forall_map, Forall_map, Forall_map, Forall_forall. intros x _.
    destruct (exp_kind x) as [-> | (e & -> & _)]; [left | right]; reflexivity.
Qed.


Lemma in_range_small (v : list R) :
  v <> [] -> Forall (fun x => 0 <= x <= 1) v -> (length v <= 2)%nat ->
  F32.in_range v.
Proof.
  intros Hne Hv Hlen. pose proof FLT_MAX_large as HM.
  pose proof FLT_TINY_bounds as HT. pose proof exp_le_3 as H3.
  assert (Hexp : forall x, 0 <= x <= 1 -> 1 <= exp x <= 3).
  { intros x [Hx0 Hx1]. pose proof (exp_ineq1_le x). split; [lra|].
    destruct (Rle_lt_or_eq_dec x 1 Hx1) as [Hlt| ->]; [|exact H3].
    apply Rlt_le, Rlt_le_trans with (exp 1); [apply exp_increasing, Hlt | exact H3]. }
  split.
  - apply Rle_trans with (sum (map exp v)); [apply sum_exp_value_le|].
    destruct v as [|a [|b [|c v]]]; simpl in *; try lia; try congruence.
    + inversion Hv as [|? ? Ha _]; subst. pose proof (Hexp a Ha). lra.
    + inversion Hv as [|? ? Ha Hv']; subst. inversion Hv' as [|? ? Hb _]; subst.
      pose proof (Hexp a Ha). pose proof (Hexp b Hb). lra.
  - destruct v as [|a v]; [congruence|]. inversion Hv as [|? ? Ha _]; subst.
    apply Exists_cons_hd. pose proof (Hexp a Ha). lra.
Qed.

(** The example logits are in range. *)
Lemma example_groups_in_range :
  Forall F32.in_range [[0; 1]; [1; 0]; [0; 0]; [1; 1]].
Proof.
  apply Forall_forall. intros v Hin. simpl in Hin.
  assert (Hv : v <> [] /\ Forall (fun x => 0 <= x <= 1) v /\ length v = 2%nat).
  { destruct Hin as [<-|[<-|[<-|[<-|[]]]]];
      (split; [discriminate|]); (split; [|reflexivity]);
      repeat (apply Forall_cons; [lra|]); apply Forall_nil. }
  destruct Hv as (Hne & Hv & Hlen).
  apply in_range_small; [exact Hne | exact Hv | lia].
Qed.


(** The exponential of 1000 is beyond every float32. *)
Lemma exp_pow2 (n : nat) : 2 ^ n <= exp (INR n).
Proof.
  induction n as [|n IH]; [simpl; rewrite exp_0; lra|].
  rewrite S_INR, exp_plus. cbn [pow].
  pose proof (exp_ineq1_le 1). pose proof (exp_pos (INR n)).
  assert (0 < 2 ^ n) by (apply pow_lt; lra). nra.
Qed.

Lemma exp_1000_overflows : F32.exp (Num 1000) = PInf.
Proof.
  pose proof FLT_MAX_bounds as [_ HM]. pose proof FLT_TINY_bounds as HT.
  assert (H : 2 ^ 128 <= exp 1000).
  { apply Rle_trans with (2 ^ 1000); [apply Rle_pow; [lra | lia]|].
    replace 1000 with (INR 1000) by (rewrite INR_IZR_INZ; reflexivity).
    apply exp_pow2. }
  assert (H1 : 1 <= 2 ^ 128) by (apply pow_R1_Rle; lra).
  simpl. unfold F32.exp_value, F32.overflow, Rltb.
  destruct (Rlt_dec (exp 1000) F32.FLT_TINY); [lra|].
  destruct (Rlt_dec F32.FLT_MAX (exp 1000)); [reflexivity | lra].
Qed.

Lemma exp_0_stored : F32.exp (Num 0) = Num 1.
Proof.
  pose proof FLT_MAX_large. pose proof FLT_TINY_bounds.
  simpl. rewrite exp_value_stored by (rewrite exp_0; lra).
  rewrite exp_0. apply overflow_num. lra.
Qed.

Lemma softmax_row_overflow : F32.softmax_row [Num 1000; Num 0] = [NaN; Num 0].
Proof.
  pose proof FLT_MAX_large.
  unfold F32.softmax_row. cbn [map].
  rewrite exp_1000_overflows, exp_0_stored.
  unfold F32.sum. cbn [fold_right F32.add].
  rewrite (overflow_num (1 + 0)) by lra. reflexivity.
Qed.

Lemma softmax_row_zeros : F32.softmax_row [Num 0; Num 0] = [Num (1 / 2); Num (1 / 2)].
Proof.
  pose proof FLT_MAX_large.
  unfold F32.softmax_row. cbn [map]. rewrite exp_0_stored.
  unfold F32.sum. cbn [fold_right F32.add].
  rewrite (overflow_num (1 + 0)) by lra. cbn [F32.add].
  rewrite (overflow_num (1 + (1 + 0))) by lra. cbn [F32.div].
  destruct (Req_dec_T (1 + (1 + 0)) 0) as [E|_]; [lra|].
  rewrite (overflow_num (1 / (1 + (1 + 0)))) by lra.
  repeat f_equal; lra.
Qed.

Lemma decode_overflow :
  F32.decode_distances tiny 8
    [[Num 1000; Num 0; Num 0; Num 0; Num 0; Num 0; Num 0; Num 0]] =
  Ok [[NaN; Num 4; Num 4; Num 4]].
Proof.
  unfold F32.decode_distances.
  assert (Hr : reshape (reg_max tiny + 1)
                 (np.flatten [[Num 1000; Num 0; Num 0; Num 0; Num 0; Num 0; Num 0; Num 0]]) =
               Ok [[Num 1000; Num 0]; [Num 0; Num 0]; [Num 0; Num 0]; [Num 0; Num 0]])
    by reflexivity.
  rewrite Hr. cbn [bind F32.softmax map].
  rewrite softmax_row_overflow, softmax_row_zeros.
  cbn [F32.dot mapM length map Nat.eqb project tiny tiny_with bind].
  cbn [F32.inner combine map fold_right fst snd F32.fmul F32.fadd].
  set (m := 1 / 2 * 0 + (1 / 2 * 1 + 0)).
  assert (Hr4 : reshape 4 [NaN; Num m; Num m; Num m] =
                Ok [[NaN; Num m; Num m; Num m]]) by reflexivity.
  rewrite Hr4. cbn. unfold m. repeat f_equal; lra.
Qed.


(** *** Finite logits out of range *)

(** The sum of exponentials is positive infinity, or a number that bounds
    each of them. *)
Lemma sum_kind (l : list float) :
  Forall (fun a => a = PInf \/ exists e, a = Num e /\ 0 <= e) l ->
  F32.sum l = PInf \/
  exists s, F32.sum l = Num s /\ 0 <= s /\
            Forall (fun a => exists e, a = Num e /\ 0 <= e <= s) l.
Proof.
  induction 1 as [|a l Ha _ IH].
  - right. exists 0. split; [reflexivity|]. split; [lra | constructor].
  - unfold F32.sum in *. cbn [fold_right].
    destruct Ha as [-> | (e & -> & He)].
    + left. destruct IH as [-> | (s & -> & _)]; reflexivity.
    + destruct IH as [-> | (s & -> & Hs & Hl)]; [left; reflexivity|].
      cbn [F32.add].
      destruct (overflow_nonneg (e + s)) as [[_ H]|[_ H]]; [lra | left; exact H|].
      right. exists (e + s). split; [exact H|]. split; [lra|].
      constructor; [exists e; split; [reflexivity | lra]|].
      eapply Forall_impl; [|exact Hl]. intros b (y & -> & Hy).
      exists y. split; [reflexivity | lra].
Qed.

Lemma softmax_row_kind (v : list R) :
  Forall F32.nan_or_nonneg (F32.softmax_row (map Num v)).
Proof.
  pose proof FLT_MAX_large as HM.
  unfold F32.softmax_row.
  assert (Hk : Forall (fun a => a = PInf \/ exists e, a = Num e /\ 0 <= e)
                      (map F32.exp (map Num v))).
  { apply Forall_map, Forall_map, Forall_forall. intros x _. apply exp_kind. }
  destruct (sum_kind _ Hk) as [-> | (s & -> & Hs & Hl)].
  - apply Forall_map. eapply Forall_impl; [|exact Hk].
    intros a [-> | (e & -> & He)]; [left; reflexivity|].
    right. exists 0. split; [reflexivity | lra].
  - apply Forall_map. eapply Forall_impl; [|exact Hl].
    intros a (e & -> & He). cbn [F32.div].
    destruct (Req_dec_T s 0) as [E|E].
    + destruct (Req_dec_T e 0) as [_|E']; [left; reflexivity | lra].
    + assert (0 <= e / s <= 1).
      { assert (0 < s) by lra. split.
        - apply Rmult_le_pos; [lra|]. apply Rlt_le, Rinv_0_lt_compat. lra.
        - apply (Rmult_le_reg_r s); [lra|].
          unfold Rdiv. rewrite Rmult_assoc, Rinv_l by lra. lra. }
      right. exists (e / s). split; [apply overflow_num; lra | lra].
Qed.

Lemma fmul_kind (a : float) (y : R) :
  F32.nan_or_nonneg a -> 0 <= y -> F32.nan_or_nonneg (F32.fmul a (Num y)).
Proof.
  intros [-> | (x & -> & Hx)] Hy; [left; reflexivity|].
  right. exists (x * y). split; [reflexivity | apply Rmult_le_pos; assumption].
Qed.

Lemma fadd_kind (a b : float) :
  F32.nan_or_nonneg a -> F32.nan_or_nonneg b -> F32.nan_or_nonneg (F32.fadd a b).
Proof.
  intros [-> | (x & -> & Hx)] [-> | (y & -> & Hy)];
    try (left; reflexivity).
  right. exists (x + y). split; [reflexivity | lra].
Qed.

Lemma inner_kind (u : list float) (q : list R) :
  Forall F32.nan_or_nonneg u -> Forall (fun y => 0 <= y) q ->
  F32.nan_or_nonneg (F32.inner u (map Num q)).
Proof.
  unfold F32.inner. intros Hu. revert q.
  induction Hu as [|a u Ha _ IH]; intros q Hq.
  - right. exists 0. split; [reflexivity | lra].
  - destruct Hq as [|y q Hy Hq].
    + right. exists 0. split; [reflexivity | lra].
    + cbn [map combine fold_right fst snd].
      apply fadd_kind; [apply fmul_kind; assumption | apply IH, Hq].
Qed.

(** Every decoded distance of a finite logit vector is NaN or a number
    that is not negative. *)
Lemma F32_decoded_kind (self : NanoDet) (stride : Z) (v : list R) :
  project self = np.arange 0 (reg_max self + 1) -> (0 <= stride)%Z ->
  F32.nan_or_nonneg
    (F32.fmul (F32.inner (F32.softmax_row (map Num v))
                         (map (fun z => Num (IZR z)) (project self)))
              (Num (IZR stride))).
Proof.
  intros Hproj Hs. apply fmul_kind; [|apply IZR_le; exact Hs].
  rewrite <- (map_map IZR Num). apply inner_kind; [apply softmax_row_kind|].
  rewrite Hproj. apply arange_nonneg.
Qed.

(** *** Box reconstruction on floats *)

Lemma column_total_default {A : Type} (d : A) (j : nat) (a : list (list A)) :
  Forall (fun row => length row = 4%nat) a -> (j < 4)%nat ->
  column j a = Ok (map (fun row => nth j row d) a).
Proof.
  intros Ha Hj. unfold column. apply mapM_ok.
  eapply Forall_impl; [|exact Ha]. intros row Hrow. cbv beta in Hrow.
  unfold py_index. rewrite (nth_error_nth' row d); [reflexivity | lia].
Qed.

Lemma stack4_F32_anchor_box (mh mw : Z) (points : list (Z * Z))
    (distance : list (list float)) :
  length points = length distance ->
  let px := map (fun p => Num (IZR (fst p))) points in
  let py := map (fun p => Num (IZR (snd p))) points in
  let col j := map (fun row : list float => nth j row NaN) distance in
  let lo := Num 0 in
  stack4
    (map (F32.clip lo (Num (IZR mw)))
         (map (fun p => F32.fsub (fst p) (snd p)) (combine px (col 0%nat))))
    (map (F32.clip lo (Num (IZR mh)))
         (map (fun p => F32.fsub (fst p) (snd p)) (combine py (col 1%nat))))
    (map (F32.clip lo (Num (IZR mw)))
         (map (fun p => F32.fadd (fst p) (snd p)) (combine px (col 2%nat))))
    (map (F32.clip lo (Num (IZR mh)))
         (map (fun p => F32.fadd (fst p) (snd p)) (combine py (col 3%nat)))) =
  map (F32.anchor_box mh mw) (combine points distance).
Proof.
  revert distance. induction points as [|p points IH]; intros [|d distance] Hlen;
    simpl in *; try discriminate; [reflexivity|].
  rewrite IH by lia. reflexivity.
Qed.

Lemma F32_distance2bbox_aligned (mh mw : Z) (points : list (Z * Z))
    (distance : list (list float)) :
  length points = length distance ->
  Forall (fun row => length row = 4%nat) distance ->
  F32.distance2bbox points distance (Some (mh, mw)) =
  Ok (map (F32.anchor_box mh mw) (combine points distance)).
Proof.
  intros Hlen Hrows. unfold F32.distance2bbox.
  destruct (Nat.eqb_spec (length points) 0) as [E|E].
  - destruct points; [reflexivity | discriminate].
  - destruct (Nat.eqb_spec (length (np.flatten distance)) 0) as [E'|E'].
    + unfold np.flatten in E'.
      rewrite (concat_uniform_length 4) in E' by exact Hrows. lia.
    + cbn [orb].
      rewrite !(column_total_default NaN) by (exact Hrows || lia). cbn [bind].
      rewrite !broadcast2_same_length by (rewrite !length_map; exact Hlen).
      cbn [bind]. cbv zeta.
      exact (f_equal Ok (stack4_F32_anchor_box mh mw points distance Hlen)).
Qed.

Lemma F32_clip_nums (lo hi x : R) :
  F32.clip (Num lo) (Num hi) (Num x) = Num (clip lo hi x).
Proof. reflexivity. Qed.

(** A box reconstructed from distances that are NaN or not negative is in
    order, or has a NaN coordinate. *)
Lemma anchor_box_kind (mh mw : Z) (p : Z * Z) (d : list float) :
  length d = 4%nat -> Forall F32.nan_or_nonneg d ->
  F32.box_ordered (F32.anchor_box mh mw (p, d)) \/
  F32.has_nan (F32.anchor_box mh mw (p, d)).
Proof.
  intros Hlen Hd.
  destruct d as [|d0 [|d1 [|d2 [|d3 [|? ?]]]]]; simpl in Hlen; try discriminate.
  inversion Hd as [|? ? K0 Hd1]; subst. inversion Hd1 as [|? ? K1 Hd2]; subst.
  inversion Hd2 as [|? ? K2 Hd3]; subst. inversion Hd3 as [|? ? K3 _]; subst.
  unfold F32.anchor_box, F32.has_nan, F32.box_ordered. cbn [nth].
  destruct K0 as [-> | (a0 & -> & H0)]; [right; left; reflexivity|].
  destruct K1 as [-> | (a1 & -> & H1)]; [right; right; left; reflexivity|].
  destruct K2 as [-> | (a2 & -> & H2)]; [right; right; right; left; reflexivity|].
  destruct K3 as [-> | (a3 & -> & H3)]; [right; right; right; right; reflexivity|].
  left. cbn [F32.fsub F32.fopp F32.fadd]. rewrite !F32_clip_nums. cbn [F32.le].
  split; apply Rleb_true, clip_mono; lra.
Qed.

(** *** Box reconstruction on numbers *)

Lemma mapM_map {A B C : Type} (f : B -> result C) (g : A -> B) (l : list A) :
  mapM f (map g l) = mapM (fun a => f (g a)) l.
Proof.
  induction l as [|a l IH]; simpl; [reflexivity | rewrite IH; reflexivity].
Qed.

Lemma column_map {A B : Type} (f : A -> B) (j : nat) (a : list (list A)) :
  column j (map (map f) a) =
  match column j a with
  | Ok c => Ok (map f c)
  | Raise e => Raise e
  end.
Proof.
  unfold column. rewrite mapM_map.
  induction a as [|row a IH]; simpl; [reflexivity|].
  unfold py_index at 1 3. rewrite nth_error_map.
  destruct (nth_error row j) as [x|]; simpl; [|reflexivity].
  rewrite IH. destruct (mapM (fun row : list A => py_index row j) a); reflexivity.
Qed.

Lemma broadcast2_map {A B : Type} (f : A -> B) (g : A -> A -> A)
    (h : B -> B -> B) (a b : list A) :
  (forall x y, h (f x) (f y) = f (g x y)) ->
  broadcast2 h (map f a) (map f b) =
  match broadcast2 g a b with
  | Ok c => Ok (map f c)
  | Raise e => Raise e
  end.
Proof.
  intros Hfg. unfold broadcast2. rewrite !length_map.
  destruct (Nat.eqb (length a) (length b)).
  - f_equal. revert b. induction a as [|x a IH]; intros [|y b]; simpl;
      try reflexivity. rewrite IH, Hfg. reflexivity.
  - destruct a as [|x [|x' a]].
    + destruct b as [|y [|y' b]]; reflexivity.
    + simpl. f_equal. rewrite !map_map. apply map_ext. intros y. apply Hfg.
    + destruct b as [|y [|y' b]]; try reflexivity.
      cbn [map]. f_equal. cbn [map]. rewrite !Hfg. do 2 f_equal.
      rewrite !map_map. apply map_ext. intros z. apply Hfg.
Qed.

Lemma stack4_of_box (x1 y1 x2 y2 : list R) :
  stack4 (map Num x1) (map Num y1) (map Num x2) (map Num y2) =
  map F32.of_box (stack4 x1 y1 x2 y2).
Proof.
  revert y1 x2 y2. induction x1 as [|a x1 IH]; intros [|b y1] [|c x2] [|d y2];
    simpl; try reflexivity.
  rewrite IH. reflexivity.
Qed.

(** On numbers, box reconstruction on floats is box reconstruction on the
    reals. *)
Lemma F32_distance2bbox_nums (points : list (Z * Z)) (distance : list (list R))
    (max_shape : option (Z * Z)) :
  F32.distance2bbox points (map (map Num) distance) max_shape =
  match distance2bbox points distance max_shape with
  | Ok boxes => Ok (map F32.of_box boxes)
  | Raise e => Raise e
  end.
Proof.
  unfold F32.distance2bbox, distance2bbox, np.flatten.
  rewrite <- concat_map, length_map.
  destruct (_ || _); [reflexivity|].
  rewrite !column_map.
  destruct (column 0 distance) as [d0|]; [|reflexivity].
  destruct (column 1 distance) as [d1|]; [|reflexivity].
  destruct (column 2 distance) as [d2|]; [|reflexivity].
  destruct (column 3 distance) as [d3|]; [|reflexivity].
  cbn [bind].
  rewrite <- !(map_map (fun p : Z * Z => IZR (fst p)) Num).
  rewrite <- !(map_map (fun p : Z * Z => IZR (snd p)) Num).
  rewrite (broadcast2_map Num Rminus F32.fsub) by reflexivity.
  destruct (broadcast2 Rminus _ d0) as [x1|]; [|reflexivity]. cbn [bind].
  rewrite (broadcast2_map Num Rminus F32.fsub) by reflexivity.
  destruct (broadcast2 Rminus _ d1) as [y1|]; [|reflexivity]. cbn [bind].
  rewrite (broadcast2_map Num Rplus F32.fadd) by reflexivity.
  destruct (broadcast2 Rplus _ d2) as [x2|]; [|reflexivity]. cbn [bind].
  rewrite (broadcast2_map Num Rplus F32.fadd) by reflexivity.
  destruct (broadcast2 Rplus _ d3) as [y2|]; [|reflexivity]. cbn [bind].
  destruct max_shape as [[mh mw]|].
  - cbv zeta. rewrite !map_map.
    rewrite <- !(map_map (clip 0 (IZR mw)) Num).
    rewrite <- !(map_map (clip 0 (IZR mh)) Num).
    rewrite stack4_of_box. reflexivity.
  - rewrite stack4_of_box. reflexivity.
Qed.

Lemma of_box_ordered (b : Box) : box_ordered b -> F32.box_ordered (F32.of_box b).
Proof.
  destruct b as [[[x1 y1] x2] y2]. intros [Hx Hy]. simpl.
  split; apply Rleb_true; assumption.
Qed.

(** C9, as the code has it.  For the anchors of a level and their rows of
    four finite logit vectors, each of length [reg_max + 1], the decoded
    distances and the boxes reconstructed from them exist, one box per
    anchor, and every box has [x1 <= x2] and [y1 <= y2] or has a coordinate
    that is NaN.  When every logit vector is in the range float32 can
    exponentiate and normalise, every box has [x1 <= x2] and [y1 <= y2]. *)
Theorem boxes_ordered (labels : list string) (ishape oshape : list Z) (pt it : R)
    (self : NanoDet) (stride : Z) (anchors : list (Z * Z))
    (quads : list (list (list R))) :
  __init__ labels ishape oshape pt it = Ok self ->
  (0 <= reg_max self)%Z -> (0 <= stride)%Z ->
  length quads = length anchors ->
  Forall (fun q => length q = 4%nat /\
                   Forall (fun v => length v = Z.to_nat (reg_max self + 1)) q)
         quads ->
  exists distance boxes,
    F32.decode_distances self stride (map (fun q => map Num (concat q)) quads) =
      Ok distance /\
    F32.distance2bbox anchors distance (Some (input_shape self)) = Ok boxes /\
    length boxes = length anchors /\
    Forall (fun b => F32.box_ordered b \/ F32.has_nan b) boxes /\
    (Forall (Forall F32.in_range) quads -> Forall F32.box_ordered boxes).
Proof.
  intros Hinit Hreg Hs Hlen Hq.
  pose proof (init_project _ _ _ _ _ _ Hinit) as Hproj.
  pose proof (F32_decode_rows self stride quads Hproj Hreg Hq) as Hdec.
  set (Df := map (map (fun v =>
                  F32.fmul
                    (F32.inner (F32.softmax_row (map Num v))
                               (map (fun z => Num (IZR z)) (project self)))
                    (Num (IZR stride)))) quads) in *.
  assert (Hrows : Forall (fun row => length row = 4%nat) Df).
  { unfold Df. apply Forall_map. eapply Forall_impl; [|exact Hq].
    intros q [H4 _]. rewrite length_map. exact H4. }
  assert (Hkind : Forall (Forall F32.nan_or_nonneg) Df).
  { unfold Df. apply Forall_map, Forall_forall. intros q _.
    apply Forall_map, Forall_forall. intros v _.
    apply F32_decoded_kind; assumption. }
  assert (HlenD : length anchors = length Df).
  { unfold Df. rewrite length_map. symmetry. exact Hlen. }
  destruct (input_shape self) as [mh mw].
  pose proof (F32_distance2bbox_aligned mh mw anchors Df HlenD Hrows) as Hbox.
  exists Df, (map (F32.anchor_box mh mw) (combine anchors Df)).
  split; [exact Hdec|]. split; [exact Hbox|]. split; [|split].
  - rewrite length_map, length_combine, <- HlenD. apply Nat.min_id.
  - apply Forall_map, Forall_forall. intros [p d] Hin.
    apply in_combine_r in Hin. rewrite Forall_forall in Hrows, Hkind.
    apply anchor_box_kind; [apply Hrows | apply Hkind]; exact Hin.
  - intros Hr.
    assert (Hq' : Forall (fun q => length q = 4%nat /\
                    Forall (fun v => length v = Z.to_nat (reg_max self + 1) /\
                                     F32.in_range v) q) quads).
    { apply Forall_forall. intros q Hin. rewrite Forall_forall in Hq, Hr.
      destruct (Hq q Hin) as [H4 Hg]. split; [exact H4|].
      apply Forall_forall. intros v Hv. rewrite Forall_forall in Hg.
      specialize (Hr q Hin). rewrite Forall_forall in Hr.
      split; [apply Hg | apply Hr]; exact Hv. }
    pose proof (F32_decode_quads self stride quads Hproj Hreg Hq') as Hnum.
    set (D := map (map (fun v => mean_index (F32.softmax_numbers v) * IZR stride))
                  quads).
    assert (HD : Df = map (map Num) D).
    { rewrite Hdec in Hnum. injection Hnum as ->. unfold D.
      rewrite map_map. apply map_ext. intros q. rewrite map_map. reflexivity. }
    assert (Hnn : Forall (Forall (fun d => 0 <= d)) D).
    { unfold D. apply Forall_map, Forall_forall. intros q Hin.
      apply Forall_map, Forall_forall. intros v Hv.
      rewrite Forall_forall in Hr. specialize (Hr q Hin).
      rewrite Forall_forall in Hr.
      destruct (softmax_numbers_distribution v (Hr v Hv)) as (_ & _ & Hp & _).
      apply Rmult_le_pos; [|apply IZR_le; exact Hs].
      unfold mean_index. apply sum_nonneg, Forall_map, Forall_forall.
      intros i _. apply Rmult_le_pos; [apply pos_INR|].
      destruct (Nat.lt_ge_cases i (length (F32.softmax_numbers v))) as [Hi|Hi].
      - rewrite Forall_forall in Hp. apply Hp, nth_In, Hi.
      - rewrite nth_overflow by exact Hi. lra. }
    rewrite HD, F32_distance2bbox_nums in Hbox.
    destruct (distance2bbox anchors D (Some (mh, mw))) as [B|] eqn:HB;
      [|discriminate].
    injection Hbox as Hbox. rewrite HD, <- Hbox.
    apply Forall_map.
    eapply Forall_impl; [|exact (distance2bbox_ordered _ _ _ _ Hnn HB)].
    intros b. apply of_box_ordered.
Qed.

Lemma boxes_ordered_witness :
  let quads := [[[0; 1]; [1; 0]; [0; 0]; [1; 1]]] in
  exists distance boxes,
    F32.decode_distances tiny 8 (map (fun q => map Num (concat q)) quads) =
      Ok distance /\
    F32.distance2bbox [(0, 0)%Z] distance (Some (input_shape tiny)) = Ok boxes /\
    length boxes = 1%nat /\
    Forall (fun b => F32.box_ordered b \/ F32.has_nan b) boxes /\
    Forall F32.box_ordered boxes.
Proof.
  assert (Hreg : (0 <= reg_max tiny)%Z) by (simpl; lia).
  assert (Hs : (0 <= 8)%Z) by lia.
  assert (Hlen : Forall (fun q => length q = 4%nat /\
                    Forall (fun v => length v = Z.to_nat (reg_max tiny + 1)) q)
                   [[[0; 1]; [1; 0]; [0; 0]; [1; 1]]])
    by (repeat (constructor; try reflexivity)).
  destruct (boxes_ordered _ _ _ _ _ tiny 8 [(0, 0)%Z]
              [[[0; 1]; [1; 0]; [0; 0]; [1; 1]]] init_tiny Hreg Hs eq_refl Hlen)
    as (d & b & H1 & H2 & H3 & H4 & H5).
  exists d, b. split; [exact H1|]. split; [exact H2|]. split; [exact H3|].
  split; [exact H4|]. apply H5.
  constructor; [exact example_groups_in_range | constructor].
Defined.

(** C9 as stated fails on a finite logit.  On the small detector, at the
    anchor [(0, 0)] of the level of stride 8, the row whose first logit is
    1000 and whose other logits are 0 decodes to the box
    [(NaN, 0, 4, 4)]: [x1 <= x2] is false on it. *)
Lemma nan_box_counterexample :
  exists distance,
    F32.decode_distances tiny 8
      [[Num 1000; Num 0; Num 0; Num 0; Num 0; Num 0; Num 0; Num 0]] = Ok distance /\
    F32.distance2bbox [(0, 0)%Z] distance (Some (input_shape tiny)) =
      Ok [(NaN, Num 0, Num 4, Num 4)] /\
    F32.le NaN (Num 4) = false /\
    ~ F32.box_ordered (NaN, Num 0, Num 4, Num 4).
Proof.
  exists [[NaN; Num 4; Num 4; Num 4]]. split; [exact decode_overflow|].
  split.
  - cbn. repeat f_equal; unfold Rmax, Rmin; repeat destruct (Rle_dec _ _); lra.
  - split; [reflexivity|]. intros [H _]. discriminate H.
Qed.
